(** * TPM2 trusted keys: the key-blob codec and the Create / Load / Unseal
      commands of security/keys/trusted-keys/trusted_tpm2.c

    The C functions are embedded as Rocq functions over an explicit
    machine state (payload, options, kmalloc heap, trace of calls into the
    TPM core).  Integers are [Z] with the C wrap-around written out, byte
    buffers are [list Z], and the kernel helpers that live outside this
    file (ASN.1 encoder and decoder, tpm_buf, the session layer) are either
    modelled where the codec depends on them or taken as oracles carried by
    the [collaborators] record. *)

From Stdlib Require Import ZArith List Lia Bool.
From stdpp Require Import base gmap list.
Import ListNotations.
Local Open Scope Z_scope.

(** ** C integer types and errno values *)

Module CInt.
Definition u8 (z : Z) : Z := z mod 2 ^ 8.
Definition u16 (z : Z) : Z := z mod 2 ^ 16.
Definition u32 (z : Z) : Z := z mod 2 ^ 32.
(** conversion to a 32-bit [int] *)
Definition int32 (z : Z) : Z := (z + 2 ^ 31) mod 2 ^ 32 - 2 ^ 31.
Definition is_byte (b : Z) : Prop := 0 <= b < 256.
Definition is_u32 (z : Z) : Prop := 0 <= z < 2 ^ 32.
End CInt.
Import CInt.

Module Errno.
Definition EPERM : Z := 1.
Definition E2BIG : Z := 7.
Definition ENOMEM : Z := 12.
Definition EFAULT : Z := 14.
Definition EINVAL : Z := 22.
Definition EBADMSG : Z := 74.
Definition EMSGSIZE : Z := 90.
End Errno.
Import Errno.

(** ** Constants of the headers the file includes

    Modelled from the spec: the spec names [MAX_BLOB_SIZE], [MIN_KEY_SIZE],
    [MAX_KEY_SIZE] and the attribute bits without their values; the values
    are those of include/keys/trusted-type.h, include/linux/tpm.h and
    asm/page.h, which are not part of the translated file. *)

Definition PAGE_SIZE : Z := 4096.
Definition MIN_KEY_SIZE : Z := 32.
Definition MAX_KEY_SIZE : Z := 128.
Definition MAX_BLOB_SIZE : Z := 512.
Definition TPM_DIGEST_SIZE : Z := 20.
Definition TPM_HEADER_SIZE : Z := 10.

Definition TPM2_ST_SESSIONS : Z := 0x8002.
Definition TPM2_CC_CREATE : Z := 0x0153.
Definition TPM2_CC_LOAD : Z := 0x0157.
Definition TPM2_CC_UNSEAL : Z := 0x015E.
Definition TPM2_RC_HASH : Z := 0x0083.

Definition TPM_ALG_SHA1 : Z := 0x0004.
Definition TPM_ALG_KEYEDHASH : Z := 0x0008.
Definition TPM_ALG_SHA256 : Z := 0x000B.
Definition TPM_ALG_SHA384 : Z := 0x000C.
Definition TPM_ALG_SHA512 : Z := 0x000D.
Definition TPM_ALG_NULL : Z := 0x0010.
Definition TPM_ALG_SM3_256 : Z := 0x0012.

Definition HASH_ALGO_SHA1 : Z := 2.
Definition HASH_ALGO_SHA256 : Z := 4.
Definition HASH_ALGO_SHA384 : Z := 5.
Definition HASH_ALGO_SHA512 : Z := 6.
Definition HASH_ALGO_SM3_256 : Z := 17.

(** object attributes: BIT(1), BIT(4), BIT(6) *)
Definition TPM2_OA_FIXED_TPM : Z := 2.
Definition TPM2_OA_FIXED_PARENT : Z := 16.
Definition TPM2_OA_USER_WITH_AUTH : Z := 64.

(** session attributes: BIT(5), BIT(6) *)
Definition TPM2_SA_DECRYPT : Z := 32.
Definition TPM2_SA_ENCRYPT : Z := 64.

(** tpm_buf flags: BIT(0), BIT(1), BIT(2) *)
Definition TPM_BUF_OVERFLOW : Z := 1.
Definition TPM_BUF_TPM2B : Z := 2.
Definition TPM_BUF_BOUNDARY_ERROR : Z := 4.

(** ** Byte buffers with bounds-checked reads

    A buffer is the list of its bytes; its length is the size of the
    object.  A read outside of the object has no C meaning and is reported
    as [None]. *)

Definition rd (m : list Z) (i : Z) : option Z :=
  if i <? 0 then None else nth_error m (Z.to_nat i).

Definition get_unaligned_be16 (m : list Z) (off : Z) : option Z :=
  match rd m off, rd m (off + 1) with
  | Some b0, Some b1 => Some (Z.lor (Z.shiftl b0 8) b1)
  | _, _ => None
  end.

Definition get_unaligned_be32 (m : list Z) (off : Z) : option Z :=
  match rd m off, rd m (off + 1), rd m (off + 2), rd m (off + 3) with
  | Some b0, Some b1, Some b2, Some b3 =>
      Some (Z.lor (Z.lor (Z.lor (Z.shiftl b0 24) (Z.shiftl b1 16))
                         (Z.shiftl b2 8)) b3)
  | _, _, _, _ => None
  end.

(** the [len] bytes at [off], as memcpy reads them *)
Definition slice (m : list Z) (off len : Z) : option (list Z) :=
  if (0 <=? off) && (0 <=? len) && (off + len <=? Z.of_nat (length m))
  then Some (firstn (Z.to_nat len) (skipn (Z.to_nat off) m))
  else None.

(** memcpy(dst + off, src, length src) on the object [dst] *)
Definition memcpy (dst : list Z) (off : nat) (src : list Z) : list Z :=
  firstn off dst ++ src ++ skipn (off + length src) dst.

(** ** The ASN.1 encoder (lib/asn1_encoder.c) *)

Module Asn1.

(** Result of an encoder call.  [Ptr l]: the cursor after the call, [l]
    being what the destination holds from its start up to the cursor;
    [ErrPtr e]: ERR_PTR(e); [BadRead]: the call copied from outside of its
    source object. *)
Inductive errptr : Type :=
| Ptr (written : list Z)
| ErrPtr (err : Z)
| BadRead.

(** Modelled from the spec: asn1_encode_length of lib/asn1_encoder.c is
    not under src/; the definite-length forms of the "DER-style structured
    encoding" (one byte up to 0x7f, else 0x81/0x82/0x83 and the length
    big-endian), each guarded by the room left in the destination. *)
Definition asn1_encode_length (data_len len : Z) : Z + list Z :=
  if data_len <? 1 then inl (- EINVAL)
  else if len <? 0 then inr [0x80]
  else if len <=? 0x7f then inr [len]
  else if data_len <? 2 then inl (- EINVAL)
  else if len <=? 0xff then inr [0x81; Z.land len 0xff]
  else if data_len <? 3 then inl (- EINVAL)
  else if len <=? 0xffff
       then inr [0x82; Z.land (Z.shiftr len 8) 0xff; Z.land len 0xff]
  else if len >? 0xffffff then inl (- EINVAL)
  else if data_len <? 4 then inl (- EINVAL)
  else inr [0x83; Z.land (Z.shiftr len 16) 0xff;
            Z.land (Z.shiftr len 8) 0xff; Z.land len 0xff].

(** tag, length and [len] bytes copied from [string] *)
Definition encode_tlv (cap : Z) (data : errptr) (tag : Z)
           (string : list Z) (len : Z) : errptr :=
  match data with
  | Ptr l =>
      let data_len := cap - Z.of_nat (length l) in
      if data_len <? 2 then ErrPtr (- EINVAL)
      else
        match asn1_encode_length (data_len - 1) len with
        | inl e => ErrPtr e
        | inr lb =>
            let data_len := data_len - 1 - Z.of_nat (length lb) in
            if data_len <? len then ErrPtr (- EINVAL)
            else match slice string 0 len with
                 | Some s => Ptr (l ++ [tag] ++ lb ++ s)
                 | None => BadRead
                 end
        end
  | _ => data
  end.

(** Modelled from the spec: asn1_encode_octet_string is not under src/;
    "an opaque byte string": tag 0x04, definite length, the bytes. *)
Definition asn1_encode_octet_string (cap : Z) (data : errptr)
           (string : list Z) (len : Z) : errptr :=
  encode_tlv cap data 0x04 string len.

(** Modelled from the spec: asn1_encode_tag is not under src/; the
    "optional boolean tag": context-specific constructed tag [tag] (0xa0
    for tag 0) around already encoded content. *)
Definition asn1_encode_tag (cap : Z) (data : errptr) (tag : Z)
           (string : list Z) (len : Z) : errptr :=
  if tag >? 30 then ErrPtr (- EINVAL)
  else encode_tlv cap data (Z.lor 0xa0 tag) string len.

(** Modelled from the spec: asn1_encode_boolean is not under src/; three
    bytes: tag 0x01, length 1, value. *)
Definition asn1_encode_boolean (cap : Z) (data : errptr) (val : bool)
  : errptr :=
  match data with
  | Ptr l =>
      if cap - Z.of_nat (length l) <? 3 then ErrPtr (- EINVAL)
      else Ptr (l ++ [0x01; 1; if val then 1 else 0])
  | _ => data
  end.

(** Modelled from the spec: asn1_encode_sequence is not under src/; the
    "outer sequence tag": 0x30, definite length, the content.  The second
    component is what the call has stored in the destination when it
    returns, also when it fails after the header. *)
Definition asn1_encode_sequence (cap : Z) (seq : list Z) (len : Z)
  : errptr * list Z :=
  if cap <? 2 then (ErrPtr (- EINVAL), [])
  else
    match asn1_encode_length (cap - 1) len with
    | inl e => (ErrPtr e, [0x30])
    | inr lb =>
        let data_len := cap - 1 - Z.of_nat (length lb) in
        if data_len <? len then (ErrPtr (- EINVAL), 0x30 :: lb)
        else match slice seq 0 len with
             | Some s => (Ptr (0x30 :: lb ++ s), 0x30 :: lb ++ s)
             | None => (BadRead, 0x30 :: lb)
             end
    end.

(** the loop of asn1_encode_integer over the eight bytes of the s64,
    most significant first; [i] bytes are left *)
Fixpoint encode_integer_loop (i : nat) (integer : Z) (found : bool)
         (data_len : Z) (d : list Z) : Z + list Z :=
  match i with
  | O => inr d
  | S i' =>
      let byte := int32 (Z.shiftr integer (8 * Z.of_nat i')) in
      if negb found && (byte =? 0)
      then encode_integer_loop i' integer found data_len d
      else
        let pad := negb found && negb (Z.land byte 0x80 =? 0) in
        let d1 := if pad then d ++ [0] else d in
        let data_len1 := if pad then data_len - 1 else data_len in
        if data_len1 =? 0 then inl (- EINVAL)
        else encode_integer_loop i' integer true (data_len1 - 1)
                                 (d1 ++ [u8 byte])
  end.

(** Modelled from the spec: asn1_encode_integer is not under src/; "the
    parent handle as an integer": tag 0x02, the minimal big-endian two's
    complement bytes of a non-negative integer, a zero byte in front
    when the first byte has its top bit set. *)
Definition asn1_encode_integer (cap : Z) (data : errptr) (integer : Z)
  : errptr :=
  if integer <? 0 then ErrPtr (- EINVAL)
  else
    match data with
    | Ptr l =>
        let data_len := cap - Z.of_nat (length l) in
        if data_len <? 3 then ErrPtr (- EINVAL)
        else if integer =? 0 then Ptr (l ++ [0x02; 1; 0])
        else
          match encode_integer_loop 8 integer false (data_len - 2) [] with
          | inl e => ErrPtr e
          | inr d => Ptr (l ++ [0x02; Z.of_nat (length d)] ++ d)
          end
    | _ => data
    end.

(** one arc of an object identifier, base 128 with continuation bits;
    [start] is the shift of the first septet *)
Fixpoint oid_digit_bytes (n : nat) (oid : Z) : list Z :=
  match n with
  | O => [oid]
  | S n' =>
      let start := 7 * Z.of_nat n in
      let byte := u8 (Z.shiftr oid start) in
      Z.lor byte 0x80 :: oid_digit_bytes n' (oid - Z.shiftl byte start)
  end.

Definition oid_digit_start (oid : Z) : nat :=
  if negb (Z.shiftr oid 28 =? 0) then 4%nat
  else if negb (Z.shiftr oid 21 =? 0) then 3%nat
  else if negb (Z.shiftr oid 14 =? 0) then 2%nat
  else if negb (Z.shiftr oid 7 =? 0) then 1%nat
  else 0%nat.

Definition asn1_encode_oid_digit (data_len : Z) (oid : Z) : Z + list Z :=
  if data_len <? 1 then inl (- EINVAL)
  else if oid =? 0 then inr [0x80]
  else
    let bs := oid_digit_bytes (oid_digit_start oid) oid in
    if Z.of_nat (length bs) <=? data_len then inr bs else inl (- EINVAL).

Fixpoint encode_oid_arcs (data_len : Z) (arcs : list Z) (d : list Z)
  : Z + list Z :=
  match arcs with
  | [] => inr d
  | a :: arcs' =>
      match asn1_encode_oid_digit data_len a with
      | inl e => inl e
      | inr bs =>
          encode_oid_arcs (data_len - Z.of_nat (length bs)) arcs' (d ++ bs)
      end
  end.

(** Modelled from the spec: asn1_encode_oid is not under src/; "a fixed
    object identifier": tag 0x06, the first two arcs in one byte, each
    further arc in base 128. *)
Definition asn1_encode_oid (cap : Z) (data : errptr) (oid : list Z)
  : errptr :=
  let oid_len := Z.of_nat (length oid) in
  if oid_len <? 2 then ErrPtr (- EINVAL)
  else if oid_len >? 32 then ErrPtr (- EINVAL)
  else
    match data, oid with
    | Ptr l, o0 :: o1 :: arcs =>
        let data_len := cap - Z.of_nat (length l) in
        if data_len <? 3 then ErrPtr (- EINVAL)
        else
          match encode_oid_arcs (data_len - 3) arcs [u8 (o0 * 40 + o1)] with
          | inl e => ErrPtr e
          | inr d => Ptr (l ++ [0x06; Z.of_nat (length d)] ++ d)
          end
    | _, _ => data
    end.

End Asn1.
Import Asn1.

(** ** Machine state *)

(** struct trusted_key_payload and struct trusted_key_options
    (include/keys/trusted-type.h): [key] has MAX_KEY_SIZE + 1 bytes and
    [blob] has MAX_BLOB_SIZE bytes. *)
Record trusted_key_payload : Type := mk_payload {
  key_len : Z;
  blob_len : Z;
  migratable : Z;
  old_format : Z;
  key : list Z;
  blob : list Z
}.

Record trusted_key_options : Type := mk_options {
  keytype : Z;
  keyhandle : Z;
  keyauth : list Z;
  blobauth_len : Z;
  blobauth : list Z;
  pcrinfo_len : Z;
  pcrinfo : list Z;
  pcrlock : Z;
  hash : Z;
  policydigest_len : Z;
  policydigest : list Z;
  policyhandle : Z
}.

(** struct tpm_buf: [b_data] is the page of the buffer, indexed by byte *)
Record tpm_buf : Type := mk_buf {
  b_flags : Z;
  b_length : Z;
  b_data : Z -> Z
}.

(** calls that leave this file, in program order *)
Inductive event : Type :=
| EvTryGetOps
| EvPutOps
| EvStartAuthSession
| EvEndAuthSession
| EvBufInit (ordinal : Z)
| EvBufInitSized
| EvBufDestroy
| EvKmalloc (size : Z)
| EvKfree (id : nat)
| EvAppendName (handle : Z)
| EvAppendHmacSession (attributes : Z)
| EvFillHmacSession
| EvTransmit (command : list Z)
| EvCheckHmacResponse
| EvFlushContext (handle : Z).

(** The collaborators of the file: the TPM core (chip ownership, sessions,
    transport), the page and slab allocators.  Each answer may depend on
    everything that happened before, so an oracle reads the trace. *)
Record collaborators : Type := mk_collaborators {
  k_try_get_ops : list event -> Z;
  k_start_auth_session : list event -> Z;
  (** __get_free_page: [None] for no memory, else the stale page *)
  k_get_free_page : list event -> option (Z -> Z);
  (** kmalloc: [None] for no memory, else the stale bytes of the object *)
  k_kmalloc : list event -> Z -> option (list Z);
  k_append_name : list event -> tpm_buf -> Z -> tpm_buf;
  k_append_hmac_session : list event -> tpm_buf -> Z -> list Z -> Z -> tpm_buf;
  k_append_hmac_session_opt :
    list event -> tpm_buf -> Z -> list Z -> Z -> tpm_buf;
  k_fill_hmac_session : list event -> tpm_buf -> tpm_buf;
  k_transmit_cmd : list event -> tpm_buf -> Z -> Z * tpm_buf;
  k_check_hmac_response : list event -> tpm_buf -> Z -> Z * tpm_buf;
  (** tpm2_rc_value of include/linux/tpm.h *)
  k_rc_value : Z -> Z
}.

Record world : Type := mk_world {
  payload : trusted_key_payload;
  options : trusted_key_options;
  (** live kmalloc objects *)
  heap : gmap nat (list Z);
  trace : list event
}.

Definition set_payload (p : trusted_key_payload) (w : world) : world :=
  mk_world p (options w) (heap w) (trace w).
Definition set_options (o : trusted_key_options) (w : world) : world :=
  mk_world (payload w) o (heap w) (trace w).
Definition set_heap (h : gmap nat (list Z)) (w : world) : world :=
  mk_world (payload w) (options w) h (trace w).
Definition log (e : event) (w : world) : world :=
  mk_world (payload w) (options w) (heap w) (trace w ++ [e]).

Definition set_blob (b : list Z) (p : trusted_key_payload) :=
  mk_payload (key_len p) (blob_len p) (migratable p) (old_format p) (key p) b.
Definition set_blob_len (n : Z) (p : trusted_key_payload) :=
  mk_payload (key_len p) n (migratable p) (old_format p) (key p) (blob p).
Definition set_migratable (m : Z) (p : trusted_key_payload) :=
  mk_payload (key_len p) (blob_len p) m (old_format p) (key p) (blob p).
Definition set_old_format (f : Z) (p : trusted_key_payload) :=
  mk_payload (key_len p) (blob_len p) (migratable p) f (key p) (blob p).
Definition set_key (k : list Z) (n : Z) (p : trusted_key_payload) :=
  mk_payload n (blob_len p) (migratable p) (old_format p) k (blob p).
Definition set_keyhandle (h : Z) (o : trusted_key_options) :=
  mk_options (keytype o) h (keyauth o) (blobauth_len o) (blobauth o)
             (pcrinfo_len o) (pcrinfo o) (pcrlock o) (hash o)
             (policydigest_len o) (policydigest o) (policyhandle o).

(** ** A state monad with faults

    A C function is a [M A]: from a state it either returns a value and a
    state, or it performs an access that C gives no meaning. *)

Inductive fault : Type :=
| OutOfBoundsRead
| BadPointer.

Inductive outcome (A : Type) : Type :=
| Done (a : A) (w : world)
| Crash (f : fault) (w : world).
Arguments Done {A} a w.
Arguments Crash {A} f w.

Definition M (A : Type) : Type := world -> outcome A.

Definition ret {A} (a : A) : M A := fun w => Done a w.
Definition bind {A B} (m : M A) (k : A -> M B) : M B :=
  fun w => match m w with
           | Done a w' => k a w'
           | Crash f w' => Crash f w'
           end.
Definition crash {A} (f : fault) : M A := fun w => Crash f w.
Definition get : M world := fun w => Done w w.
Definition modify (f : world -> world) : M unit := fun w => Done tt (f w).
(** a read that must hit its object *)
Definition must {A} (o : option A) : M A :=
  match o with Some a => ret a | None => crash OutOfBoundsRead end.

Notation "'let!' x ':=' m 'in' k" := (bind m (fun x => k))
  (at level 10, x name, m at level 100, k at level 200).
Notation "'run' m 'then' k" := (bind m (fun _ => k))
  (at level 10, m at level 100, k at level 200).

Definition final {A} (o : outcome A) : world :=
  match o with Done _ w => w | Crash _ w => w end.

(** ** The key context and the field callbacks of the decoder *)

(** struct tpm2_key_context; a NULL view is the empty list *)
Record tpm2_key_context : Type := mk_ctx {
  parent : Z;
  pub : list Z;
  pub_len : Z;
  priv : list Z;
  priv_len : Z
}.

Definition ctx_zero : tpm2_key_context := mk_ctx 0 [] 0 [] 0.

(** the body of the loop of tpm2_key_parent, over the bytes of the field *)
Fixpoint parent_loop (v : list Z) (parent : Z) : Z :=
  match v with
  | [] => parent
  | b :: v' => parent_loop v' (Z.lor (u32 (Z.shiftl parent 8)) b)
  end.

(** A callback receives the context, the header length, the tag and the
    value of the field ([vlen] is the length of [value]); it returns its
    status and the context. *)
Definition tpm2_key_parent (ctx : tpm2_key_context) (hdrlen tag : Z)
           (value : list Z) : Z * tpm2_key_context :=
  (0, mk_ctx (parent_loop value 0) (pub ctx) (pub_len ctx)
             (priv ctx) (priv_len ctx)).

(** Modelled from the spec: look_up_OID and the OID registry are not under
    src/; the identifier "must resolve to the expected sealed data object
    type", which the registry does for the encoding of 2.23.133.10.1.5. *)
Definition OID_TPMSealedData_bytes : list Z := [0x67; 0x81; 0x05; 0x0a; 0x01; 0x05].

Definition is_OID_TPMSealedData (value : list Z) : bool :=
  bool_decide (value = OID_TPMSealedData_bytes).

Definition tpm2_key_type (ctx : tpm2_key_context) (hdrlen tag : Z)
           (value : list Z) : Z * tpm2_key_context :=
  if negb (is_OID_TPMSealedData value) then (- EINVAL, ctx) else (0, ctx).

Definition tpm2_key_pub (ctx : tpm2_key_context) (hdrlen tag : Z)
           (value : list Z) : Z * tpm2_key_context :=
  (0, mk_ctx (parent ctx) value (u32 (Z.of_nat (length value)))
             (priv ctx) (priv_len ctx)).

Definition tpm2_key_priv (ctx : tpm2_key_context) (hdrlen tag : Z)
           (value : list Z) : Z * tpm2_key_context :=
  (0, mk_ctx (parent ctx) (pub ctx) (pub_len ctx)
             value (u32 (Z.of_nat (length value)))).

(** ** The decoder for the schema of the key blob *)

Module Asn1Decoder.

(** a definite length: short form, or one or two length bytes *)
Definition der_length (l : list Z) : option (Z * list Z) :=
  match l with
  | [] => None
  | b :: r =>
      if b <=? 0x7f then Some (b, r)
      else if b =? 0x81 then
        match r with
        | x :: r' => Some (x, r')
        | _ => None
        end
      else if b =? 0x82 then
        match r with
        | x :: y :: r' => Some (Z.lor (Z.shiftl x 8) y, r')
        | _ => None
        end
      else None
  end.

(** one element: its tag, header length, value, and what follows it *)
Definition der_tlv (l : list Z) : option (Z * Z * list Z * list Z) :=
  match l with
  | [] => None
  | tag :: r =>
      if Z.land tag 0x1f =? 0x1f then None
      else
        match der_length r with
        | Some (n, r') =>
            if n <=? Z.of_nat (length r')
            then Some (tag, Z.of_nat (length l) - Z.of_nat (length r'),
                       firstn (Z.to_nat n) r', skipn (Z.to_nat n) r')
            else None
        | None => None
        end
  end.

Definition callback : Type :=
  tpm2_key_context -> Z -> Z -> list Z -> Z * tpm2_key_context.

(** a mandatory primitive field with the given tag and action *)
Definition field (tag : Z) (act : callback) (ctx : tpm2_key_context)
           (l : list Z) : Z * tpm2_key_context * list Z :=
  match der_tlv l with
  | Some (t, hdrlen, value, rest) =>
      if t =? tag then
        let '(rc, ctx') := act ctx hdrlen t value in
        (if rc <? 0 then rc else 0, ctx', rest)
      else (- EBADMSG, ctx, l)
  | None => (- EBADMSG, ctx, l)
  end.

(** emptyAuth [0] EXPLICIT BOOLEAN OPTIONAL: skipped when the next tag
    is not 0xa0, otherwise it holds exactly one BOOLEAN *)
Definition emptyAuth (l : list Z) : Z * list Z :=
  match der_tlv l with
  | Some (t, _, value, rest) =>
      if t =? 0xa0 then
        match der_tlv value with
        | Some (0x01, _, _, []) => (0, rest)
        | _ => (- EBADMSG, l)
        end
      else (0, l)
  | None => (0, l)
  end.

(** Modelled from the spec: asn1_ber_decoder and the compiled schema
    tpm2key_decoder are not under src/; the blob wire format
    "SEQUENCE { OID; [0] BOOLEAN OPTIONAL; INTEGER parent; OCTET STRING
    public; OCTET STRING private }" read by "a direct recursive-descent
    parser against the fixed schema" that invokes the field callbacks,
    over definite lengths.  [None]: the [datalen] bytes are not all
    inside [data]. *)
Definition asn1_ber_decoder (ctx : tpm2_key_context) (data : list Z)
           (datalen : Z) : option (Z * tpm2_key_context) :=
  if datalen >? 65535 then Some (- EMSGSIZE, ctx)
  else
    match slice data 0 datalen with
    | None => None
    | Some d =>
        Some
          match der_tlv d with
          | Some (0x30, _, body, _) =>
              let '(rc, ctx, l) := field 0x06 tpm2_key_type ctx body in
              if rc <? 0 then (rc, ctx) else
              let '(rc, l) := emptyAuth l in
              if rc <? 0 then (rc, ctx) else
              let '(rc, ctx, l) := field 0x02 tpm2_key_parent ctx l in
              if rc <? 0 then (rc, ctx) else
              let '(rc, ctx, l) := field 0x04 tpm2_key_pub ctx l in
              if rc <? 0 then (rc, ctx) else
              let '(rc, ctx, l) := field 0x04 tpm2_key_priv ctx l in
              if rc <? 0 then (rc, ctx) else
              match l with
              | [] => (0, ctx)
              | _ => (- EBADMSG, ctx)
              end
          | _ => (- EBADMSG, ctx)
          end
    end.

End Asn1Decoder.
Import Asn1Decoder.

(** ** Command buffers (struct tpm_buf) *)

Module TpmBuf.

Definition page_write (p : Z -> Z) (off : Z) (bs : list Z) : Z -> Z :=
  fun i =>
    if (off <=? i) && (i <? off + Z.of_nat (length bs))
    then nth (Z.to_nat (i - off)) bs 0
    else p i.

Definition page_read (p : Z -> Z) (off : Z) (n : nat) : list Z :=
  map (fun k => p (off + Z.of_nat k)) (seq 0 n).

Definition be16_bytes (v : Z) : list Z :=
  [Z.land (Z.shiftr v 8) 0xff; Z.land v 0xff].
Definition be32_bytes (v : Z) : list Z :=
  [Z.land (Z.shiftr v 24) 0xff; Z.land (Z.shiftr v 16) 0xff;
   Z.land (Z.shiftr v 8) 0xff; Z.land v 0xff].

Definition page_be16 (p : Z -> Z) (off : Z) : Z :=
  Z.lor (Z.shiftl (p off) 8) (p (off + 1)).
Definition page_be32 (p : Z -> Z) (off : Z) : Z :=
  Z.lor (Z.lor (Z.lor (Z.shiftl (p off) 24) (Z.shiftl (p (off + 1)) 16))
               (Z.shiftl (p (off + 2)) 8)) (p (off + 3)).

Definition flag_set (flags bit : Z) : bool := negb (Z.land flags bit =? 0).

Definition tpm_buf_length (buf : tpm_buf) : Z := b_length buf.

(** Modelled from the spec: the tpm_buf helpers of
    drivers/char/tpm/tpm-buf.c are not under src/; "appends ... to an
    outgoing command buffer": a page with a length, a header that
    carries the length, and an overflow flag once an append does not
    fit the page. *)
Definition tpm_buf_reset (buf : tpm_buf) (tag ordinal : Z) : tpm_buf :=
  mk_buf 0 TPM_HEADER_SIZE
         (page_write (b_data buf) 0
            (be16_bytes tag ++ be32_bytes TPM_HEADER_SIZE
                        ++ be32_bytes ordinal)).

Definition tpm_buf_reset_sized (buf : tpm_buf) : tpm_buf :=
  mk_buf TPM_BUF_TPM2B 2 (page_write (b_data buf) 0 [0; 0]).

(** [None]: the [new_length] bytes are not all inside [new_data] *)
Definition tpm_buf_append (buf : tpm_buf) (new_data : list Z)
           (new_length : Z) : option tpm_buf :=
  let new_length := u16 new_length in
  if flag_set (b_flags buf) TPM_BUF_OVERFLOW then Some buf
  else if b_length buf + new_length >? PAGE_SIZE
  then Some (mk_buf (Z.lor (b_flags buf) TPM_BUF_OVERFLOW)
                    (b_length buf) (b_data buf))
  else
    match slice new_data 0 new_length with
    | None => None
    | Some bs =>
        let length' := b_length buf + new_length in
        let data' := page_write (b_data buf) (b_length buf) bs in
        Some (mk_buf (b_flags buf) length'
                (if flag_set (b_flags buf) TPM_BUF_TPM2B
                 then page_write data' 0 (be16_bytes (length' - 2))
                 else page_write data' 2 (be32_bytes length')))
    end.

(** the fixed-width appends never read outside of their value *)
Definition append_bytes (buf : tpm_buf) (bs : list Z) : tpm_buf :=
  match tpm_buf_append buf bs (Z.of_nat (length bs)) with
  | Some buf' => buf'
  | None => buf
  end.

Definition tpm_buf_append_u8 (buf : tpm_buf) (value : Z) : tpm_buf :=
  append_bytes buf [u8 value].
Definition tpm_buf_append_u16 (buf : tpm_buf) (value : Z) : tpm_buf :=
  append_bytes buf (be16_bytes (u16 value)).
Definition tpm_buf_append_u32 (buf : tpm_buf) (value : Z) : tpm_buf :=
  append_bytes buf (be32_bytes (u32 value)).

(** the value read, the buffer (its flags) and the offset afterwards *)
Definition tpm_buf_read_u32 (buf : tpm_buf) (offset : Z)
  : Z * tpm_buf * Z :=
  if flag_set (b_flags buf) TPM_BUF_BOUNDARY_ERROR then (0, buf, offset)
  else if offset + 4 >? b_length buf
  then (0, mk_buf (Z.lor (b_flags buf) TPM_BUF_BOUNDARY_ERROR)
                  (b_length buf) (b_data buf), offset)
  else (page_be32 (b_data buf) offset, buf, offset + 4).

End TpmBuf.
Import TpmBuf.

(** *** tpm2_buf_append_auth

    [nonce] and [hmac] are [None] for NULL. *)
Definition tpm2_buf_append_auth (buf : tpm_buf) (session_handle : Z)
           (nonce : option (list Z)) (nonce_len : Z) (attributes : Z)
           (hmac : option (list Z)) (hmac_len : Z) : option tpm_buf :=
  let nonce_len := u16 nonce_len in
  let hmac_len := u16 hmac_len in
  let buf := tpm_buf_append_u32 buf (9 + nonce_len + hmac_len) in
  let buf := tpm_buf_append_u32 buf session_handle in
  let buf := tpm_buf_append_u16 buf nonce_len in
  match
    match nonce with
    | Some n => if nonce_len =? 0 then Some buf
                else tpm_buf_append buf n nonce_len
    | None => Some buf
    end
  with
  | None => None
  | Some buf =>
      let buf := tpm_buf_append_u8 buf attributes in
      let buf := tpm_buf_append_u16 buf hmac_len in
      match hmac with
      | Some h => if hmac_len =? 0 then Some buf
                  else tpm_buf_append buf h hmac_len
      | None => Some buf
      end
  end.

(** static struct tpm2_hash tpm2_hash_map[]: (crypto_id, tpm_id) *)
Definition tpm2_hash_map : list (Z * Z) :=
  [(HASH_ALGO_SHA1, TPM_ALG_SHA1);
   (HASH_ALGO_SHA256, TPM_ALG_SHA256);
   (HASH_ALGO_SHA384, TPM_ALG_SHA384);
   (HASH_ALGO_SHA512, TPM_ALG_SHA512);
   (HASH_ALGO_SM3_256, TPM_ALG_SM3_256)].

(** the lookup loop at the head of tpm2_seal_trusted: the tpm_id of the
    first entry whose crypto_id is [h]; [None] when the loop runs to
    ARRAY_SIZE(tpm2_hash_map) *)
Fixpoint hash_lookup (map : list (Z * Z)) (h : Z) : option Z :=
  match map with
  | [] => None
  | (crypto_id, tpm_id) :: map' =>
      if h =? crypto_id then Some tpm_id else hash_lookup map' h
  end.

(** where the blob that Load indexes lives *)
Inductive blobref : Type :=
| InPayload
| InHeap (id : nat).

Section Core.

Context (K : collaborators).

(** kmalloc(size, GFP_KERNEL): NULL, or a fresh object of [size] bytes
    whose content is what the allocator left there *)
Definition kmalloc (size : Z) : M (option nat) := fun w =>
  let w1 := log (EvKmalloc size) w in
  match k_kmalloc K (trace w) size with
  | None => Done None w1
  | Some stale =>
      let n := Z.to_nat size in
      let id := fresh (dom (heap w)) in
      Done (Some id)
           (set_heap (<[id := firstn n (stale ++ repeat 0 n)]> (heap w)) w1)
  end.

(** kfree(p): the object is no longer live *)
Definition kfree (id : nat) : M unit :=
  modify (fun w => log (EvKfree id) (set_heap (delete id (heap w)) w)).

(** *** tpm2_key_encode *)

Definition tpm2key_oid : list Z := [2; 23; 133; 10; 1; 5].

Definition SCRATCH_SIZE : Z := PAGE_SIZE.

(** lines 54-82: what the scratch buffer receives, as the cursor [work]
    after the last encoder call.  [inl e] is a jump to err with
    [ret = e]. *)
Definition encode_scratch (o : trusted_key_options) (src : list Z)
           (priv_len pub_len : Z) : Z + errptr :=
  let work := asn1_encode_oid SCRATCH_SIZE (Ptr []) tpm2key_oid in
  let tagged :=
    if blobauth_len o =? 0 then
      (* tag 0 is emptyAuth *)
      match asn1_encode_boolean 3 (Ptr []) true with
      | Ptr bool => inr (asn1_encode_tag SCRATCH_SIZE work 0 bool
                                         (Z.of_nat (length bool)))
      | ErrPtr e => inl e
      | BadRead => inr BadRead
      end
    else inr work in
  match tagged with
  | inl e => inl e
  | inr (Ptr l) =>
      if Z.of_nat (length l) + pub_len + priv_len + 14 >? SCRATCH_SIZE
      then inl (- EINVAL)
      else
        let work := asn1_encode_integer SCRATCH_SIZE (Ptr l) (keyhandle o) in
        let work := asn1_encode_octet_string SCRATCH_SIZE work
                      (skipn (Z.to_nat priv_len) src) pub_len in
        let work := asn1_encode_octet_string SCRATCH_SIZE work
                      src priv_len in
        inr work
  | inr work => inr work
  end.

(** [src] is the object the pointer [src] points into, from that pointer
    on.  The scratch buffer is private to the call: its content is the
    [written] part of [work]; [work - scratch] has no meaning when [work]
    is an error pointer. *)
Definition tpm2_key_encode (src : list Z) (len : Z) : M Z :=
  let! scratch := kmalloc SCRATCH_SIZE in
  let! src0 := must (get_unaligned_be16 src 0) in
  let priv_len := u16 (src0 + 2) in
  let! src1 := must (get_unaligned_be16 src priv_len) in
  let pub_len := u16 (src1 + 2) in
  match scratch with
  | None => ret (- ENOMEM)
  | Some sid =>
      let err (e : Z) : M Z := run kfree sid then ret e in
      let! w := get in
      match encode_scratch (options w) src priv_len pub_len with
      | inl e => err e
      | inr BadRead => crash OutOfBoundsRead
      | inr (ErrPtr _) => crash BadPointer
      | inr (Ptr seq) =>
          let '(work1, stored) :=
            asn1_encode_sequence MAX_BLOB_SIZE seq
                                 (Z.of_nat (length seq)) in
          run modify (fun w => set_payload
                    (set_blob (memcpy (blob (payload w)) 0 stored)
                              (payload w)) w) then
          match work1 with
          | Ptr out => run kfree sid then ret (Z.of_nat (length out))
          | ErrPtr e => err e
          | BadRead => crash OutOfBoundsRead
          end
      end
  end.

(** *** tpm2_key_decode

    The result is the status and the buffer stored through [buf], if any. *)
Definition tpm2_key_decode : M (Z * option nat) :=
  let! w := get in
  let! dec := must (asn1_ber_decoder ctx_zero (blob (payload w))
                                     (blob_len (payload w))) in
  let '(rc, ctx) := dec in
  if rc <? 0 then ret (rc, None)
  else if u32 (priv_len ctx + pub_len ctx) >? MAX_BLOB_SIZE
  then ret (- EINVAL, None)
  else
    let! blob := kmalloc (u32 (priv_len ctx + pub_len ctx + 4)) in
    match blob with
    | None => ret (- ENOMEM, None)
    | Some id =>
        run modify (fun w => set_options
                      (set_keyhandle (parent ctx) (options w)) w) then
        let! src_priv := must (slice (priv ctx) 0 (priv_len ctx)) in
        let! src_pub := must (slice (pub ctx) 0 (pub_len ctx)) in
        run modify (fun w =>
              match heap w !! id with
              | Some obj =>
                  set_heap (<[id := memcpy (memcpy obj 0 src_priv)
                                      (Z.to_nat (priv_len ctx)) src_pub]>
                              (heap w)) w
              | None => w
              end) then
        ret (0, Some id)
    end.

(** *** Calls into the TPM core *)

Definition tpm_try_get_ops : M Z := fun w =>
  Done (k_try_get_ops K (trace w)) (log EvTryGetOps w).
Definition tpm_put_ops : M unit := modify (log EvPutOps).
Definition tpm2_start_auth_session : M Z := fun w =>
  Done (k_start_auth_session K (trace w)) (log EvStartAuthSession w).
Definition tpm2_end_auth_session : M unit := modify (log EvEndAuthSession).
Definition tpm2_flush_context (handle : Z) : M unit :=
  modify (log (EvFlushContext handle)).

(** the status on failure, the buffer on success *)
Definition tpm_buf_init (tag ordinal : Z) : M (Z + tpm_buf) := fun w =>
  Done match k_get_free_page K (trace w) with
       | None => inl (- ENOMEM)
       | Some pg => inr (tpm_buf_reset (mk_buf 0 0 pg) tag ordinal)
       end (log (EvBufInit ordinal) w).
Definition tpm_buf_init_sized : M (Z + tpm_buf) := fun w =>
  Done match k_get_free_page K (trace w) with
       | None => inl (- ENOMEM)
       | Some pg => inr (tpm_buf_reset_sized (mk_buf 0 0 pg))
       end (log EvBufInitSized w).
Definition tpm_buf_destroy : M unit := modify (log EvBufDestroy).

Definition tpm_buf_append_name (buf : tpm_buf) (handle : Z) : M tpm_buf :=
  fun w => Done (k_append_name K (trace w) buf handle)
                (log (EvAppendName handle) w).
Definition tpm_buf_append_hmac_session (buf : tpm_buf) (attributes : Z)
           (passphrase : list Z) (passphrase_len : Z) : M tpm_buf :=
  fun w => Done (k_append_hmac_session K (trace w) buf attributes
                                       passphrase passphrase_len)
                (log (EvAppendHmacSession attributes) w).
Definition tpm_buf_append_hmac_session_opt (buf : tpm_buf) (attributes : Z)
           (passphrase : list Z) (passphrase_len : Z) : M tpm_buf :=
  fun w => Done (k_append_hmac_session_opt K (trace w) buf attributes
                                           passphrase passphrase_len)
                (log (EvAppendHmacSession attributes) w).
Definition tpm_buf_fill_hmac_session (buf : tpm_buf) : M tpm_buf :=
  fun w => Done (k_fill_hmac_session K (trace w) buf)
                (log EvFillHmacSession w).
Definition tpm_transmit_cmd (buf : tpm_buf) (min_rsp_body_length : Z)
  : M (Z * tpm_buf) :=
  fun w => Done (k_transmit_cmd K (trace w) buf min_rsp_body_length)
                (log (EvTransmit
                        (page_read (b_data buf) 0 (Z.to_nat (b_length buf))))
                     w).
Definition tpm_buf_check_hmac_response (buf : tpm_buf) (rc : Z)
  : M (Z * tpm_buf) :=
  fun w => Done (k_check_hmac_response K (trace w) buf rc)
                (log EvCheckHmacResponse w).
Definition tpm2_rc_value (rc : Z) : Z := k_rc_value K rc.

(** *** tpm2_seal_trusted *)

(** label out_put *)
Definition seal_out_put (rc : Z) : M Z :=
  run tpm_put_ops then ret rc.

(** label out *)
Definition seal_out (rc blob_len : Z) : M Z :=
  run tpm_buf_destroy then
  run tpm_buf_destroy then
  let rc := if rc >? 0
            then if tpm2_rc_value rc =? TPM2_RC_HASH
                 then - EINVAL else - EPERM
            else rc in
  if blob_len <? 0 then seal_out_put blob_len
  else
    run modify (fun w => set_payload (set_blob_len blob_len (payload w)) w) then
    seal_out_put rc.

(** the two command areas, from the append of the parent name to the
    creation PCR; [None] is a copy from outside of an option or payload
    array *)
Definition seal_build (buf sized : tpm_buf) (hash : Z) : M tpm_buf :=
  let! w := get in
  let o := options w in
  let p := payload w in
  let! buf := tpm_buf_append_name buf (keyhandle o) in
  let! buf := tpm_buf_append_hmac_session buf TPM2_SA_DECRYPT (keyauth o)
                                          TPM_DIGEST_SIZE in
  (* sensitive *)
  let sized := tpm_buf_append_u16 sized (blobauth_len o) in
  let! sized := if blobauth_len o =? 0 then ret sized
                else must (tpm_buf_append sized (blobauth o)
                                          (blobauth_len o)) in
  let sized := tpm_buf_append_u16 sized (key_len p) in
  let! sized := must (tpm_buf_append sized (key p) (key_len p)) in
  let buf := append_bytes buf
               (page_read (b_data sized) 0 (Z.to_nat (u16 (b_length sized)))) in
  (* public *)
  let sized := tpm_buf_reset_sized sized in
  let sized := tpm_buf_append_u16 sized TPM_ALG_KEYEDHASH in
  let sized := tpm_buf_append_u16 sized hash in
  (* key properties *)
  let flags := 0 in
  let flags := Z.lor flags (if policydigest_len o =? 0
                            then TPM2_OA_USER_WITH_AUTH else 0) in
  let flags := Z.lor flags (if migratable p =? 0
                            then Z.lor TPM2_OA_FIXED_TPM TPM2_OA_FIXED_PARENT
                            else 0) in
  let sized := tpm_buf_append_u32 sized flags in
  (* policy *)
  let sized := tpm_buf_append_u16 sized (policydigest_len o) in
  let! sized := if policydigest_len o =? 0 then ret sized
                else must (tpm_buf_append sized (policydigest o)
                                          (policydigest_len o)) in
  (* public parameters *)
  let sized := tpm_buf_append_u16 sized TPM_ALG_NULL in
  let sized := tpm_buf_append_u16 sized 0 in
  let buf := append_bytes buf
               (page_read (b_data sized) 0 (Z.to_nat (u16 (b_length sized)))) in
  (* outside info *)
  let buf := tpm_buf_append_u16 buf 0 in
  (* creation PCR *)
  let buf := tpm_buf_append_u32 buf 0 in
  ret buf.

(** lines 269-336: the session, the two buffers, the command and the
    exchange.  [inl rc] is a jump to out_put; [inr] carries [rc] and the
    command buffer, after the exchange or at the jump to out on
    overflow. *)
Definition seal_exchange (hash : Z) : M (Z + Z * tpm_buf) :=
  let! rc := tpm2_start_auth_session in
  if negb (rc =? 0) then ret (inl rc)
  else
    let! b := tpm_buf_init TPM2_ST_SESSIONS TPM2_CC_CREATE in
    match b with
    | inl rc => run tpm2_end_auth_session then ret (inl rc)
    | inr buf =>
        let! s := tpm_buf_init_sized in
        match s with
        | inl rc =>
            run tpm_buf_destroy then
            run tpm2_end_auth_session then
            ret (inl rc)
        | inr sized =>
            let! buf := seal_build buf sized hash in
            if flag_set (b_flags buf) TPM_BUF_OVERFLOW
            then run tpm2_end_auth_session then ret (inr (- E2BIG, buf))
            else
              let! buf := tpm_buf_fill_hmac_session buf in
              let! t := tpm_transmit_cmd buf 4 in
              let! c := tpm_buf_check_hmac_response (snd t) (fst t) in
              ret (inr (int32 (fst c), snd c))
        end
    end.

Definition tpm2_seal_trusted : M Z :=
  let offset := TPM_HEADER_SIZE in
  let blob_len := 0 in
  let! w := get in
  match hash_lookup tpm2_hash_map (hash (options w)) with
  | None => ret (- EINVAL)
  | Some hash =>
      if keyhandle (options w) =? 0 then ret (- EINVAL)
      else
        let! rc := tpm_try_get_ops in
        if negb (rc =? 0) then ret rc
        else
          let! x := seal_exchange hash in
          match x with
          | inl rc => seal_out_put rc
          | inr (rc, buf) =>
              if negb (rc =? 0) then seal_out rc blob_len
              else
                let '(v, buf, offset) := tpm_buf_read_u32 buf offset in
                let blob_len := int32 v in
                if (blob_len >? MAX_BLOB_SIZE)
                   || flag_set (b_flags buf) TPM_BUF_BOUNDARY_ERROR
                then seal_out (- E2BIG) blob_len
                else if b_length buf - offset <? blob_len
                then seal_out (- EFAULT) blob_len
                else
                  let! blob_len :=
                    tpm2_key_encode
                      (page_read (b_data buf) offset
                                 (Z.to_nat (PAGE_SIZE - offset)))
                      (u32 blob_len) in
                  seal_out rc blob_len
          end
  end.

(** *** tpm2_load_cmd *)

Definition blob_bytes (ref : blobref) (w : world) : option (list Z) :=
  match ref with
  | InPayload => Some (blob (payload w))
  | InHeap id => heap w !! id
  end.

(** lines 398-403: the structured decode, or the fall back to the old
    form; the result is where [blob] points *)
Definition load_decode : M blobref :=
  let! d := tpm2_key_decode in
  match d with
  | (0, Some id) => ret (InHeap id)
  | (0, None) => crash BadPointer
  | (_, _) =>
      (* old form *)
      run modify (fun w => set_payload (set_old_format 1 (payload w)) w) then
      ret InPayload
  end.

(** lines 405-421: the checks on the handle and on the two declared
    lengths.  [inl rc] is an early return; [inr] carries [blob],
    [private_len] and [public_len]. *)
Definition load_checks (blob : blobref) : M (Z + blobref * Z * Z) :=
  let! w := get in
  (* new format carries keyhandle but old format doesn't *)
  if keyhandle (options w) =? 0 then ret (inl (- EINVAL))
  (* must be big enough for at least the two be16 size counts *)
  else if blob_len (payload w) <? 4 then ret (inl (- EINVAL))
  else
    let! mem := must (blob_bytes blob w) in
    let! private_len := must (get_unaligned_be16 mem 0) in
    (* must be big enough for following public_len *)
    if u32 (private_len + 2 + 2) >? blob_len (payload w)
    then ret (inl (- E2BIG))
    else
      let! public_len := must (get_unaligned_be16 mem (2 + private_len)) in
      if u32 (private_len + 2 + public_len + 2) >? blob_len (payload w)
      then ret (inl (- E2BIG))
      else ret (inr (blob, private_len, public_len)).

(** lines 398-421 *)
Definition load_validate : M (Z + blobref * Z * Z) :=
  let! blob := load_decode in
  load_checks blob.

(** lines 427-431 *)
Definition migratable_of_attrs (attrs : Z) : Z :=
  if Z.land attrs (Z.lor TPM2_OA_FIXED_TPM TPM2_OA_FIXED_PARENT)
     =? Z.lor TPM2_OA_FIXED_TPM TPM2_OA_FIXED_PARENT
  then 0 else 1.

(** label out *)
Definition load_out (blob : blobref) (rc : Z) (blob_handle : option Z)
  : M (Z * option Z) :=
  run match blob with
      | InHeap id => kfree id
      | InPayload => ret tt
      end then
  run tpm_buf_destroy then
  ret (if rc >? 0 then - EPERM else rc, blob_handle).

(** lines 437-464: the session, the command and the exchange *)
Definition load_exchange (blob : blobref) (blob_len : Z)
  : M (Z * option Z) :=
  let! rc := tpm2_start_auth_session in
  if negb (rc =? 0) then ret (rc, None)
  else
    let! b := tpm_buf_init TPM2_ST_SESSIONS TPM2_CC_LOAD in
    match b with
    | inl rc => run tpm2_end_auth_session then ret (rc, None)
    | inr buf =>
        let! w := get in
        let! buf := tpm_buf_append_name buf (keyhandle (options w)) in
        let! buf := tpm_buf_append_hmac_session buf 0 (keyauth (options w))
                                                TPM_DIGEST_SIZE in
        let! mem := must (blob_bytes blob w) in
        let! buf := must (tpm_buf_append buf mem blob_len) in
        if flag_set (b_flags buf) TPM_BUF_OVERFLOW
        then run tpm2_end_auth_session then load_out blob (- E2BIG) None
        else
          let! buf := tpm_buf_fill_hmac_session buf in
          let! t := tpm_transmit_cmd buf 4 in
          let! c := tpm_buf_check_hmac_response (snd t) (fst t) in
          let rc := int32 (fst c) in
          load_out blob rc
                   (if rc =? 0
                    then Some (page_be32 (b_data (snd c)) TPM_HEADER_SIZE)
                    else None)
    end.

(** the status and the handle stored through [blob_handle], if any *)
Definition tpm2_load_cmd : M (Z * option Z) :=
  let! v := load_validate in
  match v with
  | inl rc => ret (rc, None)
  | inr (blob, private_len, public_len) =>
      let! w := get in
      let! mem := must (blob_bytes blob w) in
      let pub := 2 + private_len + 2 in
      (* key attributes are always at offset 4 *)
      let! attrs := must (get_unaligned_be32 mem (pub + 4)) in
      run modify (fun w => set_payload
                    (set_migratable (migratable_of_attrs attrs) (payload w))
                    w) then
      let payload_blob_len := blob_len (payload w) in
      let blob_len := u32 (private_len + public_len + 4) in
      if blob_len >? payload_blob_len then ret (- E2BIG, None)
      else load_exchange blob blob_len
  end.

(** *** tpm2_unseal_cmd *)

(** lines 499-538: the session, the command and the exchange.  [inl rc]
    is an early return; [inr] carries [rc] and the buffer that holds the
    response. *)
Definition unseal_exchange (blob_handle : Z) : M (Z + Z * tpm_buf) :=
  let! rc := tpm2_start_auth_session in
  if negb (rc =? 0) then ret (inl rc)
  else
    let! b := tpm_buf_init TPM2_ST_SESSIONS TPM2_CC_UNSEAL in
    match b with
    | inl rc => run tpm2_end_auth_session then ret (inl rc)
    | inr buf =>
        let! buf := tpm_buf_append_name buf blob_handle in
        let! w := get in
        let o := options w in
        let! buf :=
          if policyhandle o =? 0
          then tpm_buf_append_hmac_session buf TPM2_SA_ENCRYPT (blobauth o)
                                           (blobauth_len o)
          else
            let! buf := must (tpm2_buf_append_auth buf (policyhandle o)
                                None 0 0 (Some (blobauth o))
                                (blobauth_len o)) in
            tpm_buf_append_hmac_session_opt buf TPM2_SA_ENCRYPT [] 0 in
        let! buf := tpm_buf_fill_hmac_session buf in
        let! t := tpm_transmit_cmd buf 6 in
        let! c := tpm_buf_check_hmac_response (snd t) (fst t) in
        let rc := int32 (fst c) in
        ret (inr (if rc >? 0 then - EPERM else rc, snd c))
    end.

(** the length field of the response, at TPM_HEADER_SIZE + 4 *)
Definition unseal_data_len (buf : tpm_buf) : Z :=
  u16 (page_be16 (b_data buf) (TPM_HEADER_SIZE + 4)).

(** lines 540-567: the status, and the payload written on success *)
Definition unseal_extract (rc : Z) (buf : tpm_buf) : M Z :=
  if rc =? 0 then
    let data_len := unseal_data_len buf in
    if (data_len <? MIN_KEY_SIZE) || (data_len >? MAX_KEY_SIZE)
    then ret (- EFAULT)
    else if tpm_buf_length buf <? TPM_HEADER_SIZE + 6 + data_len
    then ret (- EFAULT)
    else
      let data (n : Z) := page_read (b_data buf) (TPM_HEADER_SIZE + 6)
                                    (Z.to_nat n) in
      let! w := get in
      if negb (old_format (payload w) =? 0) then
        (* migratable flag is at the end of the key *)
        run modify (fun w => set_payload
              (set_migratable
                 (b_data buf (TPM_HEADER_SIZE + 6 + (data_len - 1)))
                 (set_key (memcpy (key (payload w)) 0 (data (data_len - 1)))
                          (data_len - 1) (payload w))) w) then
        ret rc
      else
        (* migratable flag already collected from key attributes *)
        run modify (fun w => set_payload
              (set_key (memcpy (key (payload w)) 0 (data data_len))
                       data_len (payload w)) w) then
        ret rc
  else ret rc.

Definition tpm2_unseal_cmd (blob_handle : Z) : M Z :=
  let! x := unseal_exchange blob_handle in
  match x with
  | inl rc => ret rc
  | inr (rc, buf) =>
      let! rc := unseal_extract rc buf in
      (* label out *)
      run tpm_buf_destroy then
      ret rc
  end.

(** *** tpm2_unseal_trusted *)

Definition tpm2_unseal_trusted : M Z :=
  let! rc := tpm_try_get_ops in
  if negb (rc =? 0) then ret rc
  else
    let! l := tpm2_load_cmd in
    let! rc :=
      match l with
      | (0, Some blob_handle) =>
          let! rc := tpm2_unseal_cmd blob_handle in
          run tpm2_flush_context blob_handle then
          ret rc
      | (0, None) => crash BadPointer
      | (rc, _) => ret rc
      end in
    (* label out *)
    run tpm_put_ops then
    ret rc.

End Core.

(** * Vocabulary of the statements *)

Definition be_acc (v : list Z) (acc : Z) : Z :=
  fold_left (fun a b => a * 256 + b) v acc.

(** the big-endian value of a byte string *)
Definition be_value (v : list Z) : Z := be_acc v 0.


(** ** What a call leaves alone *)

(** [m] keeps the relation [R] between the state it starts from and the
    state it ends in, whether it returns or faults *)
Definition preserves (R : world -> world -> Prop) {A} (m : M A) : Prop :=
  forall w, R w (final (m w)).

Definition same_options (w w' : world) : Prop := options w' = options w.
Definition same_payload (w w' : world) : Prop := payload w' = payload w.

(** every member of the options is kept, except perhaps [keyhandle] *)
Definition options_but_keyhandle (w w' : world) : Prop :=
  options w' = set_keyhandle (keyhandle (options w')) (options w).

(** relations that do not look at the trace or at the heap *)
Class Framing (R : world -> world -> Prop) : Prop := {
  fr_refl : forall w, R w w;
  fr_trans : forall a b c, R a b -> R b c -> R a c;
  fr_log : forall e w, R w (log e w);
  fr_heap : forall h w, R w (set_heap h w)
}.

(** relations that do not look at the payload *)
Class IgnoresPayload (R : world -> world -> Prop) : Prop :=
  ignores_payload : forall p w, R w (set_payload p w).

(** relations that do not look at [options->keyhandle] *)
Class IgnoresKeyhandle (R : world -> world -> Prop) : Prop :=
  ignores_keyhandle : forall h w,
    R w (set_options (set_keyhandle h (options w)) w).

(** ** Sample collaborators, options and payloads *)

Module Examples.

Definition page_of (bs : list Z) : Z -> Z := fun i => nth (Z.to_nat i) bs 0.

(** a platform that grants every request; the TPM answers every command
    with status [rc] and a response of [len] bytes held in [resp] *)
Definition platform (rc len : Z) (resp : list Z) : collaborators :=
  mk_collaborators
    (fun _ => 0) (fun _ => 0) (fun _ => Some (fun _ => 0))
    (fun _ _ => Some [])
    (fun _ buf _ => buf) (fun _ buf _ _ _ => buf) (fun _ buf _ _ _ => buf)
    (fun _ buf => buf)
    (fun _ _ _ => (rc, mk_buf 0 len (page_of resp)))
    (fun _ buf rc => (rc, buf))
    (fun rc => if Z.testbit rc 7 then Z.land rc 0xbf else rc).

Definition some_options (keyhandle blobauth_len hash : Z)
  : trusted_key_options :=
  mk_options 0 keyhandle (repeat 0 20) blobauth_len (repeat 0 20)
             0 [] 0 hash 0 (repeat 0 64) 0.

Definition some_payload (blob : list Z) (blob_len old_format : Z)
  : trusted_key_payload :=
  mk_payload 32 blob_len 0 old_format (repeat 0xaa 129)
             (blob ++ repeat 0 (512 - length blob)).

Definition start (p : trusted_key_payload) (o : trusted_key_options)
  : world :=
  mk_world p o ∅ [].

(** an Unseal response: header, parameter size, a secret of 32 bytes of
    which the last is 1 *)
Definition unseal_response : list Z :=
  repeat 0 14 ++ [0; 32] ++ repeat 7 31 ++ [1].

(** an Unseal response whose length field reads 100: a secret of 100
    bytes of which the last is 1 *)
Definition long_unseal_response : list Z :=
  repeat 0 14 ++ [0; 100] ++ repeat 7 99 ++ [1].

End Examples.

(** both FIXED_TPM and FIXED_PARENT are set in [attrs] *)
Definition fixed_tpm_and_parent (attrs : Z) : bool :=
  flag_set attrs TPM2_OA_FIXED_TPM && flag_set attrs TPM2_OA_FIXED_PARENT.

Module LoadExamples.

(** a legacy blob: private area of two bytes, public area of eight bytes
    whose attribute word is [attrs] (one byte), and its length *)
Definition legacy_blob (attrs : Z) : list Z :=
  [0; 2; 0xde; 0xad] ++ [0; 8; 0; 8; 0; 0xb; 0; 0; 0; attrs].

Definition legacy_world (attrs : Z) : world :=
  Examples.start (Examples.some_payload (legacy_blob attrs) 14 0)
                 (Examples.some_options 0x81000001 0 HASH_ALGO_SHA256).

End LoadExamples.

Module DecodeExamples.

(** the private area (2 bytes) and the public area (8 bytes, attribute
    word 0x12) of a sealed object, as the TPM returns them *)
Definition private_area : list Z := [0; 2; 0xde; 0xad].
Definition public_area : list Z := [0; 8; 0; 8; 0; 0xb; 0; 0; 0; 0x12].

(** the structured blob of these areas under parent 0x81000001, with
    the emptyAuth tag *)
Definition blob40 : list Z :=
  [0x30; 38;
   0x06; 6; 0x67; 0x81; 0x05; 0x0a; 0x01; 0x05;
   0xa0; 3; 0x01; 1; 1;
   0x02; 5; 0; 0x81; 0; 0; 1;
   0x04; 10; 0; 8; 0; 8; 0; 0xb; 0; 0; 0; 0x12;
   0x04; 4; 0; 2; 0xde; 0xad].

(** the same blob with parent handle 0 *)
Definition blob36 : list Z :=
  [0x30; 34;
   0x06; 6; 0x67; 0x81; 0x05; 0x0a; 0x01; 0x05;
   0xa0; 3; 0x01; 1; 1;
   0x02; 1; 0;
   0x04; 10; 0; 8; 0; 8; 0; 0xb; 0; 0; 0; 0x12;
   0x04; 4; 0; 2; 0xde; 0xad].

(** a structured blob whose private string is the two bytes 00 08 (a
    declared length of 8 with no content) and whose public string is
    empty *)
Definition blob23 : list Z :=
  [0x30; 21;
   0x06; 6; 0x67; 0x81; 0x05; 0x0a; 0x01; 0x05;
   0x02; 5; 0; 0x81; 0; 0; 1;
   0x04; 0;
   0x04; 2; 0; 8].

(** the caller has not set a parent handle *)
Definition world40 : world :=
  Examples.start (Examples.some_payload blob40 40 0)
                 (Examples.some_options 0 0 HASH_ALGO_SHA256).

Definition world36 : world :=
  Examples.start (Examples.some_payload blob36 36 0)
                 (Examples.some_options 0x81000001 0 HASH_ALGO_SHA256).

Definition world23 : world :=
  Examples.start (Examples.some_payload blob23 23 0)
                 (Examples.some_options 0 0 HASH_ALGO_SHA256).

(** a platform on which tpm2_start_auth_session fails *)
Definition no_session (K : collaborators) : collaborators :=
  mk_collaborators
    (k_try_get_ops K) (fun _ => - ENOMEM) (k_get_free_page K) (k_kmalloc K)
    (k_append_name K) (k_append_hmac_session K)
    (k_append_hmac_session_opt K) (k_fill_hmac_session K)
    (k_transmit_cmd K) (k_check_hmac_response K) (k_rc_value K).

End DecodeExamples.

(** ** The key blob on the wire *)

(** a sized area as the TPM returns it: the length of the content in two
    bytes, big-endian, then the content *)
Definition tpm2b (content : list Z) : list Z :=
  be16_bytes (Z.of_nat (length content)) ++ content.

(** the state in which a blob written by the encoder is decoded: the
    caller has stored the returned length in [blob_len], and its options
    carry the handle [h0] *)
Definition reload (n h0 : Z) (w1 : world) : world :=
  set_options (set_keyhandle h0 (options w1))
              (set_payload (set_blob_len n (payload w1)) w1).

(** [lb] is a definite-length header for [n]: the decoder reads [n] from
    it, whatever follows *)
Definition der_header_of (lb : list Z) (n : Z) : Prop :=
  forall r, der_length (lb ++ r) = Some (n, r).

Definition oid_tlv : list Z := [0x06; 6; 0x67; 0x81; 0x05; 0x0a; 0x01; 0x05].
Definition empty_auth_tlv : list Z := [0xa0; 3; 0x01; 1; 1].

(** [enc] is SEQUENCE { OID; [0] BOOLEAN when [ea]; INTEGER of value [kh];
    OCTET STRING [pubkey]; OCTET STRING [privkey] } *)
Definition is_tpm2key (kh : Z) (ea : bool) (pubkey privkey enc : list Z)
  : Prop :=
  exists d lb1 lb2 lb body,
    enc = 0x30 :: lb ++ body /\
    body = oid_tlv ++ (if ea then empty_auth_tlv else [])
           ++ [0x02; Z.of_nat (length d)] ++ d
           ++ 0x04 :: lb1 ++ pubkey
           ++ 0x04 :: lb2 ++ privkey /\
    der_header_of lb (Z.of_nat (length body)) /\
    der_header_of lb1 (Z.of_nat (length pubkey)) /\
    der_header_of lb2 (Z.of_nat (length privkey)) /\
    (1 <= length d <= 5)%nat /\
    parent_loop d 0 = kh.

(** the [i] low bytes of [I], most significant first, as the loop of
    asn1_encode_integer stores them once it has found the first byte *)
Fixpoint low_bytes (i : nat) (I : Z) : list Z :=
  match i with
  | O => []
  | S i' => u8 (int32 (Z.shiftr I (8 * Z.of_nat i'))) :: low_bytes i' I
  end.

Module RoundtripExamples.

(** a private area and a public area of 256 bytes each: 512 bytes of
    content, MAX_BLOB_SIZE *)
Definition full_src : list Z :=
  tpm2b (repeat 0xaa 254) ++ tpm2b (repeat 0xbb 254).

(** the two areas of [DecodeExamples], followed by stale bytes of the
    response page *)
Definition small_src : list Z :=
  tpm2b [0xde; 0xad] ++ tpm2b [0; 8; 0; 0xb; 0; 0; 0; 0x12] ++ [0xff; 0xff].

Definition sealing_world : world :=
  Examples.start (Examples.some_payload [] 0 0)
                 (Examples.some_options 0x81000001 0 HASH_ALGO_SHA256).

End RoundtripExamples.

(** * Vocabulary of the further properties *)

(** ** What a call emits *)

(** the events of [w'] are those of [w] followed by events that all
    satisfy [P] *)
Definition emits (P : event -> bool) (w w' : world) : Prop :=
  exists evs, trace w' = trace w ++ evs /\ forallb P evs = true.

Definition is_alloc_event (e : event) : bool :=
  match e with
  | EvKmalloc _ | EvKfree _ => true
  | _ => false
  end.

(** the calls that work on the command under construction or exchange
    it: each takes the chip and the buffer, and runs inside the session *)
Definition is_command_step (e : event) : bool :=
  match e with
  | EvAppendName _ | EvAppendHmacSession _ | EvFillHmacSession
  | EvTransmit _ | EvCheckHmacResponse => true
  | _ => false
  end.

(** the calls that add an area to the command *)
Definition is_append_step (e : event) : bool :=
  match e with
  | EvAppendName _ | EvAppendHmacSession _ => true
  | _ => false
  end.

(** ** Resources taken and given back *)

(** A resource is described by the calls that grant it, given the events
    before the call (the answer of the platform depends on them), the
    calls that give it back, and the calls that need it held. *)
Record resource := mk_resource {
  granted : list event -> event -> bool;
  released : event -> bool;
  uses : event -> bool
}.

(** one call against the number of units held: a call that needs the
    resource finds one held, a release gives back one that is held *)
Definition ledger_step (R : resource) (pre : list event) (e : event)
           (held : nat) : option nat :=
  if uses R e && Nat.eqb held 0 then None
  else if released R e
       then match held with O => None | S h => Some h end
       else Some (if granted R pre e then S held else held).

(** the units held after the events [evs], which follow [pre]; [None]
    when a call was made without the resource or released what was not
    held *)
Fixpoint ledger (R : resource) (pre evs : list event) (held : nat)
  : option nat :=
  match evs with
  | [] => Some held
  | e :: evs' =>
      match ledger_step R pre e held with
      | Some h => ledger R (pre ++ [e]) evs' h
      | None => None
      end
  end.

(** the chip: taken by a tpm_try_get_ops that returns 0, given back by
    tpm_put_ops, needed by every call that takes the chip *)
Definition chip_ops (K : collaborators) : resource :=
  mk_resource
    (fun pre e => match e with
                  | EvTryGetOps => k_try_get_ops K pre =? 0
                  | _ => false
                  end)
    (fun e => match e with EvPutOps => true | _ => false end)
    (fun e => match e with
              | EvStartAuthSession | EvEndAuthSession | EvFlushContext _ =>
                  true
              | _ => is_command_step e
              end).

(** the authorisation session: opened by a tpm2_start_auth_session that
    returns 0; the file is done with it after tpm2_end_auth_session, or
    after tpm_buf_check_hmac_response on the exchanged command *)
Definition auth_session (K : collaborators) : resource :=
  mk_resource
    (fun pre e => match e with
                  | EvStartAuthSession => k_start_auth_session K pre =? 0
                  | _ => false
                  end)
    (fun e => match e with
              | EvEndAuthSession | EvCheckHmacResponse => true
              | _ => false
              end)
    is_command_step.

(** the pages of the command buffers: obtained by a tpm_buf_init or
    tpm_buf_init_sized that finds a page, given back by tpm_buf_destroy *)
Definition command_buffers (K : collaborators) : resource :=
  mk_resource
    (fun pre e => match e with
                  | EvBufInit _ | EvBufInitSized =>
                      match k_get_free_page K pre with
                      | Some _ => true
                      | None => false
                      end
                  | _ => false
                  end)
    (fun e => match e with EvBufDestroy => true | _ => false end)
    is_command_step.

(** the three resources followed below *)
Definition tracked (K : collaborators) (R : resource) : Prop :=
  R = chip_ops K \/ R = auth_session K \/ R = command_buffers K.

(** the run from [w] to [w'] takes the ledger of [R] from [h] to [h'] *)
Definition ledger_run (R : resource) (h h' : nat) (w w' : world) : Prop :=
  exists evs, trace w' = trace w ++ evs /\ ledger R (trace w) evs h = Some h'.

(** every returning run of [m] from [h] units held ends with [Q a] units
    held, [a] being the result *)
Definition keeps {A} (R : resource) (h : nat) (m : M A) (Q : A -> nat)
  : Prop :=
  forall w a w', m w = Done a w' -> ledger_run R h (Q a) w w'.

(** an event that leaves the ledger as it is when a unit is held, and one
    that leaves it as it is in any case *)
Definition steady (R : resource) (e : event) : Prop :=
  released R e = false /\ forall pre, granted R pre e = false.
Definition neutral (R : resource) (e : event) : Prop :=
  uses R e = false /\ steady R e.

(** ** The bytes of a key blob *)

(** the definite length of DER: one byte up to 127, else 0x81 and one
    byte, else 0x82 and two bytes, most significant first *)
Definition der_len (n : Z) : list Z :=
  if n <=? 0x7f then [n]
  else if n <=? 0xff then [0x81; n]
  else [0x82; n / 0x100; n mod 0x100].

(** the content of a DER INTEGER for a 32-bit value: its big-endian bytes
    in two's complement, as few as the value needs; a value whose first
    byte would have the top bit set gets a zero byte in front *)
Definition der_u32 (v : Z) : list Z :=
  if v <? 0x80 then [v]
  else if v <? 0x8000 then [v / 0x100; v mod 0x100]
  else if v <? 0x800000
  then [v / 0x10000; v / 0x100 mod 0x100; v mod 0x100]
  else if v <? 0x80000000
  then [v / 0x1000000; v / 0x10000 mod 0x100; v / 0x100 mod 0x100;
        v mod 0x100]
  else [0; v / 0x1000000; v / 0x10000 mod 0x100; v / 0x100 mod 0x100;
        v mod 0x100].

(** tag, length, content *)
Definition der_element (tag : Z) (content : list Z) : list Z :=
  tag :: der_len (Z.of_nat (length content)) ++ content.

(** SEQUENCE { OID 2.23.133.10.1.5; [0] { BOOLEAN, value byte 1 } when
    [ea]; INTEGER [kh]; OCTET STRING [pubkey]; OCTET STRING [privkey] },
    byte for byte *)
Definition tpm2key_der (kh : Z) (ea : bool) (pubkey privkey : list Z)
  : list Z :=
  der_element 0x30
    (oid_tlv
     ++ (if ea then empty_auth_tlv else [])
     ++ der_element 0x02 (der_u32 kh)
     ++ der_element 0x04 pubkey
     ++ der_element 0x04 privkey).

(** ** The views of a key context *)

(** the two views are consistent: each length is the length of its view,
    and a view is no longer than the largest blob the decoder takes *)
Definition ctx_views (ctx : tpm2_key_context) : Prop :=
  pub_len ctx = Z.of_nat (length (pub ctx)) /\
  priv_len ctx = Z.of_nat (length (priv ctx)) /\
  Z.of_nat (length (pub ctx)) <= 65535 /\
  Z.of_nat (length (priv ctx)) <= 65535.

(** ** What an append leaves in a command buffer *)

(** [buf'] is the command buffer [buf] with the bytes [bs] added at its
    end: the flags are kept, and so is every byte after the length field
    of the header *)
Definition appended (buf buf' : tpm_buf) (bs : list Z) : Prop :=
  b_flags buf' = b_flags buf /\
  b_length buf' = b_length buf + Z.of_nat (length bs) /\
  page_read (b_data buf') (b_length buf) (length bs) = bs /\
  forall i, 6 <= i < b_length buf -> b_data buf' i = b_data buf i.

(** the bytes tpm2_buf_append_auth takes from an area that may be NULL *)
Definition area_bytes (area : option (list Z)) (len : Z) : list Z :=
  match area with
  | Some bs => firstn (Z.to_nat len) bs
  | None => []
  end.

(** ** Sample blobs and responses *)

Module LegacyExamples.

(** a blob in the old format that fills [payload->blob]: a private area
    of 504 bytes and an empty public area *)
Definition full_blob : list Z := [0x01; 0xf8] ++ repeat 0 510.

Definition full_world : world :=
  Examples.start (Examples.some_payload full_blob 512 0)
                 (Examples.some_options 0x81000001 0 HASH_ALGO_SHA256).

End LegacyExamples.

Module SealExamples.

(** a Create response: header, parameter size 14, then the private area
    and the public area of [DecodeExamples] *)
Definition create_response : list Z :=
  repeat 0 10 ++ [0; 0; 0; 14] ++ RoundtripExamples.small_src.


End SealExamples.

(** * Properties *)

(** ** Arithmetic of bytes and big-endian values *)

Lemma land_shiftl8_byte (k b : Z) :
  is_byte b -> Z.land (Z.shiftl k 8) b = 0.
Proof.
  intros [Hb0 Hb1].
  apply Z.bits_inj'; intros n Hn.
  rewrite Z.land_spec, Z.bits_0.
  destruct (Z.lt_ge_cases n 8) as [Hlt | Hge].
  - rewrite Z.shiftl_spec_low by lia. reflexivity.
  - destruct (Z.eq_dec b 0) as [-> | Hnz].
    + rewrite Z.bits_0. apply andb_false_r.
    + rewrite (Z.bits_above_log2 b n); [apply andb_false_r | lia |].
      assert (Z.log2 b < 8); [| lia].
      apply Z.log2_lt_pow2; lia.
Qed.

Lemma lor_shiftl8_byte (k b : Z) :
  is_byte b -> Z.lor (Z.shiftl k 8) b = k * 256 + b.
Proof.
  intros Hb.
  rewrite <- Z.lxor_lor by (apply land_shiftl8_byte; exact Hb).
  rewrite <- Z.add_nocarry_lxor by (apply land_shiftl8_byte; exact Hb).
  rewrite Z.shiftl_mul_pow2 by lia. reflexivity.
Qed.

Lemma lor_mul256_byte (m b : Z) :
  is_byte b -> m mod 256 = 0 -> Z.lor m b = m + b.
Proof.
  intros Hb Hm.
  assert (m = Z.shiftl (m / 256) 8) as ->.
  { rewrite Z.shiftl_mul_pow2 by lia.
    change (2 ^ 8) with 256. pose proof (Z.div_mod m 256). lia. }
  rewrite lor_shiftl8_byte by exact Hb.
  rewrite Z.shiftl_mul_pow2 by lia. reflexivity.
Qed.

Lemma be_acc_app (u v : list Z) (acc : Z) :
  be_acc (u ++ v) acc = be_acc v (be_acc u acc).
Proof. unfold be_acc. apply fold_left_app. Qed.

Lemma be_acc_shift (v : list Z) (acc : Z) :
  be_acc v acc = acc * 256 ^ Z.of_nat (length v) + be_acc v 0.
Proof.
  revert acc. induction v as [| b v IH]; intros acc.
  - simpl. lia.
  - cbn [be_acc fold_left length]. fold (be_acc v (acc * 256 + b)).
    fold (be_acc v (0 * 256 + b)).
    rewrite (IH (acc * 256 + b)), (IH (0 * 256 + b)).
    rewrite Nat2Z.inj_succ, Z.pow_succ_r by lia. lia.
Qed.

Lemma parent_loop_be_acc (v : list Z) (p : Z) :
  Forall is_byte v -> is_u32 p ->
  parent_loop v p = be_acc v p mod 2 ^ 32.
Proof.
  intros Hv. revert p. induction Hv as [| b v Hb Hv IH]; intros p Hp.
  - simpl. unfold is_u32 in Hp. rewrite Z.mod_small; lia.
  - cbn [parent_loop be_acc fold_left]. fold (be_acc v (p * 256 + b)).
    assert (Hmul : ((p * 256) mod 2 ^ 32) mod 256 = 0).
    { rewrite Z.mod_mod_divide; [apply Z.mod_mul; lia |].
      exists 16777216. reflexivity. }
    assert (Hstep : Z.lor (u32 (Z.shiftl p 8)) b = (p * 256) mod 2 ^ 32 + b).
    { unfold u32. rewrite Z.shiftl_mul_pow2 by lia. change (2 ^ 8) with 256.
      apply lor_mul256_byte; [exact Hb | exact Hmul]. }
    rewrite Hstep.
    assert (Hrange : is_u32 ((p * 256) mod 2 ^ 32 + b)).
    { unfold is_u32, is_byte in *.
      pose proof (Z.mod_pos_bound (p * 256) (2 ^ 32) ltac:(lia)) as Hm.
      pose proof (Z.div_mod ((p * 256) mod 2 ^ 32) 256 ltac:(lia)) as Hd.
      rewrite Hmul in Hd.
      assert ((p * 256) mod 2 ^ 32 / 256 < 16777216).
      { apply Z.div_lt_upper_bound; lia. }
      lia. }
    rewrite (IH _ Hrange).
    rewrite (be_acc_shift v ((p * 256) mod 2 ^ 32 + b)).
    rewrite (be_acc_shift v (p * 256 + b)).
    rewrite (Z.add_mod (((p * 256) mod 2 ^ 32 + b) * _)) by lia.
    rewrite (Z.mul_mod ((p * 256) mod 2 ^ 32 + b)) by lia.
    rewrite (Z.add_mod ((p * 256) mod 2 ^ 32) b) by lia.
    rewrite Z.mod_mod by lia.
    rewrite <- (Z.add_mod (p * 256) b) by lia.
    rewrite <- Z.mul_mod by lia.
    rewrite <- Z.add_mod by lia. reflexivity.
Qed.

(** C10. The parent callback never fails: it returns 0 for every field,
    and stores the big-endian value of the field reduced modulo 2^32, for a
    field of any number of bytes (a field longer than four bytes keeps its
    low 32 bits); the other members of the context are not touched. *)
Theorem tpm2_key_parent_be_mod
        (ctx : tpm2_key_context) (hdrlen tag : Z) (value : list Z) :
  Forall is_byte value ->
  fst (tpm2_key_parent ctx hdrlen tag value) = 0 /\
  parent (snd (tpm2_key_parent ctx hdrlen tag value))
  = be_value value mod 2 ^ 32 /\
  pub (snd (tpm2_key_parent ctx hdrlen tag value)) = pub ctx /\
  priv (snd (tpm2_key_parent ctx hdrlen tag value)) = priv ctx.
Proof.
  intros Hv. cbn [tpm2_key_parent fst snd parent pub priv].
  repeat split.
  apply parent_loop_be_acc; [exact Hv | unfold is_u32; lia].
Qed.

Lemma tpm2_key_parent_be_mod_witness :
  Forall is_byte [0x01; 0x81; 0x00; 0x00; 0x01] /\
  parent (snd (tpm2_key_parent ctx_zero 2 2 [0x01; 0x81; 0x00; 0x00; 0x01]))
  = 0x81000001.
Proof.
  assert (H : Forall is_byte [0x01; 0x81; 0x00; 0x00; 0x01]).
  { repeat constructor; unfold is_byte; lia. }
  split; [exact H |].
  destruct (tpm2_key_parent_be_mod ctx_zero 2 2 _ H) as (_ & Hp & _).
  rewrite Hp. reflexivity.
Defined.

(** ** Frame rules of the monad and of the calls *)

Create HintDb frame.

#[export] Instance same_options_framing : Framing same_options.
Proof. split; unfold same_options; intros; cbn; congruence. Qed.

#[export] Instance same_options_ignores_payload : IgnoresPayload same_options.
Proof. intros p w. reflexivity. Qed.

#[export] Instance same_payload_framing : Framing same_payload.
Proof. split; unfold same_payload; intros; cbn; congruence. Qed.

#[export] Instance same_payload_ignores_keyhandle :
  IgnoresKeyhandle same_payload.
Proof. intros h w. reflexivity. Qed.

Lemma set_keyhandle_id (o : trusted_key_options) :
  set_keyhandle (keyhandle o) o = o.
Proof. destruct o; reflexivity. Qed.

Lemma set_keyhandle_twice (h h' : Z) (o : trusted_key_options) :
  set_keyhandle h (set_keyhandle h' o) = set_keyhandle h o.
Proof. destruct o; reflexivity. Qed.

#[export] Instance options_but_keyhandle_framing :
  Framing options_but_keyhandle.
Proof.
  split; unfold options_but_keyhandle; intros; cbn;
    try (symmetry; apply set_keyhandle_id).
  rewrite H0 at 1. rewrite H. apply set_keyhandle_twice.
Qed.

#[export] Instance options_but_keyhandle_ignores_payload :
  IgnoresPayload options_but_keyhandle.
Proof.
  intros p w. unfold options_but_keyhandle. cbn.
  symmetry; apply set_keyhandle_id.
Qed.

#[export] Instance options_but_keyhandle_ignores_keyhandle :
  IgnoresKeyhandle options_but_keyhandle.
Proof.
  intros h w. unfold options_but_keyhandle. cbn.
  destruct (options w); reflexivity.
Qed.

Section FrameRules.

Context (K : collaborators) (R : world -> world -> Prop) `{!Framing R}.

Lemma preserves_ret {A} (a : A) : preserves R (ret a).
Proof. intros w. apply fr_refl. Qed.

Lemma preserves_crash {A} (f : fault) : preserves R (@crash A f).
Proof. intros w. apply fr_refl. Qed.

Lemma preserves_get : preserves R get.
Proof. intros w. apply fr_refl. Qed.

Lemma preserves_must {A} (o : option A) : preserves R (must o).
Proof. destruct o; intros w; apply fr_refl. Qed.

Lemma preserves_bind {A B} (m : M A) (k : A -> M B) :
  preserves R m -> (forall a, preserves R (k a)) -> preserves R (bind m k).
Proof.
  intros Hm Hk w. unfold bind. specialize (Hm w).
  destruct (m w) as [a w' | f w']; cbn in *; [| exact Hm].
  eapply fr_trans; [exact Hm | apply Hk].
Qed.

Lemma preserves_modify (f : world -> world) :
  (forall w, R w (f w)) -> preserves R (modify f).
Proof. intros Hf w. apply Hf. Qed.

Lemma preserves_log (e : event) : preserves R (modify (log e)).
Proof. apply preserves_modify. intros w. apply fr_log. Qed.

Lemma fr_log_heap (e : event) (h : gmap nat (list Z)) (w : world) :
  R w (set_heap h (log e w)).
Proof. eapply fr_trans; [apply fr_log | apply fr_heap]. Qed.

Lemma kmalloc_frame (size : Z) : preserves R (kmalloc K size).
Proof.
  intros w. unfold kmalloc.
  destruct (k_kmalloc K (trace w) size); cbn;
    [apply fr_log_heap | apply fr_log].
Qed.

Lemma kfree_frame (id : nat) : preserves R (kfree id).
Proof.
  apply preserves_modify. intros w.
  eapply fr_trans; [apply fr_heap | apply fr_log].
Qed.

Lemma tpm_try_get_ops_frame : preserves R (tpm_try_get_ops K).
Proof. intros w. apply fr_log. Qed.

Lemma tpm2_start_auth_session_frame :
  preserves R (tpm2_start_auth_session K).
Proof. intros w. apply fr_log. Qed.

Lemma tpm_buf_init_frame (tag ordinal : Z) :
  preserves R (tpm_buf_init K tag ordinal).
Proof. intros w. apply fr_log. Qed.

Lemma tpm_buf_init_sized_frame : preserves R (tpm_buf_init_sized K).
Proof. intros w. apply fr_log. Qed.

Lemma tpm_buf_append_name_frame (buf : tpm_buf) (handle : Z) :
  preserves R (tpm_buf_append_name K buf handle).
Proof. intros w. apply fr_log. Qed.

Lemma tpm_buf_append_hmac_session_frame buf attributes passphrase len :
  preserves R (tpm_buf_append_hmac_session K buf attributes passphrase len).
Proof. intros w. apply fr_log. Qed.

Lemma tpm_buf_append_hmac_session_opt_frame buf attributes passphrase len :
  preserves R
    (tpm_buf_append_hmac_session_opt K buf attributes passphrase len).
Proof. intros w. apply fr_log. Qed.

Lemma tpm_buf_fill_hmac_session_frame (buf : tpm_buf) :
  preserves R (tpm_buf_fill_hmac_session K buf).
Proof. intros w. apply fr_log. Qed.

Lemma tpm_transmit_cmd_frame (buf : tpm_buf) (n : Z) :
  preserves R (tpm_transmit_cmd K buf n).
Proof. intros w. apply fr_log. Qed.

Lemma tpm_buf_check_hmac_response_frame (buf : tpm_buf) (rc : Z) :
  preserves R (tpm_buf_check_hmac_response K buf rc).
Proof. intros w. apply fr_log. Qed.

End FrameRules.

#[export] Hint Resolve preserves_ret preserves_crash preserves_get
  preserves_must preserves_log kmalloc_frame kfree_frame
  tpm_try_get_ops_frame tpm2_start_auth_session_frame tpm_buf_init_frame
  tpm_buf_init_sized_frame tpm_buf_append_name_frame
  tpm_buf_append_hmac_session_frame tpm_buf_append_hmac_session_opt_frame
  tpm_buf_fill_hmac_session_frame tpm_transmit_cmd_frame
  tpm_buf_check_hmac_response_frame : frame.

(** walk a monadic body: binds, branches, and the calls known to the
    [frame] database *)
Ltac frame_walk :=
  repeat first
    [ progress cbv zeta
    | solve [eauto with frame typeclass_instances]
    | apply preserves_bind; [typeclasses eauto | | intros ?]
    | match goal with
      | |- preserves _ (if ?b then _ else _) => destruct b
      | |- preserves _ (match ?x with _ => _ end) => destruct x
      end ].

Section FrameCommands.

Context (K : collaborators) (R : world -> world -> Prop) `{!Framing R}.

Lemma load_out_frame blob rc blob_handle :
  preserves R (load_out blob rc blob_handle).
Proof.
  unfold load_out, tpm_buf_destroy. frame_walk.
Qed.

Lemma load_exchange_frame blob blob_len :
  preserves R (load_exchange K blob blob_len).
Proof.
  unfold load_exchange, tpm2_end_auth_session.
  pose proof load_out_frame. frame_walk.
Qed.

Lemma unseal_exchange_frame blob_handle :
  preserves R (unseal_exchange K blob_handle).
Proof.
  unfold unseal_exchange, tpm2_end_auth_session. frame_walk.
Qed.

Lemma seal_build_frame buf sized hash :
  preserves R (seal_build K buf sized hash).
Proof. unfold seal_build. frame_walk. Qed.

Lemma seal_exchange_frame hash : preserves R (seal_exchange K hash).
Proof.
  unfold seal_exchange, tpm2_end_auth_session, tpm_buf_destroy.
  pose proof seal_build_frame. frame_walk.
Qed.

End FrameCommands.

#[export] Hint Resolve load_out_frame load_exchange_frame
  unseal_exchange_frame seal_build_frame seal_exchange_frame : frame.

(** ** Seal: the precondition and the status of the Create exchange *)

Lemma hash_lookup_In (map : list (Z * Z)) (h tpm_id : Z) :
  hash_lookup map h = Some tpm_id -> In h (List.map fst map).
Proof.
  induction map as [| [c t] map IH]; cbn; [discriminate |].
  destruct (Z.eqb_spec h c) as [-> | Hne]; [left; reflexivity |].
  intros H. right. apply IH, H.
Qed.

(** C8. When [options->keyhandle] is zero or [options->hash] has no entry
    in tpm2_hash_map, tpm2_seal_trusted returns -EINVAL and the state is the
    one it started from: no call has left the file (no chip ownership, no
    session), and the payload is unchanged. *)
Theorem tpm2_seal_trusted_precondition (K : collaborators) (w : world) :
  keyhandle (options w) = 0 \/
  ~ In (hash (options w)) (List.map fst tpm2_hash_map) ->
  tpm2_seal_trusted K w = Done (- EINVAL) w.
Proof.
  intros H. unfold tpm2_seal_trusted, bind, get.
  destruct (hash_lookup tpm2_hash_map (hash (options w))) as [tpm_id |] eqn:E;
    [| reflexivity].
  destruct H as [H | H].
  - rewrite H. reflexivity.
  - exfalso. apply H. eapply hash_lookup_In, E.
Qed.

Lemma tpm2_seal_trusted_precondition_witness :
  tpm2_seal_trusted (Examples.platform 0 0 [])
    (Examples.start (Examples.some_payload [] 0 0)
                    (Examples.some_options 0 0 HASH_ALGO_SHA256))
  = Done (- EINVAL)
         (Examples.start (Examples.some_payload [] 0 0)
                         (Examples.some_options 0 0 HASH_ALGO_SHA256)).
Proof.
  apply tpm2_seal_trusted_precondition. left. reflexivity.
Defined.

(** C9. When the Create exchange ends with a positive status [rc],
    tpm2_seal_trusted returns -EINVAL if tpm2_rc_value(rc) is TPM2_RC_HASH
    and -EPERM for every other positive status. *)
Theorem tpm2_seal_trusted_status_mapping
        (K : collaborators) (w w1 : world) (tpm_id rc : Z) (buf : tpm_buf) :
  hash_lookup tpm2_hash_map (hash (options w)) = Some tpm_id ->
  keyhandle (options w) <> 0 ->
  k_try_get_ops K (trace w) = 0 ->
  seal_exchange K tpm_id (log EvTryGetOps w) = Done (inr (rc, buf)) w1 ->
  0 < rc ->
  exists w2,
    tpm2_seal_trusted K w
    = Done (if tpm2_rc_value K rc =? TPM2_RC_HASH then - EINVAL else - EPERM)
           w2.
Proof.
  intros Hh Hk Hops Hx Hrc.
  unfold tpm2_seal_trusted, bind, get. rewrite Hh.
  destruct (Z.eqb_spec (keyhandle (options w)) 0) as [E | _]; [contradiction |].
  unfold tpm_try_get_ops at 1. rewrite Hops. cbn [Z.eqb negb].
  rewrite Hx.
  destruct (Z.eqb_spec rc 0) as [E | _]; [lia |]. cbn [negb].
  unfold seal_out, seal_out_put, bind, tpm_buf_destroy, tpm_put_ops, modify, ret.
  cbn [Z.ltb Z.compare].
  destruct (Z.gtb_spec rc 0) as [_ | E]; [| lia].
  eexists. reflexivity.
Qed.

Lemma tpm2_seal_trusted_status_mapping_witness :
  exists w2,
    tpm2_seal_trusted (Examples.platform 0x2c3 10 [])
      (Examples.start (Examples.some_payload [] 0 0)
                      (Examples.some_options 0x81000001 0 HASH_ALGO_SHA256))
    = Done (- EINVAL) w2.
Proof.
  eapply (tpm2_seal_trusted_status_mapping
            (Examples.platform 0x2c3 10 []) _ _ TPM_ALG_SHA256 0x2c3).
  - reflexivity.
  - cbn. lia.
  - reflexivity.
  - vm_compute. reflexivity.
  - lia.
Defined.

(** ** Unseal: the bounds of the secret and the legacy split *)

Lemma unseal_exchange_payload (K : collaborators) (h : Z) (w : world) :
  payload (final (unseal_exchange K h w)) = payload w.
Proof. apply (unseal_exchange_frame K same_payload). Qed.

Lemma memcpy_head (dst src : list Z) (n : nat) :
  length src = n -> firstn n (memcpy dst 0 src) = src.
Proof.
  intros <-. unfold memcpy. change (firstn 0 dst) with (@nil Z).
  cbn [app]. apply take_app_length.
Qed.

Lemma memcpy_tail (dst src : list Z) (n : nat) :
  length src = n -> skipn n (memcpy dst 0 src) = skipn n dst.
Proof.
  intros <-. unfold memcpy. change (firstn 0 dst) with (@nil Z).
  cbn [app Nat.add]. apply drop_app_length.
Qed.

Lemma page_read_length (p : Z -> Z) (off : Z) (n : nat) :
  length (page_read p off n) = n.
Proof. unfold page_read. rewrite length_map, length_seq. reflexivity. Qed.

(** C6. After an exchange that ended with status 0, when the length of
    the secret read at TPM_HEADER_SIZE + 4 is below MIN_KEY_SIZE or above
    MAX_KEY_SIZE, or the response is shorter than the header, the length
    field and that many bytes, tpm2_unseal_cmd returns -EFAULT and the
    payload (key included) is the one before the call. *)
Theorem tpm2_unseal_cmd_secret_bounds
        (K : collaborators) (w w1 : world) (blob_handle : Z) (buf : tpm_buf) :
  unseal_exchange K blob_handle w = Done (inr (0, buf)) w1 ->
  unseal_data_len buf < MIN_KEY_SIZE \/
  unseal_data_len buf > MAX_KEY_SIZE \/
  tpm_buf_length buf < TPM_HEADER_SIZE + 6 + unseal_data_len buf ->
  exists w2,
    tpm2_unseal_cmd K blob_handle w = Done (- EFAULT) w2 /\
    payload w2 = payload w.
Proof.
  intros Hx Hbad.
  pose proof (unseal_exchange_payload K blob_handle w) as Hp.
  rewrite Hx in Hp. cbn [final] in Hp.
  unfold tpm2_unseal_cmd, bind. rewrite Hx.
  unfold unseal_extract. cbn [Z.eqb].
  destruct (Z.ltb_spec (unseal_data_len buf) MIN_KEY_SIZE) as [H1 | H1];
    cbn [orb].
  { eexists; split; [reflexivity | exact Hp]. }
  destruct (Z.gtb_spec (unseal_data_len buf) MAX_KEY_SIZE) as [H2 | H2].
  { eexists; split; [reflexivity | exact Hp]. }
  destruct (Z.ltb_spec (tpm_buf_length buf)
                       (TPM_HEADER_SIZE + 6 + unseal_data_len buf))
    as [H3 | H3].
  { eexists; split; [reflexivity | exact Hp]. }
  lia.
Qed.

Lemma tpm2_unseal_cmd_secret_bounds_witness :
  exists w2,
    tpm2_unseal_cmd (Examples.platform 0 47 Examples.unseal_response) 7
      (Examples.start (Examples.some_payload [] 0 0)
                      (Examples.some_options 0x81000001 0 HASH_ALGO_SHA256))
    = Done (- EFAULT) w2 /\
    payload w2 = Examples.some_payload [] 0 0.
Proof.
  eapply (tpm2_unseal_cmd_secret_bounds
            (Examples.platform 0 47 Examples.unseal_response)).
  - vm_compute. reflexivity.
  - right. right. vm_compute. reflexivity.
Defined.

(** the length field of the response, from its two bytes *)
Lemma unseal_data_len_bytes (buf : tpm_buf) :
  is_byte (b_data buf (TPM_HEADER_SIZE + 4)) ->
  is_byte (b_data buf (TPM_HEADER_SIZE + 5)) ->
  unseal_data_len buf
  = 256 * b_data buf (TPM_HEADER_SIZE + 4) + b_data buf (TPM_HEADER_SIZE + 5).
Proof.
  intros Hhi Hlo. unfold unseal_data_len, page_be16.
  replace (TPM_HEADER_SIZE + 4 + 1) with (TPM_HEADER_SIZE + 5) by lia.
  rewrite lor_shiftl8_byte by exact Hlo.
  unfold u16, is_byte in *. rewrite Z.mod_small; lia.
Qed.

(** C7. Take an exchange that ended with status 0, and let N be the
    length the response announces: the big-endian 16-bit number made of
    its two bytes at TPM_HEADER_SIZE + 4, the secret being the N bytes
    from TPM_HEADER_SIZE + 6 on.  When N is within the bounds and the
    response holds that many bytes, tpm2_unseal_cmd returns 0.  With
    [old_format] set the key receives the first N - 1 bytes of the
    secret, [key_len] is N - 1 and [migratable] is the N-th byte (so it
    is true exactly when that byte is not zero).  Without [old_format]
    the key receives all N bytes, [key_len] is N and [migratable] is left
    as it was.  The bytes of the key array past the copy are kept in both
    cases. *)
Theorem tpm2_unseal_cmd_legacy_split
        (K : collaborators) (w w1 : world) (blob_handle : Z) (buf : tpm_buf)
        (N : Z) :
  unseal_exchange K blob_handle w = Done (inr (0, buf)) w1 ->
  is_byte (b_data buf (TPM_HEADER_SIZE + 4)) ->
  is_byte (b_data buf (TPM_HEADER_SIZE + 5)) ->
  N = 256 * b_data buf (TPM_HEADER_SIZE + 4)
      + b_data buf (TPM_HEADER_SIZE + 5) ->
  MIN_KEY_SIZE <= N <= MAX_KEY_SIZE ->
  TPM_HEADER_SIZE + 6 + N <= tpm_buf_length buf ->
  exists w2,
    tpm2_unseal_cmd K blob_handle w = Done 0 w2 /\
    let secret n :=
      map (fun k => b_data buf (TPM_HEADER_SIZE + 6 + Z.of_nat k))
          (seq 0 n) in
    (old_format (payload w) <> 0 ->
     firstn (Z.to_nat (N - 1)) (key (payload w2)) = secret (Z.to_nat (N - 1)) /\
     skipn (Z.to_nat (N - 1)) (key (payload w2))
     = skipn (Z.to_nat (N - 1)) (key (payload w)) /\
     key_len (payload w2) = N - 1 /\
     migratable (payload w2) = b_data buf (TPM_HEADER_SIZE + 6 + (N - 1)) /\
     (migratable (payload w2) =? 0)
     = (b_data buf (TPM_HEADER_SIZE + 6 + (N - 1)) =? 0)) /\
    (old_format (payload w) = 0 ->
     firstn (Z.to_nat N) (key (payload w2)) = secret (Z.to_nat N) /\
     skipn (Z.to_nat N) (key (payload w2))
     = skipn (Z.to_nat N) (key (payload w)) /\
     key_len (payload w2) = N /\
     migratable (payload w2) = migratable (payload w)).
Proof.
  intros Hx Hbhi Hblo HN [Hlo Hhi] Hlen.
  pose proof (unseal_data_len_bytes buf Hbhi Hblo) as Hdl.
  rewrite <- HN in Hdl. clear HN Hbhi Hblo.
  pose proof (unseal_exchange_payload K blob_handle w) as Hp.
  rewrite Hx in Hp. cbn [final] in Hp.
  unfold tpm2_unseal_cmd, bind. rewrite Hx.
  unfold unseal_extract. cbn [Z.eqb]. rewrite Hdl.
  destruct (Z.ltb_spec N MIN_KEY_SIZE) as [H1 | _]; [lia |].
  destruct (Z.gtb_spec N MAX_KEY_SIZE) as [H2 | _]; [lia |].
  cbn [orb].
  destruct (Z.ltb_spec (tpm_buf_length buf) (TPM_HEADER_SIZE + 6 + N))
    as [H3 | _]; [lia |].
  unfold bind, get. rewrite Hp.
  destruct (Z.eqb_spec (old_format (payload w)) 0) as [Hold | Hold];
    cbn [negb]; unfold modify, tpm_buf_destroy, ret;
    eexists; (split; [reflexivity |]); cbn zeta;
    (split; [intros Hof | intros Hof]); try contradiction;
    cbn [payload set_payload set_migratable set_key key key_len migratable
         log];
    rewrite ?Hp.
  - rewrite memcpy_head, memcpy_tail by apply page_read_length. auto.
  - rewrite memcpy_head, memcpy_tail by apply page_read_length. auto.
Qed.

Lemma tpm2_unseal_cmd_legacy_split_witness :
  exists w2,
    tpm2_unseal_cmd (Examples.platform 0 116 Examples.long_unseal_response) 7
      (Examples.start (Examples.some_payload [] 0 1)
                      (Examples.some_options 0x81000001 0 HASH_ALGO_SHA256))
    = Done 0 w2 /\
    firstn 99 (key (payload w2)) = repeat 7 99 /\
    skipn 99 (key (payload w2)) = repeat 0xaa 30 /\
    key_len (payload w2) = 99 /\
    migratable (payload w2) = 1.
Proof.
  destruct (tpm2_unseal_cmd_legacy_split
              (Examples.platform 0 116 Examples.long_unseal_response)
              (Examples.start (Examples.some_payload [] 0 1)
                 (Examples.some_options 0x81000001 0 HASH_ALGO_SHA256))
              (final (unseal_exchange
                        (Examples.platform 0 116
                           Examples.long_unseal_response) 7
                        (Examples.start (Examples.some_payload [] 0 1)
                           (Examples.some_options 0x81000001 0
                                                  HASH_ALGO_SHA256))))
              7
              (mk_buf 0 116 (Examples.page_of Examples.long_unseal_response))
              100)
    as (w2 & Hrun & Hold & _).
  - vm_compute. reflexivity.
  - vm_compute. split; [discriminate | reflexivity].
  - vm_compute. split; [discriminate | reflexivity].
  - vm_compute. reflexivity.
  - vm_compute. split; discriminate.
  - vm_compute. discriminate.
  - exists w2. split; [exact Hrun |].
    destruct Hold as (Hk & Hs & Hl & Hm & _); [vm_compute; discriminate |].
    repeat split; [exact Hk | exact Hs | exact Hl | exact Hm].
Defined.

(** ** Load: the migratable flag *)

Lemma land_pow2 (a n : Z) :
  0 <= n -> Z.land a (2 ^ n) = if Z.testbit a n then 2 ^ n else 0.
Proof.
  intros Hn. apply Z.bits_inj'; intros m Hm.
  rewrite Z.land_spec, Z.pow2_bits_eqb by lia.
  destruct (Z.eqb_spec n m) as [-> | Hne].
  - destruct (Z.testbit a m) eqn:E; cbn.
    + rewrite Z.pow2_bits_true; [reflexivity | lia].
    + rewrite Z.bits_0. reflexivity.
  - rewrite andb_false_r.
    destruct (Z.testbit a n).
    + rewrite Z.pow2_bits_false; [reflexivity | lia].
    + rewrite Z.bits_0. reflexivity.
Qed.

Lemma migratable_of_attrs_bits (attrs : Z) :
  migratable_of_attrs attrs = if fixed_tpm_and_parent attrs then 0 else 1.
Proof.
  unfold migratable_of_attrs, fixed_tpm_and_parent, flag_set.
  change (Z.lor TPM2_OA_FIXED_TPM TPM2_OA_FIXED_PARENT)
    with (Z.lor (2 ^ 1) (2 ^ 4)).
  change TPM2_OA_FIXED_TPM with (2 ^ 1).
  change TPM2_OA_FIXED_PARENT with (2 ^ 4).
  rewrite Z.land_lor_distr_r.
  rewrite !land_pow2 by lia.
  destruct (Z.testbit attrs 1), (Z.testbit attrs 4); reflexivity.
Qed.

Lemma load_exchange_payload (K : collaborators) blob blob_len (w : world) :
  payload (final (load_exchange K blob blob_len w)) = payload w.
Proof. apply (load_exchange_frame K same_payload). Qed.

(** C5. Once tpm2_load_cmd has accepted the two declared lengths, the
    32-bit word [attrs] it reads at offset 4 of the public area decides
    [payload->migratable]: it is 0 (false) exactly when both
    TPM2_OA_FIXED_TPM and TPM2_OA_FIXED_PARENT are set in [attrs], and 1
    (true) for every other combination, whatever the rest of the call
    does afterwards. *)
Theorem tpm2_load_cmd_migratable
        (K : collaborators) (w w1 : world) (blob : blobref)
        (private_len public_len attrs : Z) (mem : list Z) :
  load_validate K w = Done (inr (blob, private_len, public_len)) w1 ->
  blob_bytes blob w1 = Some mem ->
  get_unaligned_be32 mem (2 + private_len + 2 + 4) = Some attrs ->
  migratable (payload (final (tpm2_load_cmd K w)))
  = (if fixed_tpm_and_parent attrs then 0 else 1) /\
  (migratable (payload (final (tpm2_load_cmd K w))) = 0
   <-> fixed_tpm_and_parent attrs = true).
Proof.
  intros Hv Hmem Hattrs.
  assert (Hm : migratable (payload (final (tpm2_load_cmd K w)))
               = migratable_of_attrs attrs).
  { unfold tpm2_load_cmd, bind at 1. rewrite Hv.
    unfold bind at 1, get. unfold bind at 1. rewrite Hmem. cbn [must ret].
    cbv zeta. unfold bind at 1. rewrite Hattrs. cbn [must ret].
    unfold bind at 1, modify.
    match goal with
    | |- context [if ?c then _ else _] => destruct c
    end.
    - reflexivity.
    - rewrite load_exchange_payload. reflexivity. }
  rewrite Hm, migratable_of_attrs_bits.
  split; [reflexivity |].
  destruct (fixed_tpm_and_parent attrs); split; intros; congruence.
Qed.

Lemma tpm2_load_cmd_migratable_witness :
  migratable (payload (final (tpm2_load_cmd (Examples.platform 0 14 [])
                                            (LoadExamples.legacy_world 0x12))))
  = 0 /\
  migratable (payload (final (tpm2_load_cmd (Examples.platform 0 14 [])
                                            (LoadExamples.legacy_world 0x10))))
  = 1.
Proof.
  split.
  - refine (proj1 (tpm2_load_cmd_migratable
                     (Examples.platform 0 14 []) (LoadExamples.legacy_world 0x12)
                     (final (load_validate (Examples.platform 0 14 [])
                                           (LoadExamples.legacy_world 0x12)))
                     InPayload 2 8 0x12
                     (blob (payload (LoadExamples.legacy_world 0x12)))
                     _ _ _)); vm_compute; reflexivity.
  - refine (proj1 (tpm2_load_cmd_migratable
                     (Examples.platform 0 14 []) (LoadExamples.legacy_world 0x10)
                     (final (load_validate (Examples.platform 0 14 [])
                                           (LoadExamples.legacy_world 0x10)))
                     InPayload 2 8 0x10
                     (blob (payload (LoadExamples.legacy_world 0x10)))
                     _ _ _)); vm_compute; reflexivity.
Defined.

(** ** The options across the calls *)

Section FrameDecode.

Context (K : collaborators) (R : world -> world -> Prop)
        `{!Framing R} `{!IgnoresKeyhandle R}.

Lemma tpm2_key_decode_frame : preserves R (tpm2_key_decode K).
Proof.
  unfold tpm2_key_decode. frame_walk.
  - apply preserves_modify; try typeclasses eauto. intros w.
    apply ignores_keyhandle.
  - apply preserves_modify; try typeclasses eauto. intros w.
    destruct (heap w !! _); [apply fr_heap | apply fr_refl].
Qed.

End FrameDecode.

#[export] Hint Resolve tpm2_key_decode_frame : frame.

Section FramePayloadWriters.

Context (K : collaborators) (R : world -> world -> Prop)
        `{!Framing R} `{!IgnoresPayload R}.

Lemma preserves_set_payload (f : world -> trusted_key_payload) :
  preserves R (modify (fun w => set_payload (f w) w)).
Proof. apply preserves_modify; try typeclasses eauto.
  intros w. apply ignores_payload.
Qed.

Hint Resolve preserves_set_payload : frame.

Lemma tpm2_key_encode_frame src len :
  preserves R (tpm2_key_encode K src len).
Proof. unfold tpm2_key_encode. frame_walk. Qed.

Lemma seal_out_frame rc blob_len : preserves R (seal_out K rc blob_len).
Proof.
  unfold seal_out, seal_out_put, tpm_buf_destroy, tpm_put_ops. frame_walk.
Qed.

Lemma tpm2_seal_trusted_frame : preserves R (tpm2_seal_trusted K).
Proof.
  unfold tpm2_seal_trusted, seal_out_put, tpm_put_ops.
  pose proof tpm2_key_encode_frame. pose proof seal_out_frame.
  frame_walk.
Qed.

Lemma unseal_extract_frame rc buf : preserves R (unseal_extract rc buf).
Proof. unfold unseal_extract. frame_walk. Qed.

Lemma tpm2_unseal_cmd_frame blob_handle :
  preserves R (tpm2_unseal_cmd K blob_handle).
Proof.
  unfold tpm2_unseal_cmd, tpm_buf_destroy.
  pose proof unseal_extract_frame. frame_walk.
Qed.

Context `{!IgnoresKeyhandle R}.

Lemma load_validate_frame : preserves R (load_validate K).
Proof.
  unfold load_validate, load_decode, load_checks. frame_walk.
Qed.

Lemma tpm2_load_cmd_frame : preserves R (tpm2_load_cmd K).
Proof.
  unfold tpm2_load_cmd. pose proof load_validate_frame. frame_walk.
Qed.

Lemma tpm2_unseal_trusted_frame : preserves R (tpm2_unseal_trusted K).
Proof.
  unfold tpm2_unseal_trusted, tpm_put_ops, tpm2_flush_context.
  pose proof tpm2_load_cmd_frame. pose proof tpm2_unseal_cmd_frame.
  frame_walk.
Qed.

End FramePayloadWriters.

Lemma kmalloc_options (K : collaborators) (size : Z) (w : world) :
  options (final (kmalloc K size w)) = options w.
Proof. apply (kmalloc_frame K same_options). Qed.

(** what tpm2_key_decode does to the options: nothing when it stores no
    buffer, and the parent handle of the blob in [keyhandle] when it does *)
Lemma tpm2_key_decode_options (K : collaborators) (w w' : world)
      (rc : Z) (buf : option nat) :
  tpm2_key_decode K w = Done (rc, buf) w' ->
  match buf with
  | None => options w' = options w
  | Some _ =>
      exists rc' ctx,
        asn1_ber_decoder ctx_zero (blob (payload w)) (blob_len (payload w))
        = Some (rc', ctx) /\
        options w' = set_keyhandle (parent ctx) (options w)
  end.
Proof.
  unfold tpm2_key_decode, bind at 1, get. unfold bind at 1.
  destruct (asn1_ber_decoder ctx_zero (blob (payload w))
                             (blob_len (payload w)))
    as [[rc' ctx] |] eqn:Hdec; cbn [must ret crash]; [| discriminate].
  destruct (rc' <? 0); [intros [= <- <- <-]; reflexivity |].
  destruct (u32 (priv_len ctx + pub_len ctx) >? MAX_BLOB_SIZE);
    [intros [= <- <- <-]; reflexivity |].
  unfold bind at 1.
  pose proof (kmalloc_options K (u32 (priv_len ctx + pub_len ctx + 4)) w)
    as Hk.
  destruct (kmalloc K (u32 (priv_len ctx + pub_len ctx + 4)) w)
    as [[id |] wk | f wk]; cbn [final] in Hk; [| | discriminate].
  - unfold bind at 1, modify. unfold bind at 1.
    destruct (slice (priv ctx) 0 (priv_len ctx)); cbn [must ret crash];
      [| discriminate].
    unfold bind at 1.
    destruct (slice (pub ctx) 0 (pub_len ctx)); cbn [must ret crash];
      [| discriminate].
    unfold bind at 1.
    intros [= <- <- <-]. exists rc', ctx. split; [reflexivity |].
    cbn [set_options options].
    destruct (heap _ !! id); cbn [set_heap options]; rewrite Hk; reflexivity.
  - intros [= <- <- <-]. exact Hk.
Qed.

(** C3, as the code has it.  The options are read-only to
    tpm2_key_encode, tpm2_seal_trusted and tpm2_unseal_cmd.
    tpm2_key_decode, and through it tpm2_load_cmd and tpm2_unseal_trusted,
    keep every member except [keyhandle]; tpm2_key_decode writes
    [keyhandle] only when it stores the decoded buffer, and then with the
    parent handle carried by the blob. *)
Theorem options_written_only_by_decode (K : collaborators) :
  (forall src len, preserves same_options (tpm2_key_encode K src len)) /\
  preserves same_options (tpm2_seal_trusted K) /\
  (forall blob_handle, preserves same_options (tpm2_unseal_cmd K blob_handle)) /\
  preserves options_but_keyhandle (tpm2_key_decode K) /\
  preserves options_but_keyhandle (tpm2_load_cmd K) /\
  preserves options_but_keyhandle (tpm2_unseal_trusted K) /\
  (forall w w' rc buf,
      tpm2_key_decode K w = Done (rc, buf) w' ->
      match buf with
      | None => options w' = options w
      | Some _ =>
          exists rc' ctx,
            asn1_ber_decoder ctx_zero (blob (payload w))
                             (blob_len (payload w)) = Some (rc', ctx) /\
            options w' = set_keyhandle (parent ctx) (options w)
      end).
Proof.
  repeat split.
  - intros src len. apply tpm2_key_encode_frame; typeclasses eauto.
  - apply tpm2_seal_trusted_frame; typeclasses eauto.
  - intros h. apply tpm2_unseal_cmd_frame; typeclasses eauto.
  - apply tpm2_key_decode_frame; typeclasses eauto.
  - apply tpm2_load_cmd_frame; typeclasses eauto.
  - apply tpm2_unseal_trusted_frame; typeclasses eauto.
  - intros w w' rc buf. apply tpm2_key_decode_options.
Qed.

Lemma options_written_only_by_decode_witness :
  options (final (tpm2_seal_trusted (Examples.platform 0 10 [])
                                    DecodeExamples.world40))
  = options DecodeExamples.world40 /\
  options (final (tpm2_key_decode (Examples.platform 0 10 [])
                                  DecodeExamples.world40))
  = set_keyhandle 0x81000001 (options DecodeExamples.world40).
Proof.
  destruct (options_written_only_by_decode (Examples.platform 0 10 []))
    as (_ & Hseal & _ & _ & _ & _ & Hdec).
  split; [apply Hseal |].
  specialize (Hdec DecodeExamples.world40
                   (final (tpm2_key_decode (Examples.platform 0 10 [])
                                           DecodeExamples.world40))
                   0 (Some 0%nat)).
  destruct Hdec as (rc' & ctx & Hctx & Ho); [vm_compute; reflexivity |].
  rewrite Ho. vm_compute in Hctx. injection Hctx as _ <-. reflexivity.
Defined.

(** C3 as stated fails: tpm2_key_decode, called with options whose
    [keyhandle] is 0 on the blob of parent 0x81000001, returns 0 and leaves
    0x81000001 in [options->keyhandle]; so does tpm2_load_cmd. *)
Lemma options_read_only_counterexample :
  keyhandle (options DecodeExamples.world40) = 0 /\
  (exists id w',
      tpm2_key_decode (Examples.platform 0 10 []) DecodeExamples.world40
      = Done (0, Some id) w' /\
      keyhandle (options w') = 0x81000001) /\
  keyhandle (options (final (tpm2_load_cmd (Examples.platform 0 10 [])
                                           DecodeExamples.world40)))
  = 0x81000001.
Proof.
  split; [reflexivity |]. split.
  - eexists _, _. split; vm_compute; reflexivity.
  - vm_compute. reflexivity.
Qed.

(** ** Load: the decoded buffer on the early returns *)

(** the early return of line 407 after a successful structured decode:
    the call ends in the state the decode has left, buffer included *)
Lemma tpm2_load_cmd_returns_before_out
      (K : collaborators) (w w1 : world) (id : nat) :
  load_decode K w = Done (InHeap id) w1 ->
  keyhandle (options w1) = 0 ->
  tpm2_load_cmd K w = Done (- EINVAL, None) w1.
Proof.
  intros Hdec Hkh.
  unfold tpm2_load_cmd, load_validate, bind at 1. unfold bind at 1.
  rewrite Hdec. unfold load_checks, bind at 1, get. rewrite Hkh.
  reflexivity.
Qed.

(** label out releases the decoded buffer *)
Lemma load_out_frees (id : nat) (rc : Z) (blob_handle : option Z) (w : world) :
  heap (final (load_out (InHeap id) rc blob_handle w)) = delete id (heap w).
Proof. reflexivity. Qed.

(** C4 fails on the early returns.  On the blob of parent handle 0 the
    decode succeeds and allocates 18 bytes, the check of the handle returns
    -EINVAL, and the object is still live when tpm2_load_cmd returns: the
    only allocator event of the call is the kmalloc.  The same happens when
    tpm2_start_auth_session fails on the blob of parent 0x81000001.  On the
    path through label out the object is freed. *)
Theorem tpm2_load_cmd_leaks_decoded_blob :
  heap DecodeExamples.world36 = ∅ /\
  (exists w',
      tpm2_load_cmd (Examples.platform 0 14 []) DecodeExamples.world36
      = Done (- EINVAL, None) w' /\
      heap w' !! 0%nat
      = Some (DecodeExamples.private_area ++ DecodeExamples.public_area
                ++ [0; 0; 0; 0]) /\
      trace w' = [EvKmalloc 18]) /\
  (exists w',
      tpm2_load_cmd (DecodeExamples.no_session (Examples.platform 0 14 []))
                    DecodeExamples.world40
      = Done (- ENOMEM, None) w' /\
      heap w' !! 0%nat
      = Some (DecodeExamples.private_area ++ DecodeExamples.public_area
                ++ [0; 0; 0; 0]) /\
      trace w' = [EvKmalloc 18; EvStartAuthSession]) /\
  (exists w' blob_handle,
      tpm2_load_cmd (Examples.platform 0 14 []) DecodeExamples.world40
      = Done (0, Some blob_handle) w' /\
      heap w' = ∅ /\
      In (EvKfree 0) (trace w')).
Proof.
  split; [reflexivity |]. split; [| split].
  - eexists. split; [vm_compute; reflexivity |]. split; vm_compute; reflexivity.
  - eexists. split; [vm_compute; reflexivity |]. split; vm_compute; reflexivity.
  - eexists _, _. split; [vm_compute; reflexivity |].
    split; [vm_compute; reflexivity |]. cbn. tauto.
Qed.

(** ** Load: the declared lengths against the buffer that is indexed *)

(** the parts of C2 that hold on every path: the bound of the decoder *)
Lemma tpm2_key_decode_rejects_oversized
      (K : collaborators) (w : world) (rc : Z) (ctx : tpm2_key_context) :
  asn1_ber_decoder ctx_zero (blob (payload w)) (blob_len (payload w))
  = Some (rc, ctx) ->
  0 <= rc ->
  u32 (priv_len ctx + pub_len ctx) > MAX_BLOB_SIZE ->
  tpm2_key_decode K w = Done (- EINVAL, None) w.
Proof.
  intros Hdec Hrc Hbig.
  unfold tpm2_key_decode, bind at 1, get. unfold bind at 1.
  rewrite Hdec. cbn [must ret].
  destruct (Z.ltb_spec rc 0); [lia |].
  destruct (Z.gtb_spec (u32 (priv_len ctx + pub_len ctx)) MAX_BLOB_SIZE);
    [reflexivity | lia].
Qed.

Lemma tpm2_key_decode_payload (K : collaborators) (w : world) :
  payload (final (tpm2_key_decode K w)) = payload w.
Proof. apply (tpm2_key_decode_frame K same_payload). Qed.

(** and the rejection of a blob too short for the two length fields,
    whichever format it has: a return of tpm2_load_cmd is then -EINVAL *)
Lemma load_decode_payload (K : collaborators) (w : world) :
  blob_len (payload (final (load_decode K w))) = blob_len (payload w).
Proof.
  unfold load_decode, bind at 1.
  pose proof (tpm2_key_decode_payload K w) as Hp.
  destruct (tpm2_key_decode K w) as [[rc buf] w1 | f w1];
    cbn [final] in Hp |- *; [| rewrite Hp; reflexivity].
  destruct rc as [| rc | rc]; [destruct buf |..]; cbn; rewrite Hp; reflexivity.
Qed.

Lemma load_checks_rejects_short (blob : blobref) (w : world) :
  blob_len (payload w) < 4 ->
  load_checks blob w = Done (inl (- EINVAL)) w.
Proof.
  intros Hshort. unfold load_checks, bind at 1, get.
  destruct (keyhandle (options w) =? 0); [reflexivity |].
  destruct (Z.ltb_spec (blob_len (payload w)) 4); [reflexivity | lia].
Qed.

Lemma load_validate_rejects_short (K : collaborators) (w : world) :
  blob_len (payload w) < 4 ->
  match load_validate K w with
  | Done v _ => v = inl (- EINVAL)
  | Crash _ _ => True
  end.
Proof.
  intros Hshort. unfold load_validate, bind at 1.
  pose proof (load_decode_payload K w) as Hp.
  destruct (load_decode K w) as [blob w1 | f w1]; [| exact I].
  cbn [final] in Hp.
  rewrite load_checks_rejects_short by (rewrite Hp; exact Hshort).
  reflexivity.
Qed.

Lemma tpm2_load_cmd_rejects_short (K : collaborators) (w : world) :
  blob_len (payload w) < 4 ->
  match tpm2_load_cmd K w with
  | Done r _ => r = (- EINVAL, None)
  | Crash _ _ => True
  end.
Proof.
  intros Hshort. unfold tpm2_load_cmd, bind at 1.
  pose proof (load_validate_rejects_short K w Hshort) as Hv.
  destruct (load_validate K w) as [v w1 | f w1]; [| exact I].
  subst v. reflexivity.
Qed.

Lemma rd_in_bounds (m : list Z) (i : Z) :
  Forall is_byte m -> 0 <= i < Z.of_nat (length m) ->
  exists b, rd m i = Some b /\ is_byte b.
Proof.
  intros Hm Hi. unfold rd.
  destruct (Z.ltb_spec i 0); [lia |].
  destruct (nth_error m (Z.to_nat i)) as [b |] eqn:E.
  - exists b. split; [reflexivity |].
    rewrite Forall_forall in Hm. apply Hm.
    apply list_elem_of_In. eapply nth_error_In, E.
  - apply nth_error_None in E. lia.
Qed.

Lemma get_unaligned_be16_in_bounds (m : list Z) (off : Z) :
  Forall is_byte m -> 0 <= off -> off + 2 <= Z.of_nat (length m) ->
  exists v, get_unaligned_be16 m off = Some v /\ 0 <= v < 65536.
Proof.
  intros Hm H0 H2. unfold get_unaligned_be16.
  destruct (rd_in_bounds m off Hm ltac:(lia)) as (b0 & -> & Hb0).
  destruct (rd_in_bounds m (off + 1) Hm ltac:(lia)) as (b1 & -> & Hb1).
  eexists. split; [reflexivity |].
  rewrite lor_shiftl8_byte by exact Hb1. unfold is_byte in *. lia.
Qed.

(** and, on the legacy path, the checks of the two declared lengths: the
    blob is [payload->blob], the two length fields are read inside its
    first [blob_len] bytes, and a private or public area that would end
    past [blob_len] is refused with -E2BIG *)
Lemma load_checks_legacy_bounds (w : world) :
  keyhandle (options w) <> 0 ->
  4 <= blob_len (payload w) <= Z.of_nat (length (blob (payload w))) ->
  Forall is_byte (blob (payload w)) ->
  exists private_len,
    get_unaligned_be16 (blob (payload w)) 0 = Some private_len /\
    (blob_len (payload w) < private_len + 4 ->
     load_checks InPayload w = Done (inl (- E2BIG)) w) /\
    (private_len + 4 <= blob_len (payload w) ->
     exists public_len,
       get_unaligned_be16 (blob (payload w)) (2 + private_len)
       = Some public_len /\
       (blob_len (payload w) < private_len + public_len + 4 ->
        load_checks InPayload w = Done (inl (- E2BIG)) w) /\
       (private_len + public_len + 4 <= blob_len (payload w) ->
        load_checks InPayload w
        = Done (inr (InPayload, private_len, public_len)) w)).
Proof.
  intros Hkh Hlen Hbytes.
  destruct (get_unaligned_be16_in_bounds (blob (payload w)) 0 Hbytes
              ltac:(lia) ltac:(lia)) as (private_len & Hpriv & Hp).
  exists private_len. split; [exact Hpriv |].
  assert (Hstart :
            load_checks InPayload w
            = (if u32 (private_len + 2 + 2) >? blob_len (payload w)
               then Done (inl (- E2BIG)) w
               else
                 bind (must (get_unaligned_be16 (blob (payload w))
                                                (2 + private_len)))
                      (fun public_len =>
                         if u32 (private_len + 2 + public_len + 2)
                            >? blob_len (payload w)
                         then ret (inl (- E2BIG))
                         else ret (inr (InPayload, private_len, public_len)))
                      w)).
  { unfold load_checks, bind at 1, get.
    destruct (Z.eqb_spec (keyhandle (options w)) 0); [contradiction |].
    destruct (Z.ltb_spec (blob_len (payload w)) 4); [lia |].
    unfold bind at 1. cbn [blob_bytes must ret].
    unfold bind at 1. rewrite Hpriv. cbn [must ret].
    destruct (u32 (private_len + 2 + 2) >? blob_len (payload w));
      reflexivity. }
  assert (Hu : u32 (private_len + 2 + 2) = private_len + 4)
    by (unfold u32; rewrite Z.mod_small; lia).
  rewrite Hstart, Hu. split.
  - intros Hbig.
    destruct (Z.gtb_spec (private_len + 4) (blob_len (payload w)));
      [reflexivity | lia].
  - intros Hfit.
    destruct (Z.gtb_spec (private_len + 4) (blob_len (payload w))); [lia |].
    destruct (get_unaligned_be16_in_bounds (blob (payload w))
                (2 + private_len) Hbytes ltac:(lia) ltac:(lia))
      as (public_len & Hpub & Hq).
    exists public_len. split; [exact Hpub |].
    unfold bind. rewrite Hpub. cbn [must ret].
    assert (Hu2 : u32 (private_len + 2 + public_len + 2)
                  = private_len + public_len + 4)
      by (unfold u32; rewrite Z.mod_small; lia).
    rewrite Hu2.
    split; intros H1;
      destruct (Z.gtb_spec (private_len + public_len + 4)
                           (blob_len (payload w)));
      try reflexivity; lia.
Qed.

(** C2 fails for a structured blob.  The decoded buffer of [blob23] has 6
    bytes (2 of private string, none of public string, 4 of margin); its
    first two bytes declare a private length of 8.  tpm2_load_cmd compares
    8 + 4 with [payload->blob_len] = 23, the length of the encoded blob,
    accepts, and reads the public length at offset 10 of the 6-byte
    object. *)
Theorem tpm2_load_cmd_reads_past_decoded_blob :
  (exists id w1,
      tpm2_key_decode (Examples.platform 0 14 []) DecodeExamples.world23
      = Done (0, Some id) w1 /\
      heap w1 !! id = Some [0; 8; 0; 0; 0; 0] /\
      get_unaligned_be16 [0; 8; 0; 0; 0; 0] 0 = Some 8 /\
      get_unaligned_be16 [0; 8; 0; 0; 0; 0] (2 + 8) = None) /\
  (exists w',
      tpm2_load_cmd (Examples.platform 0 14 []) DecodeExamples.world23
      = Crash OutOfBoundsRead w').
Proof.
  split.
  - eexists _, _. split; [vm_compute; reflexivity |].
    split; [vm_compute; reflexivity |]. split; reflexivity.
  - eexists. vm_compute. reflexivity.
Qed.

(** ** The codec: lengths, elements, the integer *)

Lemma land_0xff (z : Z) : Z.land z 0xff = z mod 256.
Proof. change 0xff with (Z.ones 8). rewrite Z.land_ones by lia. reflexivity. Qed.

Lemma be16_join (n : Z) :
  0 <= n < 65536 ->
  Z.lor (Z.shiftl (Z.land (Z.shiftr n 8) 0xff) 8) (Z.land n 0xff) = n.
Proof.
  intros Hn. rewrite !land_0xff, Z.shiftr_div_pow2 by lia.
  change (2 ^ 8) with 256.
  rewrite lor_shiftl8_byte
    by (unfold is_byte; apply Z.mod_pos_bound; lia).
  rewrite (Z.mod_small (n / 256)).
  - pose proof (Z.div_mod n 256). lia.
  - split; [apply Z.div_pos; lia | apply Z.div_lt_upper_bound; lia].
Qed.

Lemma asn1_encode_length_header (data_len len : Z) (lb : list Z) :
  asn1_encode_length data_len len = inr lb ->
  0 <= len <= 0xffff ->
  der_header_of lb len /\ (1 <= length lb <= 3)%nat.
Proof.
  unfold asn1_encode_length, der_header_of. intros H Hlen.
  destruct (data_len <? 1); [discriminate |].
  destruct (Z.ltb_spec len 0); [lia |].
  destruct (Z.leb_spec len 0x7f) as [H7 | H7].
  { injection H as <-. split; [| cbn; lia]. intros r. cbn [app der_length].
    destruct (Z.leb_spec len 0x7f); [reflexivity | lia]. }
  destruct (data_len <? 2); [discriminate |].
  destruct (Z.leb_spec len 0xff) as [H8 | H8].
  { injection H as <-. split; [| cbn; lia]. intros r. cbn.
    rewrite land_0xff, Z.mod_small by lia. reflexivity. }
  destruct (data_len <? 3); [discriminate |].
  destruct (Z.leb_spec len 0xffff) as [H16 | H16]; [| lia].
  injection H as <-. split; [| cbn; lia]. intros r.
  cbn [app der_length].
  change (0x82 <=? 0x7f) with false. change (0x82 =? 0x81) with false.
  change (0x82 =? 0x82) with true. cbv iota.
  rewrite be16_join by lia. reflexivity.
Qed.

Lemma asn1_encode_length_ok (data_len len : Z) :
  0 <= len <= 0xffff -> 3 <= data_len ->
  exists lb, asn1_encode_length data_len len = inr lb.
Proof.
  intros Hlen Hd. unfold asn1_encode_length.
  destruct (Z.ltb_spec data_len 1); [lia |].
  destruct (Z.ltb_spec len 0); [lia |].
  destruct (len <=? 0x7f); [eexists; reflexivity |].
  destruct (Z.ltb_spec data_len 2); [lia |].
  destruct (len <=? 0xff); [eexists; reflexivity |].
  destruct (Z.ltb_spec data_len 3); [lia |].
  destruct (Z.leb_spec len 0xffff); [eexists; reflexivity | lia].
Qed.

Lemma slice_head (a b : list Z) :
  slice (a ++ b) 0 (Z.of_nat (length a)) = Some a.
Proof.
  unfold slice. rewrite length_app, Nat2Z.id.
  destruct (Z.leb_spec 0 (Z.of_nat (length a))); [| lia].
  destruct (Z.leb_spec (0 + Z.of_nat (length a))
                       (Z.of_nat (length a + length b))); [| lia].
  change (0 <=? 0) with true. change (Z.to_nat 0) with 0%nat.
  cbn [andb]. rewrite drop_0, take_app_length. reflexivity.
Qed.

Lemma slice_all (a : list Z) : slice a 0 (Z.of_nat (length a)) = Some a.
Proof. rewrite <- (app_nil_r a) at 1. apply slice_head. Qed.

Lemma slice_Some_length (m s : list Z) (off len : Z) :
  slice m off len = Some s -> Z.of_nat (length s) = len /\ 0 <= len.
Proof.
  unfold slice.
  destruct (Z.leb_spec 0 off); [| discriminate].
  destruct (Z.leb_spec 0 len); [| discriminate].
  destruct (Z.leb_spec (off + len) (Z.of_nat (length m))); [| discriminate].
  cbn [andb]. intros [= <-].
  rewrite length_take, length_drop. lia.
Qed.

(** the decoder reads back an element written with a definite header *)
Lemma der_tlv_element (tag : Z) (lb s r : list Z) :
  Z.land tag 0x1f <> 0x1f ->
  der_header_of lb (Z.of_nat (length s)) ->
  exists hdrlen, der_tlv (tag :: lb ++ s ++ r) = Some (tag, hdrlen, s, r).
Proof.
  intros Htag Hlb. unfold der_tlv.
  destruct (Z.eqb_spec (Z.land tag 0x1f) 0x1f); [contradiction |].
  rewrite (Hlb (s ++ r)).
  rewrite length_app.
  destruct (Z.leb_spec (Z.of_nat (length s))
                       (Z.of_nat (length s + length r))); [| lia].
  rewrite Nat2Z.id, take_app_length, drop_app_length.
  eexists. reflexivity.
Qed.

Lemma field_element (tag : Z) (act : callback) (ctx : tpm2_key_context)
      (lb s r : list Z) :
  Z.land tag 0x1f <> 0x1f ->
  der_header_of lb (Z.of_nat (length s)) ->
  exists hdrlen,
    field tag act ctx (tag :: lb ++ s ++ r)
    = (let '(rc, ctx') := act ctx hdrlen tag s in
       (if rc <? 0 then rc else 0, ctx', r)).
Proof.
  intros Htag Hlb.
  destruct (der_tlv_element tag lb s r Htag Hlb) as [hdrlen H].
  exists hdrlen. unfold field. rewrite H, Z.eqb_refl. reflexivity.
Qed.

Lemma der_header_short (n : nat) :
  (n <= 127)%nat -> der_header_of [Z.of_nat n] (Z.of_nat n).
Proof.
  intros Hn r. cbn [app der_length].
  destruct (Z.leb_spec (Z.of_nat n) 0x7f); [reflexivity | lia].
Qed.

Lemma u8_int32 (z : Z) : u8 (int32 z) = z mod 256.
Proof.
  unfold u8, int32. change (2 ^ 8) with 256.
  rewrite Zminus_mod, Z.mod_mod_divide by (exists 16777216; reflexivity).
  change (2 ^ 31 mod 256) with 0. rewrite Z.sub_0_r, Z.mod_mod by lia.
  rewrite Zplus_mod. change (2 ^ 31 mod 256) with 0.
  rewrite Z.add_0_r, Z.mod_mod by lia. reflexivity.
Qed.

Lemma int32_small (z : Z) : 0 <= z < 256 -> int32 z = z.
Proof. intros H. unfold int32. rewrite Z.mod_small; lia. Qed.

Lemma pow256_succ (i : nat) :
  2 ^ (8 * Z.of_nat (S i)) = 256 * 2 ^ (8 * Z.of_nat i).
Proof.
  replace (8 * Z.of_nat (S i)) with (8 + 8 * Z.of_nat i) by lia.
  rewrite Z.pow_add_r by lia. reflexivity.
Qed.

Lemma pow256_pos (i : nat) : 0 < 2 ^ (8 * Z.of_nat i).
Proof. apply Z.pow_pos_nonneg; lia. Qed.

Lemma low_bytes_length (i : nat) (I : Z) : length (low_bytes i I) = i.
Proof. induction i; cbn; congruence. Qed.

Lemma low_bytes_bytes (i : nat) (I : Z) : Forall is_byte (low_bytes i I).
Proof.
  induction i; cbn [low_bytes]; constructor; [| assumption].
  rewrite u8_int32. unfold is_byte. apply Z.mod_pos_bound. lia.
Qed.

Lemma be_acc_low_bytes (i : nat) (I acc : Z) :
  0 <= I ->
  be_acc (low_bytes i I) acc
  = acc * 2 ^ (8 * Z.of_nat i) + I mod 2 ^ (8 * Z.of_nat i).
Proof.
  intros HI. revert acc. induction i as [| i IH]; intros acc.
  - cbn. rewrite Z.mod_1_r. lia.
  - cbn [low_bytes be_acc fold_left].
    fold (be_acc (low_bytes i I)
                 (acc * 256 + u8 (int32 (Z.shiftr I (8 * Z.of_nat i))))).
    rewrite IH, u8_int32, Z.shiftr_div_pow2 by lia.
    rewrite pow256_succ.
    pose proof (pow256_pos i) as HP.
    set (P := 2 ^ (8 * Z.of_nat i)) in *.
    rewrite (Z.mul_comm 256 P), (Z.rem_mul_r I P 256) by lia.
    lia.
Qed.

Lemma encode_integer_loop_found (i : nat) (I dl : Z) (d : list Z) :
  Z.of_nat i <= dl ->
  encode_integer_loop i I true dl d = inr (d ++ low_bytes i I).
Proof.
  revert dl d. induction i as [| i IH]; intros dl d Hdl.
  - cbn. rewrite app_nil_r. reflexivity.
  - cbn [encode_integer_loop low_bytes negb andb].
    destruct (Z.eqb_spec dl 0); [lia |].
    rewrite IH by lia. rewrite <- app_assoc. reflexivity.
Qed.

Lemma encode_integer_loop_first (i j : nat) (I dl : Z) :
  (j <= i)%nat -> 0 < I < 2 ^ (8 * Z.of_nat j) -> Z.of_nat j + 1 <= dl ->
  exists d,
    encode_integer_loop i I false dl [] = inr d /\
    (1 <= length d <= j + 1)%nat /\
    Forall is_byte d /\
    be_value d = I.
Proof.
  revert j. induction i as [| i IH]; intros j Hj HI Hdl.
  - assert (j = 0%nat) as -> by lia. cbn in HI. lia.
  - cbn [encode_integer_loop negb andb].
    pose proof (pow256_pos i) as HP.
    rewrite Z.shiftr_div_pow2 by lia.
    set (P := 2 ^ (8 * Z.of_nat i)) in *.
    pose proof (Z.div_mod I P ltac:(lia)) as Hdm.
    pose proof (Z.mod_pos_bound I P HP) as Hmod.
    assert (Hx0 : 0 <= I / P) by (apply Z.div_pos; lia).
    assert (HjP : 2 ^ (8 * Z.of_nat j) <= 256 * P).
    { unfold P. rewrite <- pow256_succ.
      apply Z.pow_le_mono_r; lia. }
    assert (Hx : I / P < 256) by (apply Z.div_lt_upper_bound; lia).
    rewrite (int32_small (I / P)) by lia.
    destruct (Z.eqb_spec (I / P) 0) as [Hz | Hnz].
    + (* this byte is zero: the value fits the bytes below *)
      destruct (Nat.le_gt_cases j i) as [Hji | Hji].
      * apply (IH j); assumption.
      * destruct (IH i) as (d & Hd & Hlen & Hb & Hv); [lia | | lia |].
        { fold P. nia. }
        exists d. repeat split; try assumption; lia.
    + (* the first byte *)
      assert (j = S i) as ->.
      { destruct (Nat.le_gt_cases j i) as [Hji | Hji]; [| lia].
        assert (2 ^ (8 * Z.of_nat j) <= P)
          by (apply Z.pow_le_mono_r; lia).
        nia. }
      set (pad := negb (Z.land (I / P) 0x80 =? 0)).
      assert (Hdl1 : ((if pad then dl - 1 else dl) =? 0) = false).
      { destruct pad; apply Z.eqb_neq; lia. }
      rewrite Hdl1.
      rewrite encode_integer_loop_found by (destruct pad; lia).
      eexists. split; [reflexivity |].
      assert (Hu : u8 (I / P) = I / P).
      { unfold u8. apply Z.mod_small. change (2 ^ 8) with 256. lia. }
      rewrite Hu.
      split; [| split].
      * rewrite !length_app, low_bytes_length. destruct pad; cbn; lia.
      * rewrite !Forall_app. repeat split.
        -- destruct pad; cbn [app]; repeat constructor; unfold is_byte; lia.
        -- repeat constructor; unfold is_byte; lia.
        -- apply low_bytes_bytes.
      * unfold be_value. rewrite !be_acc_app, be_acc_low_bytes by lia.
        fold P.
        assert (Hhead : be_acc [I / P] (be_acc (if pad then [] ++ [0] else [])
                                               0) = I / P).
        { destruct pad; cbn; lia. }
        rewrite Hhead. lia.
Qed.

(** asn1_encode_integer on a 32-bit handle, with room for seven bytes *)
Lemma asn1_encode_integer_u32 (cap : Z) (l : list Z) (I : Z) :
  is_u32 I -> 7 <= cap - Z.of_nat (length l) ->
  exists d,
    asn1_encode_integer cap (Ptr l) I
    = Ptr (l ++ [0x02; Z.of_nat (length d)] ++ d) /\
    (1 <= length d <= 5)%nat /\
    parent_loop d 0 = I.
Proof.
  intros [HI0 HI1] Hroom. unfold asn1_encode_integer.
  destruct (Z.ltb_spec I 0); [lia |].
  destruct (Z.ltb_spec (cap - Z.of_nat (length l)) 3); [lia |].
  destruct (Z.eqb_spec I 0) as [-> | Hnz].
  - exists [0]. repeat split; cbn; lia.
  - destruct (encode_integer_loop_first 8 4 I (cap - Z.of_nat (length l) - 2))
      as (d & Hd & Hlen & Hb & Hv); [lia | cbn; lia | lia |].
    rewrite Hd. exists d. repeat split; try lia.
    rewrite parent_loop_be_acc by (assumption || (unfold is_u32; lia)).
    fold (be_value d). rewrite Hv. apply Z.mod_small. lia.
Qed.

(** ** The codec: the decoder reads what the wire format says *)

Lemma asn1_ber_decoder_tpm2key
      (kh : Z) (ea : bool) (pubkey privkey enc junk : list Z) :
  is_tpm2key kh ea pubkey privkey enc ->
  Z.of_nat (length enc) <= 65535 ->
  asn1_ber_decoder ctx_zero (enc ++ junk) (Z.of_nat (length enc))
  = Some (0, mk_ctx kh pubkey (u32 (Z.of_nat (length pubkey)))
                    privkey (u32 (Z.of_nat (length privkey)))).
Proof.
  intros (d & lb1 & lb2 & lb & body & -> & Hbody & Hlb & Hlb1 & Hlb2 & Hd & Hkh)
         Hlen.
  unfold asn1_ber_decoder.
  destruct (Z.gtb_spec (Z.of_nat (length (0x30 :: lb ++ body))) 65535);
    [lia |].
  rewrite slice_head. f_equal.
  destruct (der_tlv_element 0x30 lb body [] ltac:(discriminate) Hlb)
    as [h0 H0].
  rewrite app_nil_r in H0. rewrite H0. cbv beta iota.
  (* type *)
  destruct (field_element 0x06 tpm2_key_type ctx_zero [6]
              [0x67; 0x81; 0x05; 0x0a; 0x01; 0x05]
              ((if ea then empty_auth_tlv else [])
                 ++ [0x02; Z.of_nat (length d)] ++ d
                 ++ 0x04 :: lb1 ++ pubkey ++ 0x04 :: lb2 ++ privkey)
              ltac:(discriminate) (der_header_short 6 ltac:(lia)))
    as [h1 H1].
  rewrite Hbody. unfold oid_tlv.
  cbn [app] in H1 |- *. rewrite H1.
  unfold tpm2_key_type, is_OID_TPMSealedData.
  rewrite bool_decide_eq_true_2 by reflexivity.
  cbv beta iota zeta. change (negb true) with false. cbv iota.
  change (0 <? 0) with false. cbv iota.
  (* emptyAuth *)
  assert (Hea : emptyAuth ((if ea then empty_auth_tlv else [])
                             ++ [0x02; Z.of_nat (length d)] ++ d
                             ++ 0x04 :: lb1 ++ pubkey
                             ++ 0x04 :: lb2 ++ privkey)
                = (0, [0x02; Z.of_nat (length d)] ++ d
                        ++ 0x04 :: lb1 ++ pubkey ++ 0x04 :: lb2 ++ privkey)).
  { unfold emptyAuth. destruct ea.
    - destruct (der_tlv_element 0xa0 [3] [0x01; 1; 1]
                  ([0x02; Z.of_nat (length d)] ++ d
                     ++ 0x04 :: lb1 ++ pubkey ++ 0x04 :: lb2 ++ privkey)
                  ltac:(discriminate) (der_header_short 3 ltac:(lia)))
        as [h Het].
      unfold empty_auth_tlv. cbn [app] in Het |- *. rewrite Het.
      reflexivity.
    - destruct (der_tlv_element 0x02 [Z.of_nat (length d)] d
                  (0x04 :: lb1 ++ pubkey ++ 0x04 :: lb2 ++ privkey)
                  ltac:(discriminate) (der_header_short (length d) ltac:(lia)))
        as [h Het].
      cbn [app] in Het |- *. rewrite Het. reflexivity. }
  cbn [app] in Hea |- *. rewrite Hea. cbv beta iota.
  change (0 <? 0) with false. cbv iota.
  (* parent *)
  destruct (field_element 0x02 tpm2_key_parent ctx_zero
              [Z.of_nat (length d)] d
              (0x04 :: lb1 ++ pubkey ++ 0x04 :: lb2 ++ privkey)
              ltac:(discriminate) (der_header_short (length d) ltac:(lia)))
    as [h2 H2].
  cbn [app] in H2. rewrite H2. unfold tpm2_key_parent.
  cbv beta iota zeta. change (0 <? 0) with false. cbv iota.
  (* pubkey *)
  destruct (field_element 0x04 tpm2_key_pub
              (mk_ctx (parent_loop d 0) (pub ctx_zero) (pub_len ctx_zero)
                      (priv ctx_zero) (priv_len ctx_zero))
              lb1 pubkey (0x04 :: lb2 ++ privkey)
              ltac:(discriminate) Hlb1)
    as [h3 H3].
  rewrite H3. unfold tpm2_key_pub.
  cbv beta iota zeta. change (0 <? 0) with false. cbv iota.
  (* privkey *)
  match goal with
  | |- context [field 0x04 tpm2_key_priv ?c _] =>
      destruct (field_element 0x04 tpm2_key_priv c lb2 privkey []
                  ltac:(discriminate) Hlb2)
        as [h4 H4]
  end.
  rewrite app_nil_r in H4. rewrite H4. unfold tpm2_key_priv.
  cbv beta iota zeta. change (0 <? 0) with false. cbv iota.
  cbn [parent pub pub_len priv priv_len]. rewrite Hkh. reflexivity.
Qed.

(** ** The codec: the encoder writes the wire format *)

Ltac len_norm :=
  repeat first [rewrite length_app | progress cbn [length app]].

Lemma encode_tlv_inv (cap : Z) (l : list Z) (tag : Z) (string : list Z)
      (len : Z) (l' : list Z) :
  encode_tlv cap (Ptr l) tag string len = Ptr l' ->
  0 <= len <= 0xffff ->
  exists lb s,
    l' = l ++ [tag] ++ lb ++ s /\
    slice string 0 len = Some s /\
    der_header_of lb len /\
    (1 <= length lb <= 3)%nat /\
    Z.of_nat (length l') <= cap.
Proof.
  unfold encode_tlv. intros H Hlen.
  destruct (cap - Z.of_nat (length l) <? 2); [discriminate |].
  destruct (asn1_encode_length (cap - Z.of_nat (length l) - 1) len)
    as [e | lb] eqn:Elb; [discriminate |].
  destruct (Z.ltb_spec (cap - Z.of_nat (length l) - 1 - Z.of_nat (length lb))
                       len) as [Hroom | Hroom]; [discriminate |].
  destruct (slice string 0 len) as [s |] eqn:Es; [| discriminate].
  injection H as <-.
  destruct (asn1_encode_length_header _ _ _ Elb Hlen) as [Hh Hl].
  destruct (slice_Some_length _ _ _ _ Es) as [Hs _].
  exists lb, s. repeat split; try assumption; try lia.
  len_norm. lia.
Qed.

Lemma encode_tlv_ok (cap : Z) (l : list Z) (tag : Z) (string s : list Z)
      (len : Z) :
  0 <= len <= 0xffff ->
  slice string 0 len = Some s ->
  len + 4 <= cap - Z.of_nat (length l) ->
  exists l', encode_tlv cap (Ptr l) tag string len = Ptr l'.
Proof.
  intros Hlen Hs Hroom. unfold encode_tlv.
  destruct (Z.ltb_spec (cap - Z.of_nat (length l)) 2); [lia |].
  destruct (asn1_encode_length_ok (cap - Z.of_nat (length l) - 1) len
                                  Hlen ltac:(lia)) as [lb Elb].
  rewrite Elb.
  destruct (asn1_encode_length_header _ _ _ Elb Hlen) as [_ Hl].
  destruct (Z.ltb_spec (cap - Z.of_nat (length l) - 1 - Z.of_nat (length lb))
                       len); [lia |].
  rewrite Hs. eexists. reflexivity.
Qed.

Lemma asn1_encode_sequence_inv (seq out stored : list Z) :
  asn1_encode_sequence MAX_BLOB_SIZE seq (Z.of_nat (length seq))
  = (Ptr out, stored) ->
  exists lb,
    out = 0x30 :: lb ++ seq /\ stored = out /\
    der_header_of lb (Z.of_nat (length seq)) /\
    Z.of_nat (length out) <= MAX_BLOB_SIZE.
Proof.
  unfold asn1_encode_sequence. intros H.
  destruct (MAX_BLOB_SIZE <? 2); [discriminate |].
  destruct (asn1_encode_length (MAX_BLOB_SIZE - 1) (Z.of_nat (length seq)))
    as [e | lb] eqn:Elb; [discriminate |].
  destruct (Z.ltb_spec (MAX_BLOB_SIZE - 1 - Z.of_nat (length lb))
                       (Z.of_nat (length seq))) as [Hroom | Hroom];
    [discriminate |].
  rewrite slice_all in H. injection H as <- <-.
  assert (Hlen : 0 <= Z.of_nat (length seq) <= 0xffff)
    by (unfold MAX_BLOB_SIZE in Hroom; lia).
  destruct (asn1_encode_length_header _ _ _ Elb Hlen) as [Hh Hl].
  exists lb. repeat split; try assumption.
  len_norm. lia.
Qed.

Lemma asn1_encode_sequence_ok (seq : list Z) :
  Z.of_nat (length seq) + 4 <= MAX_BLOB_SIZE ->
  exists out,
    asn1_encode_sequence MAX_BLOB_SIZE seq (Z.of_nat (length seq))
    = (Ptr out, out).
Proof.
  intros Hroom. unfold asn1_encode_sequence.
  change (MAX_BLOB_SIZE <? 2) with false. cbv iota.
  assert (Hlen : 0 <= Z.of_nat (length seq) <= 0xffff)
    by (unfold MAX_BLOB_SIZE in Hroom; lia).
  destruct (asn1_encode_length_ok (MAX_BLOB_SIZE - 1) (Z.of_nat (length seq))
                                  Hlen ltac:(unfold MAX_BLOB_SIZE; lia))
    as [lb Elb].
  rewrite Elb.
  destruct (asn1_encode_length_header _ _ _ Elb Hlen) as [_ Hl].
  destruct (Z.ltb_spec (MAX_BLOB_SIZE - 1 - Z.of_nat (length lb))
                       (Z.of_nat (length seq))); [lia |].
  rewrite slice_all. eexists. reflexivity.
Qed.

Lemma encode_scratch_wire (o : trusted_key_options) (A B tail : list Z) :
  is_u32 (keyhandle o) ->
  Z.of_nat (length A) <= 0xffff -> Z.of_nat (length B) <= 0xffff ->
  (forall seq,
      encode_scratch o (A ++ B ++ tail) (Z.of_nat (length A))
                     (Z.of_nat (length B)) = inr (Ptr seq) ->
      exists d lb1 lb2,
        seq = oid_tlv ++ (if blobauth_len o =? 0 then empty_auth_tlv else [])
              ++ [0x02; Z.of_nat (length d)] ++ d
              ++ 0x04 :: lb1 ++ B ++ 0x04 :: lb2 ++ A /\
        der_header_of lb1 (Z.of_nat (length B)) /\
        der_header_of lb2 (Z.of_nat (length A)) /\
        (1 <= length d <= 5)%nat /\
        parent_loop d 0 = keyhandle o) /\
  (Z.of_nat (length A) + Z.of_nat (length B) + 28 <= SCRATCH_SIZE ->
   exists seq,
     encode_scratch o (A ++ B ++ tail) (Z.of_nat (length A))
                    (Z.of_nat (length B)) = inr (Ptr seq) /\
     Z.of_nat (length seq)
     <= Z.of_nat (length A) + Z.of_nat (length B) + 28) /\
  (forall e,
      encode_scratch o (A ++ B ++ tail) (Z.of_nat (length A))
                     (Z.of_nat (length B)) = inl e ->
      e = - EINVAL).
Proof.
  intros Hkh HA HB. unfold encode_scratch.
  assert (Hoid : asn1_encode_oid SCRATCH_SIZE (Ptr []) tpm2key_oid
                 = Ptr oid_tlv) by reflexivity.
  assert (Hbool : asn1_encode_boolean 3 (Ptr []) true = Ptr [0x01; 1; 1])
    by reflexivity.
  assert (Htag : asn1_encode_tag SCRATCH_SIZE (Ptr oid_tlv) 0 [0x01; 1; 1]
                                 (Z.of_nat (length [0x01; 1; 1]))
                 = Ptr (oid_tlv ++ empty_auth_tlv)) by reflexivity.
  rewrite Hoid, Hbool, Htag. cbv zeta.
  set (hdr := oid_tlv ++ (if blobauth_len o =? 0 then empty_auth_tlv else [])).
  assert (Hhdr : (8 <= length hdr <= 13)%nat).
  { unfold hdr. destruct (blobauth_len o =? 0); cbn; lia. }
  assert (Htagged :
            (if blobauth_len o =? 0
             then @inr Z errptr (Ptr (oid_tlv ++ empty_auth_tlv))
             else inr (Ptr oid_tlv)) = inr (Ptr hdr)).
  { unfold hdr. destruct (blobauth_len o =? 0);
      [reflexivity | rewrite app_nil_r; reflexivity]. }
  rewrite Htagged. clear Htagged Hoid Hbool Htag.
  destruct (Z.gtb_spec (Z.of_nat (length hdr) + Z.of_nat (length B)
                        + Z.of_nat (length A) + 14) SCRATCH_SIZE)
    as [Hbig | Hfit].
  { split; [discriminate | split; [intros; lia |]].
    intros e [= <-]. reflexivity. }
  destruct (asn1_encode_integer_u32 SCRATCH_SIZE hdr (keyhandle o) Hkh
                                    ltac:(lia))
    as (d & Hint & Hd & Hpar).
  rewrite Hint. unfold asn1_encode_octet_string.
  rewrite Nat2Z.id, drop_app_length.
  set (l0 := hdr ++ [0x02; Z.of_nat (length d)] ++ d).
  assert (Hl0 : length l0 = (length hdr + 2 + length d)%nat).
  { unfold l0. len_norm. lia. }
  destruct (encode_tlv_ok SCRATCH_SIZE l0 0x04 (B ++ tail) B
                          (Z.of_nat (length B)) ltac:(lia)
                          (slice_head B tail) ltac:(lia))
    as [l1 Hl1].
  rewrite Hl1.
  destruct (encode_tlv_inv _ _ _ _ _ _ Hl1 ltac:(lia))
    as (lb1 & s1 & -> & Hs1 & Hh1 & Hlb1 & _).
  rewrite slice_head in Hs1. injection Hs1 as <-.
  set (l1 := l0 ++ [0x04] ++ lb1 ++ B) in *.
  assert (Hl1len : length l1 = (length l0 + 1 + length lb1 + length B)%nat).
  { unfold l1. len_norm. lia. }
  split; [| split; [| discriminate]].
  - intros seq Hseq.
    remember (encode_tlv SCRATCH_SIZE (Ptr l1) 4 (A ++ B ++ tail)
                         (Z.of_nat (length A))) as r eqn:Er.
    injection Hseq as ->. symmetry in Er. rename Er into Hseq.
    destruct (encode_tlv_inv _ _ _ _ _ _ Hseq ltac:(lia))
      as (lb2 & s2 & -> & Hs2 & Hh2 & Hlb2 & _).
    rewrite slice_head in Hs2. injection Hs2 as <-.
    exists d, lb1, lb2. repeat split; try assumption; try lia.
    unfold l1, l0, hdr. rewrite <- !app_assoc. reflexivity.
  - intros Hsmall.
    destruct (encode_tlv_ok SCRATCH_SIZE l1 0x04 (A ++ B ++ tail) A
                            (Z.of_nat (length A)) ltac:(lia)
                            (slice_head A (B ++ tail)) ltac:(lia))
      as [l2 Hl2].
    rewrite Hl2. exists l2. split; [reflexivity |].
    destruct (encode_tlv_inv _ _ _ _ _ _ Hl2 ltac:(lia))
      as (lb2 & s2 & -> & Hs2 & Hh2 & Hlb2 & _).
    destruct (slice_Some_length _ _ _ _ Hs2) as [Hs2len _].
    len_norm. lia.
Qed.

Lemma tpm2b_length (c : list Z) : length (tpm2b c) = (2 + length c)%nat.
Proof. unfold tpm2b. rewrite length_app. reflexivity. Qed.

Lemma rd_app (a r : list Z) (k : Z) :
  0 <= k -> rd (a ++ r) (Z.of_nat (length a) + k) = rd r k.
Proof.
  intros Hk. unfold rd.
  destruct (Z.ltb_spec (Z.of_nat (length a) + k) 0); [lia |].
  destruct (Z.ltb_spec k 0); [lia |].
  rewrite nth_error_app2 by lia. f_equal. lia.
Qed.

Lemma get_unaligned_be16_app (a r : list Z) :
  get_unaligned_be16 (a ++ r) (Z.of_nat (length a)) = get_unaligned_be16 r 0.
Proof.
  unfold get_unaligned_be16.
  rewrite <- (Z.add_0_r (Z.of_nat (length a))) at 1.
  rewrite !rd_app by lia. reflexivity.
Qed.

Lemma get_unaligned_be16_tpm2b (c r : list Z) :
  Z.of_nat (length c) <= 0xffff ->
  get_unaligned_be16 (tpm2b c ++ r) 0 = Some (Z.of_nat (length c)).
Proof.
  intros Hc. unfold tpm2b, be16_bytes, get_unaligned_be16, rd.
  change (0 <? 0) with false. change (0 + 1 <? 0) with false.
  change (Z.to_nat 0) with 0%nat. change (Z.to_nat (0 + 1)) with 1%nat.
  cbn [app nth_error].
  rewrite be16_join by lia. reflexivity.
Qed.

Lemma tpm2_key_encode_wire (K : collaborators) (w : world)
      (privc pubc tail : list Z) (len : Z) :
  is_u32 (keyhandle (options w)) ->
  Z.of_nat (length privc) <= 0xfffd -> Z.of_nat (length pubc) <= 0xfffd ->
  (forall n w1,
      tpm2_key_encode K (tpm2b privc ++ tpm2b pubc ++ tail) len w = Done n w1 ->
      0 <= n ->
      exists enc,
        is_tpm2key (keyhandle (options w)) (blobauth_len (options w) =? 0)
                   (tpm2b pubc) (tpm2b privc) enc /\
        n = Z.of_nat (length enc) /\ n <= MAX_BLOB_SIZE /\
        blob (payload w1) = enc ++ skipn (length enc) (blob (payload w)) /\
        options w1 = options w) /\
  (k_kmalloc K (trace w) SCRATCH_SIZE <> None ->
   Z.of_nat (length privc) + Z.of_nat (length pubc) + 36 <= MAX_BLOB_SIZE ->
   exists n w1,
     tpm2_key_encode K (tpm2b privc ++ tpm2b pubc ++ tail) len w = Done n w1 /\
     0 < n).
Proof.
  intros Hkh Hpriv Hpub.
  set (A := tpm2b privc). set (B := tpm2b pubc).
  assert (HA : Z.of_nat (length A) = Z.of_nat (length privc) + 2)
    by (unfold A; rewrite tpm2b_length; lia).
  assert (HB : Z.of_nat (length B) = Z.of_nat (length pubc) + 2)
    by (unfold B; rewrite tpm2b_length; lia).
  remember (tpm2_key_encode K (A ++ B ++ tail) len w) as r eqn:Er.
  unfold tpm2_key_encode in Er. unfold bind at 1 in Er.
  assert (Hw0 : options (final (kmalloc K SCRATCH_SIZE w)) = options w /\
                payload (final (kmalloc K SCRATCH_SIZE w)) = payload w).
  { split; [apply (kmalloc_frame K same_options)
           | apply (kmalloc_frame K same_payload)]. }
  destruct Hw0 as [Hw0o Hw0p].
  destruct (kmalloc K SCRATCH_SIZE w) as [scratch w0 | f w0] eqn:Ekm.
  2: { unfold kmalloc in Ekm.
       destruct (k_kmalloc K (trace w) SCRATCH_SIZE); discriminate. }
  cbn [final] in Hw0o, Hw0p.
  unfold bind at 1 in Er. unfold A at 1 in Er.
  rewrite get_unaligned_be16_tpm2b in Er by lia. cbn [must ret] in Er.
  replace (u16 (Z.of_nat (length privc) + 2)) with (Z.of_nat (length A)) in Er
    by (unfold u16; rewrite Z.mod_small; lia).
  unfold bind at 1 in Er. fold A in Er.
  rewrite get_unaligned_be16_app in Er. unfold B at 1 in Er.
  rewrite get_unaligned_be16_tpm2b in Er by lia. cbn [must ret] in Er.
  replace (u16 (Z.of_nat (length pubc) + 2)) with (Z.of_nat (length B)) in Er
    by (unfold u16; rewrite Z.mod_small; lia).
  fold B in Er.
  destruct scratch as [sid |].
  2: { subst r. split.
       - intros n w1 [= <- <-]. unfold ENOMEM. lia.
       - intros Hmem _. exfalso. apply Hmem.
         unfold kmalloc in Ekm.
         destruct (k_kmalloc K (trace w) SCRATCH_SIZE);
           [discriminate | reflexivity]. }
  unfold bind at 1, get in Er. rewrite Hw0o in Er.
  destruct (encode_scratch_wire (options w) A B tail Hkh ltac:(lia) ltac:(lia))
    as (Hshape & Hsmall & Herr).
  destruct (encode_scratch (options w) (A ++ B ++ tail)
                           (Z.of_nat (length A)) (Z.of_nat (length B)))
    as [e | [seq | e |]] eqn:Escr.
  - (* a jump to err: only the failed size check *)
    unfold bind, kfree, modify, ret in Er. subst r. split.
    + intros n w1 [= <- <-] Hn.
      rewrite (Herr e eq_refl) in Hn. unfold EINVAL in Hn. lia.
    + intros _ Hsz. destruct Hsmall as (seq & Hseq & _);
        [unfold SCRATCH_SIZE, PAGE_SIZE, MAX_BLOB_SIZE in *; lia |].
      discriminate.
  - (* the scratch buffer holds the content of the sequence *)
    destruct (Hshape seq eq_refl) as (d & lb1 & lb2 & Hseq & Hh1 & Hh2 & Hd & Hp).
    destruct (asn1_encode_sequence MAX_BLOB_SIZE seq (Z.of_nat (length seq)))
      as [work1 stored] eqn:Esq.
    unfold bind at 1, modify in Er.
    destruct work1 as [out | e |].
    + destruct (asn1_encode_sequence_inv _ _ _ Esq)
        as (lb & -> & -> & Hh & Hout).
      unfold bind, kfree, modify, ret in Er. subst r. split.
      * intros n w1 [= <- <-] _.
        exists (0x30 :: lb ++ seq).
        split; [| split; [reflexivity | split; [exact Hout | split]]].
        -- exists d, lb1, lb2, lb, seq.
           repeat split; try assumption; try lia.
        -- cbn [payload set_payload log set_heap blob set_blob].
           rewrite Hw0p. unfold memcpy. reflexivity.
        -- cbn [options set_payload log set_heap]. exact Hw0o.
      * intros _ _. eexists _, _. split; [reflexivity |]. cbn [length]. lia.
    + assert (He : e = - EINVAL).
      { revert Esq. unfold asn1_encode_sequence, asn1_encode_length.
        rewrite slice_all.
        repeat match goal with
               | |- context [if ?c then _ else _] => destruct c
               end;
          intros [= <-]; reflexivity. }
      unfold bind, kfree, modify, ret in Er. subst r e. split.
      * intros n w1 [= <- <-] Hn. unfold EINVAL in Hn. lia.
      * intros _ Hsz. exfalso.
        destruct Hsmall as (seq' & Hseq' & Hlen');
          [unfold SCRATCH_SIZE, PAGE_SIZE, MAX_BLOB_SIZE in *; lia |].
        injection Hseq' as <-.
        destruct (asn1_encode_sequence_ok seq) as [out Hok]; [lia |].
        rewrite Hok in Esq. discriminate.
    + exfalso. revert Esq. unfold asn1_encode_sequence.
      rewrite slice_all.
      destruct (MAX_BLOB_SIZE <? 2); [discriminate |].
      destruct (asn1_encode_length (MAX_BLOB_SIZE - 1)
                                   (Z.of_nat (length seq)));
        [discriminate |].
      destruct (_ <? _); discriminate.
  - unfold crash in Er. subst r.
    split; [intros n w1; discriminate |].
    intros _ Hsz. destruct Hsmall as (seq & Hseq & _);
      [unfold SCRATCH_SIZE, PAGE_SIZE, MAX_BLOB_SIZE in *; lia |].
    discriminate.
  - unfold crash in Er. subst r.
    split; [intros n w1; discriminate |].
    intros _ Hsz. destruct Hsmall as (seq & Hseq & _);
      [unfold SCRATCH_SIZE, PAGE_SIZE, MAX_BLOB_SIZE in *; lia |].
    discriminate.
Qed.

Lemma is_tpm2key_length (kh : Z) (ea : bool) (pubkey privkey enc : list Z) :
  is_tpm2key kh ea pubkey privkey enc ->
  (length pubkey + length privkey + 14 <= length enc)%nat.
Proof.
  intros (d & lb1 & lb2 & lb & body & -> & -> & _ & _ & _ & Hd & _).
  unfold oid_tlv. len_norm. lia.
Qed.

Lemma memcpy_two (obj a b : list Z) :
  (length a + length b <= length obj)%nat ->
  memcpy (memcpy obj 0 a) (length a) b
  = a ++ b ++ skipn (length a + length b) obj.
Proof.
  intros Hlen. unfold memcpy at 1.
  assert (Hin : memcpy obj 0 a = a ++ skipn (length a) obj) by reflexivity.
  rewrite Hin, take_app_length. f_equal. f_equal.
  rewrite drop_app_ge by lia.
  rewrite drop_drop. f_equal. lia.
Qed.

Lemma tpm2_key_decode_wire (K : collaborators) (w : world) (kh : Z)
      (ea : bool) (pubkey privkey enc junk : list Z) :
  blob (payload w) = enc ++ junk ->
  blob_len (payload w) = Z.of_nat (length enc) ->
  Z.of_nat (length enc) <= MAX_BLOB_SIZE ->
  is_tpm2key kh ea pubkey privkey enc ->
  k_kmalloc K (trace w)
            (Z.of_nat (length privkey) + Z.of_nat (length pubkey) + 4)
  <> None ->
  exists id w2 margin,
    tpm2_key_decode K w = Done (0, Some id) w2 /\
    options w2 = set_keyhandle kh (options w) /\
    payload w2 = payload w /\
    heap w2 !! id = Some (privkey ++ pubkey ++ margin) /\
    length margin = 4%nat.
Proof.
  intros Hblob Hlen Hmax Henc Hmem.
  pose proof (is_tpm2key_length _ _ _ _ _ Henc) as Hsz.
  unfold MAX_BLOB_SIZE in Hmax.
  unfold tpm2_key_decode. unfold bind at 1, get. unfold bind at 1.
  rewrite Hblob, Hlen.
  rewrite (asn1_ber_decoder_tpm2key kh ea pubkey privkey enc junk Henc)
    by lia.
  cbn [must ret priv_len pub_len priv pub parent].
  change (0 <? 0) with false. cbv iota.
  assert (Hu1 : u32 (Z.of_nat (length privkey)) = Z.of_nat (length privkey))
    by (unfold u32; apply Z.mod_small; lia).
  assert (Hu2 : u32 (Z.of_nat (length pubkey)) = Z.of_nat (length pubkey))
    by (unfold u32; apply Z.mod_small; lia).
  rewrite Hu1, Hu2.
  assert (Hu3 : u32 (Z.of_nat (length privkey) + Z.of_nat (length pubkey))
                = Z.of_nat (length privkey) + Z.of_nat (length pubkey))
    by (unfold u32; apply Z.mod_small; lia).
  assert (Hu4 : u32 (Z.of_nat (length privkey) + Z.of_nat (length pubkey) + 4)
                = Z.of_nat (length privkey) + Z.of_nat (length pubkey) + 4)
    by (unfold u32; apply Z.mod_small; lia).
  rewrite Hu3, Hu4.
  destruct (Z.gtb_spec (Z.of_nat (length privkey) + Z.of_nat (length pubkey))
                       MAX_BLOB_SIZE) as [Hbig | _];
    [unfold MAX_BLOB_SIZE in Hbig; lia |].
  unfold bind at 1, kmalloc.
  destruct (k_kmalloc K (trace w)
              (Z.of_nat (length privkey) + Z.of_nat (length pubkey) + 4))
    as [stale |]; [| contradiction].
  unfold bind at 1, modify. unfold bind at 1.
  rewrite slice_all. cbn [must ret]. unfold bind at 1.
  rewrite slice_all. cbn [must ret]. unfold bind at 1.
  cbn [heap set_options set_heap log].
  rewrite lookup_insert_eq.
  set (n := Z.to_nat (Z.of_nat (length privkey) + Z.of_nat (length pubkey) + 4)).
  set (obj := take n (stale ++ repeat 0 n)).
  assert (Hobj : length obj = n).
  { unfold obj. rewrite length_take, length_app, repeat_length. lia. }
  rewrite Nat2Z.id, memcpy_two by (rewrite Hobj; unfold n; lia).
  eexists _, _, _. split; [reflexivity |].
  cbn [options payload heap set_heap set_options log].
  split; [reflexivity |]. split; [reflexivity |].
  split; [apply lookup_insert_eq |].
  rewrite length_drop, Hobj. unfold n. lia.
Qed.

(** ** The codec: encode, then decode *)

(** C1, as the code has it.  Take a private and a public area, each
    prefixed by its length, at the start of [src], a 32-bit parent handle
    in the options, and an allocator that has memory.  Whenever
    tpm2_key_encode returns a length [n] (the encoding has fitted the
    MAX_BLOB_SIZE bytes of [payload->blob]), tpm2_key_decode on that blob
    with [blob_len = n] returns 0, stores the parent handle in
    [options->keyhandle] whatever it held, and its buffer is the private
    area followed by the public area, byte for byte, and four bytes of
    margin.  The encoder does return such a length whenever the two
    contents and 36 bytes of prefixes and headers fit MAX_BLOB_SIZE. *)
Theorem tpm2_key_encode_decode_roundtrip
        (K : collaborators) (w : world) (privc pubc tail : list Z)
        (len h0 : Z) :
  (forall tr size, k_kmalloc K tr size <> None) ->
  is_u32 (keyhandle (options w)) ->
  Z.of_nat (length privc) <= 0xfffd -> Z.of_nat (length pubc) <= 0xfffd ->
  (forall n w1,
      tpm2_key_encode K (tpm2b privc ++ tpm2b pubc ++ tail) len w = Done n w1 ->
      0 <= n ->
      n <= MAX_BLOB_SIZE /\
      exists id w2 margin,
        tpm2_key_decode K (reload n h0 w1)
        = Done (0, Some id) w2 /\
        keyhandle (options w2) = keyhandle (options w) /\
        heap w2 !! id = Some (tpm2b privc ++ tpm2b pubc ++ margin) /\
        length margin = 4%nat) /\
  (Z.of_nat (length privc) + Z.of_nat (length pubc) + 36 <= MAX_BLOB_SIZE ->
   exists n w1,
     tpm2_key_encode K (tpm2b privc ++ tpm2b pubc ++ tail) len w = Done n w1 /\
     0 < n).
Proof.
  intros Hmem Hkh Hpriv Hpub.
  destruct (tpm2_key_encode_wire K w privc pubc tail len Hkh Hpriv Hpub)
    as [Hshape Hfits].
  split; [| intros Hsz; apply Hfits; [apply Hmem | exact Hsz]].
  intros n w1 Hrun Hn.
  destruct (Hshape n w1 Hrun Hn) as (enc & Henc & -> & Hmax & Hblob & Hopt).
  split; [exact Hmax |].
  destruct (tpm2_key_decode_wire K
              (reload (Z.of_nat (length enc)) h0 w1)
              (keyhandle (options w)) (blobauth_len (options w) =? 0)
              (tpm2b pubc) (tpm2b privc) enc
              (skipn (length enc) (blob (payload w))))
    as (id & w2 & margin & Hdec & Ho & _ & Hheap & Hmargin);
    try assumption; try reflexivity; [apply Hmem |].
  exists id, w2, margin. repeat split; try assumption.
  rewrite Ho. destruct (options _); reflexivity.
Qed.

Lemma tpm2_key_encode_decode_roundtrip_witness :
  exists id w2 margin,
    tpm2_key_decode (Examples.platform 0 0 [])
      (reload 40 0
         (final (tpm2_key_encode (Examples.platform 0 0 [])
                                 RoundtripExamples.small_src 14
                                 RoundtripExamples.sealing_world)))
    = Done (0, Some id) w2 /\
    keyhandle (options w2) = 0x81000001 /\
    heap w2 !! id
    = Some (DecodeExamples.private_area ++ DecodeExamples.public_area
              ++ margin) /\
    length margin = 4%nat.
Proof.
  destruct (tpm2_key_encode_decode_roundtrip
              (Examples.platform 0 0 []) RoundtripExamples.sealing_world
              [0xde; 0xad] [0; 8; 0; 0xb; 0; 0; 0; 0x12] [0xff; 0xff] 14 0)
    as [Hback _].
  - intros tr size. discriminate.
  - unfold is_u32. cbn. lia.
  - cbn. lia.
  - cbn. lia.
  - destruct (Hback 40
                (final (tpm2_key_encode (Examples.platform 0 0 [])
                                        RoundtripExamples.small_src 14
                                        RoundtripExamples.sealing_world)))
      as (_ & Hdec); [vm_compute; reflexivity | lia |].
    exact Hdec.
Defined.

(** C1 as stated fails at the bound: a private and a public area of 256
    bytes each make 512 bytes of content, MAX_BLOB_SIZE, and
    tpm2_key_encode returns -EINVAL, since the encoding does not fit the
    MAX_BLOB_SIZE bytes of [payload->blob]. *)
Lemma tpm2_key_roundtrip_counterexample :
  Z.of_nat (length RoundtripExamples.full_src) = MAX_BLOB_SIZE /\
  exists w1,
    tpm2_key_encode (Examples.platform 0 0 []) RoundtripExamples.full_src
                    MAX_BLOB_SIZE RoundtripExamples.sealing_world
    = Done (- EINVAL) w1.
Proof.
  split; [reflexivity |]. eexists. vm_compute. reflexivity.
Qed.

(** * Further properties of the code *)

(** ** Rules for the events a call emits *)

Section EmitsRules.

Context (P : event -> bool).

Lemma emits_refl (w : world) : emits P w w.
Proof. exists []. split; [symmetry; apply app_nil_r | reflexivity]. Qed.

Lemma emits_trans (a b c : world) : emits P a b -> emits P b c -> emits P a c.
Proof.
  intros (e1 & H1 & F1) (e2 & H2 & F2). exists (e1 ++ e2). split.
  - rewrite H2, H1, app_assoc. reflexivity.
  - rewrite forallb_app, F1, F2. reflexivity.
Qed.

Lemma emits_quiet (w w' : world) : trace w' = trace w -> emits P w w'.
Proof.
  intros H. exists []. split; [rewrite app_nil_r; exact H | reflexivity].
Qed.

Lemma emits_log (e : event) (w : world) : P e = true -> emits P w (log e w).
Proof.
  intros H. exists [e]. split; [reflexivity |]. cbn. rewrite H. reflexivity.
Qed.

Lemma emits_log_after (e : event) (w w' : world) :
  P e = true -> trace w' = trace w -> emits P w (log e w').
Proof.
  intros H Ht. exists [e]. split; [cbn; rewrite Ht; reflexivity |].
  cbn. rewrite H. reflexivity.
Qed.

Lemma emits_ret {A} (a : A) : preserves (emits P) (ret a).
Proof. intros w. apply emits_refl. Qed.

Lemma emits_crash {A} (f : fault) : preserves (emits P) (@crash A f).
Proof. intros w. apply emits_refl. Qed.

Lemma emits_get : preserves (emits P) get.
Proof. intros w. apply emits_refl. Qed.

Lemma emits_must {A} (o : option A) : preserves (emits P) (must o).
Proof. destruct o; intros w; apply emits_refl. Qed.

Lemma emits_bind {A B} (m : M A) (k : A -> M B) :
  preserves (emits P) m -> (forall a, preserves (emits P) (k a)) ->
  preserves (emits P) (bind m k).
Proof.
  intros Hm Hk w. unfold bind. specialize (Hm w).
  destruct (m w) as [a w' | f w']; cbn in *; [| exact Hm].
  eapply emits_trans; [exact Hm | apply Hk].
Qed.

Lemma emits_modify_quiet (f : world -> world) :
  (forall w, trace (f w) = trace w) -> preserves (emits P) (modify f).
Proof. intros Hf w. apply emits_quiet, Hf. Qed.

Lemma emits_modify_log (e : event) :
  P e = true -> preserves (emits P) (modify (log e)).
Proof. intros H w. apply emits_log, H. Qed.

Section Calls.

Context (K : collaborators).

Lemma kmalloc_emits (size : Z) :
  P (EvKmalloc size) = true -> preserves (emits P) (kmalloc K size).
Proof.
  intros H w. unfold kmalloc.
  destruct (k_kmalloc K (trace w) size); cbn [final].
  - apply emits_log_after; [exact H | reflexivity].
  - apply emits_log, H.
Qed.

Lemma kfree_emits (id : nat) :
  P (EvKfree id) = true -> preserves (emits P) (kfree id).
Proof. intros H w. apply emits_log_after; [exact H | reflexivity]. Qed.

Lemma tpm_try_get_ops_emits :
  P EvTryGetOps = true -> preserves (emits P) (tpm_try_get_ops K).
Proof. intros H w. apply emits_log, H. Qed.

Lemma tpm2_start_auth_session_emits :
  P EvStartAuthSession = true ->
  preserves (emits P) (tpm2_start_auth_session K).
Proof. intros H w. apply emits_log, H. Qed.

Lemma tpm_buf_init_emits (tag ordinal : Z) :
  P (EvBufInit ordinal) = true ->
  preserves (emits P) (tpm_buf_init K tag ordinal).
Proof. intros H w. apply emits_log, H. Qed.

Lemma tpm_buf_init_sized_emits :
  P EvBufInitSized = true -> preserves (emits P) (tpm_buf_init_sized K).
Proof. intros H w. apply emits_log, H. Qed.

Lemma tpm_buf_append_name_emits (buf : tpm_buf) (handle : Z) :
  P (EvAppendName handle) = true ->
  preserves (emits P) (tpm_buf_append_name K buf handle).
Proof. intros H w. apply emits_log, H. Qed.

Lemma tpm_buf_append_hmac_session_emits buf attributes passphrase len :
  P (EvAppendHmacSession attributes) = true ->
  preserves (emits P)
    (tpm_buf_append_hmac_session K buf attributes passphrase len).
Proof. intros H w. apply emits_log, H. Qed.

Lemma tpm_buf_append_hmac_session_opt_emits buf attributes passphrase len :
  P (EvAppendHmacSession attributes) = true ->
  preserves (emits P)
    (tpm_buf_append_hmac_session_opt K buf attributes passphrase len).
Proof. intros H w. apply emits_log, H. Qed.

Lemma tpm_buf_fill_hmac_session_emits (buf : tpm_buf) :
  P EvFillHmacSession = true ->
  preserves (emits P) (tpm_buf_fill_hmac_session K buf).
Proof. intros H w. apply emits_log, H. Qed.

Lemma tpm_transmit_cmd_emits (buf : tpm_buf) (n : Z) :
  (forall cmd, P (EvTransmit cmd) = true) ->
  preserves (emits P) (tpm_transmit_cmd K buf n).
Proof. intros H w. apply emits_log, H. Qed.

Lemma tpm_buf_check_hmac_response_emits (buf : tpm_buf) (rc : Z) :
  P EvCheckHmacResponse = true ->
  preserves (emits P) (tpm_buf_check_hmac_response K buf rc).
Proof. intros H w. apply emits_log, H. Qed.

End Calls.

End EmitsRules.

(** walk a monadic body and collect the side conditions on [P] *)
Ltac emits_side := first [reflexivity | assumption | solve [auto]].

Ltac emits_walk :=
  repeat first
    [ progress cbv zeta
    | apply emits_ret | apply emits_crash | apply emits_get
    | apply emits_must
    | apply emits_modify_log; emits_side
    | apply emits_modify_quiet; intros ?; reflexivity
    | apply kmalloc_emits; emits_side
    | apply kfree_emits; emits_side
    | apply tpm_try_get_ops_emits; emits_side
    | apply tpm2_start_auth_session_emits; emits_side
    | apply tpm_buf_init_emits; emits_side
    | apply tpm_buf_init_sized_emits; emits_side
    | apply tpm_buf_append_name_emits; emits_side
    | apply tpm_buf_append_hmac_session_emits; emits_side
    | apply tpm_buf_append_hmac_session_opt_emits; emits_side
    | apply tpm_buf_fill_hmac_session_emits; emits_side
    | apply tpm_transmit_cmd_emits; emits_side
    | apply tpm_buf_check_hmac_response_emits; emits_side
    | assumption
    | apply emits_bind; [| intros ?]
    | match goal with
      | |- preserves _ (if ?b then _ else _) => destruct b
      | |- preserves _ (match ?x with _ => _ end) => destruct x
      end ].

Section EmitsCommands.

Context (K : collaborators) (P : event -> bool).

Lemma tpm2_key_encode_emits src len :
  (forall e, is_alloc_event e = true -> P e = true) ->
  preserves (emits P) (tpm2_key_encode K src len).
Proof.
  intros HP. unfold tpm2_key_encode.
  assert (forall sz, P (EvKmalloc sz) = true) by (intros; apply HP; reflexivity).
  assert (forall id, P (EvKfree id) = true) by (intros; apply HP; reflexivity).
  emits_walk.
Qed.

Lemma tpm2_key_decode_emits :
  (forall e, is_alloc_event e = true -> P e = true) ->
  preserves (emits P) (tpm2_key_decode K).
Proof.
  intros HP. unfold tpm2_key_decode.
  assert (forall sz, P (EvKmalloc sz) = true) by (intros; apply HP; reflexivity).
  emits_walk.
  apply emits_modify_quiet. intros w. destruct (heap w !! _); reflexivity.
Qed.

Lemma load_validate_emits :
  (forall e, is_alloc_event e = true -> P e = true) ->
  preserves (emits P) (load_validate K).
Proof.
  intros HP. unfold load_validate, load_decode, load_checks.
  pose proof (tpm2_key_decode_emits HP). emits_walk.
Qed.

End EmitsCommands.

(** ** Encode: the scratch page and the footprint *)

Lemma heap_alloc_free (h : gmap nat (list Z)) (obj : list Z) :
  delete (fresh (dom h)) (<[fresh (dom h) := obj]> h) = h.
Proof.
  rewrite delete_insert_eq. apply delete_id.
  apply not_elem_of_dom, is_fresh.
Qed.

(** run a monadic body on a state: open the monad operations, then split
    on the innermost scrutinee that is not yet decided *)
Ltac mopen :=
  unfold must; unfold bind, ret, crash, get, modify; cbv beta iota.

Ltac mcase :=
  match goal with
  | |- context [match ?x with _ => _ end] =>
      lazymatch x with
      | context [match _ with _ => _ end] => fail
      | _ => destruct x eqn:?
      end
  end; cbv beta iota.

Lemma encode_scratch_err (o : trusted_key_options) (src : list Z)
      (priv_len pub_len e : Z) :
  encode_scratch o src priv_len pub_len = inl e -> e = - EINVAL.
Proof.
  unfold encode_scratch.
  assert (Hoid : asn1_encode_oid SCRATCH_SIZE (Ptr []) tpm2key_oid
                 = Ptr oid_tlv) by reflexivity.
  assert (Hbool : asn1_encode_boolean 3 (Ptr []) true = Ptr [0x01; 1; 1])
    by reflexivity.
  assert (Htag : asn1_encode_tag SCRATCH_SIZE (Ptr oid_tlv) 0 [0x01; 1; 1]
                                 (Z.of_nat (length [0x01; 1; 1]))
                 = Ptr (oid_tlv ++ empty_auth_tlv)) by reflexivity.
  rewrite Hoid, Hbool, Htag. cbv zeta.
  destruct (blobauth_len o =? 0);
    match goal with
    | |- context [if ?c then _ else _] => destruct c
    end; intros [= <-] || discriminate; reflexivity.
Qed.

Lemma asn1_encode_sequence_err (seq stored : list Z) (len e : Z) :
  asn1_encode_sequence MAX_BLOB_SIZE seq len = (ErrPtr e, stored) ->
  e = - EINVAL.
Proof.
  unfold asn1_encode_sequence, asn1_encode_length.
  repeat match goal with
         | |- context [if ?c then _ else _] => destruct c
         | |- context [match slice ?a ?b ?c with _ => _ end] =>
             destruct (slice a b c)
         end; intros [= <-] || discriminate; reflexivity.
Qed.

Lemma der_header_nonempty (lb : list Z) (n : Z) :
  der_header_of lb n -> (1 <= length lb)%nat.
Proof.
  intros H. destruct lb; [| cbn; lia].
  specialize (H []). discriminate.
Qed.

(** X1.  Whatever [src] holds, a return of tpm2_key_encode leaves the heap
    as it found it: the scratch page, when it was obtained, has been
    freed, and kmalloc and kfree are the only calls made.  The options
    are untouched, and so is the payload except for [blob]. *)
Theorem tpm2_key_encode_footprint
        (K : collaborators) (src : list Z) (len n : Z) (w w1 : world) :
  tpm2_key_encode K src len w = Done n w1 ->
  heap w1 = heap w /\
  options w1 = options w /\
  payload w1 = set_blob (blob (payload w1)) (payload w) /\
  ((n = - ENOMEM /\ trace w1 = trace w ++ [EvKmalloc SCRATCH_SIZE] /\
    payload w1 = payload w) \/
   (exists id, heap w !! id = None /\
               trace w1 = trace w ++ [EvKmalloc SCRATCH_SIZE; EvKfree id])).
Proof.
  assert (Hp : forall p : trusted_key_payload, p = set_blob (blob p) p)
    by (intros []; reflexivity).
  assert (Hfresh : heap w !! fresh (dom (heap w)) = None)
    by apply not_elem_of_dom, is_fresh.
  unfold tpm2_key_encode, kmalloc, kfree. mopen.
  repeat mcase; try discriminate; intros [= <- <-];
    cbn [heap set_heap log set_payload options payload trace blob set_blob];
    rewrite ?heap_alloc_free;
    (split; [reflexivity | split; [reflexivity | split]]);
    try apply Hp; try reflexivity;
    first [ right; exists (fresh (dom (heap w)));
            split; [exact Hfresh | rewrite <- app_assoc; reflexivity]
          | left; repeat split; reflexivity ].
Qed.

Lemma tpm2_key_encode_footprint_witness :
  heap (final (tpm2_key_encode (Examples.platform 0 0 [])
                               RoundtripExamples.full_src 512
                               RoundtripExamples.sealing_world))
  = heap RoundtripExamples.sealing_world.
Proof.
  refine (proj1 (tpm2_key_encode_footprint
                   (Examples.platform 0 0 []) RoundtripExamples.full_src 512
                   (- EINVAL) RoundtripExamples.sealing_world _ _)).
  vm_compute. reflexivity.
Defined.

(** the returns of the encoder, and what each leaves in the payload *)
Lemma tpm2_key_encode_cases
      (K : collaborators) (src : list Z) (len n : Z) (w w1 : world) :
  tpm2_key_encode K src len w = Done n w1 ->
  payload w1 = set_blob (blob (payload w1)) (payload w) /\
  ((n = - ENOMEM /\ blob (payload w1) = blob (payload w)) \/
   n = - EINVAL \/
   (2 <= n <= MAX_BLOB_SIZE /\
    exists out,
      n = Z.of_nat (length (0x30 :: out)) /\
      blob (payload w1)
      = (0x30 :: out) ++ skipn (length (0x30 :: out)) (blob (payload w)))).
Proof.
  unfold tpm2_key_encode, kmalloc, kfree. mopen.
  repeat mcase; try discriminate; intros [= <- <-];
    cbn [heap set_heap log set_payload options payload trace blob set_blob];
    (split; [destruct (payload w); reflexivity |]);
    try (left; split; reflexivity);
    try match goal with
        | H : encode_scratch _ _ _ _ = inl _ |- _ =>
            right; left; exact (encode_scratch_err _ _ _ _ _ H)
        | H : asn1_encode_sequence _ _ _ = (ErrPtr _, _) |- _ =>
            right; left; exact (asn1_encode_sequence_err _ _ _ _ H)
        end.
  all: match goal with
       | H : asn1_encode_sequence _ _ _ = (Ptr _, _) |- _ =>
           destruct (asn1_encode_sequence_inv _ _ _ H)
             as (lb & -> & -> & Hh & Hmax)
       end.
  all: right; right; pose proof (der_header_nonempty _ _ Hh) as Hlb.
  all: split;
    [ revert Hmax; len_norm; lia
    | eexists; split; reflexivity ].
Qed.

(** X2.  Whatever [src] holds, tpm2_key_encode returns -ENOMEM, -EINVAL
    or a length between 2 and MAX_BLOB_SIZE.  A returned length is the
    number of bytes it has written at the start of [payload->blob], a
    SEQUENCE tag first; the bytes of the blob after them are kept.  On
    -ENOMEM the blob is untouched. *)
Theorem tpm2_key_encode_returns
        (K : collaborators) (src : list Z) (len n : Z) (w w1 : world) :
  tpm2_key_encode K src len w = Done n w1 ->
  (n = - ENOMEM /\ blob (payload w1) = blob (payload w)) \/
  n = - EINVAL \/
  (2 <= n <= MAX_BLOB_SIZE /\
   exists out,
     n = Z.of_nat (length (0x30 :: out)) /\
     blob (payload w1)
     = (0x30 :: out) ++ skipn (length (0x30 :: out)) (blob (payload w))).
Proof. intros H. exact (proj2 (tpm2_key_encode_cases K src len n w w1 H)). Qed.

Lemma tpm2_key_encode_returns_witness :
  2 <= 40 <= MAX_BLOB_SIZE /\
  exists out,
    blob (payload (final (tpm2_key_encode (Examples.platform 0 0 [])
                                          RoundtripExamples.small_src 14
                                          RoundtripExamples.sealing_world)))
    = (0x30 :: out)
        ++ skipn 40 (blob (payload RoundtripExamples.sealing_world)).
Proof.
  destruct (tpm2_key_encode_returns
              (Examples.platform 0 0 []) RoundtripExamples.small_src 14 40
              RoundtripExamples.sealing_world
              (final (tpm2_key_encode (Examples.platform 0 0 [])
                                      RoundtripExamples.small_src 14
                                      RoundtripExamples.sealing_world)))
    as [[H _] | [H | (Hn & out & Hlen & Hblob)]];
    [vm_compute; reflexivity | discriminate H | discriminate H |].
  split; [exact Hn |]. exists out.
  rewrite Hblob. f_equal. f_equal.
  apply Nat2Z.inj. rewrite <- Hlen. reflexivity.
Defined.

(** ** Encode: the wire format *)

Lemma land_0x80 (b : Z) :
  0 <= b < 256 -> (Z.land b 0x80 =? 0) = (b <? 0x80).
Proof.
  intros Hb. change 0x80 with (2 ^ 7) at 1.
  rewrite land_pow2 by lia.
  rewrite Z.testbit_odd, Z.shiftr_div_pow2 by lia. change (2 ^ 7) with 128.
  destruct (Z.ltb_spec b 128).
  - rewrite Z.div_small by lia. reflexivity.
  - assert (Hq : 1 <= b / 128 < 2)
      by (split; [apply Z.div_le_lower_bound | apply Z.div_lt_upper_bound];
          lia).
    replace (b / 128) with 1 by lia. reflexivity.
Qed.

Lemma asn1_encode_length_exact (data_len len : Z) (lb : list Z) :
  asn1_encode_length data_len len = inr lb ->
  0 <= len <= 0xffff -> lb = der_len len.
Proof.
  unfold asn1_encode_length, der_len. intros H Hlen.
  destruct (data_len <? 1); [discriminate |].
  destruct (Z.ltb_spec len 0); [lia |].
  destruct (Z.leb_spec len 0x7f); [congruence |].
  destruct (data_len <? 2); [discriminate |].
  destruct (Z.leb_spec len 0xff).
  { injection H as <-. rewrite land_0xff, Z.mod_small by lia. reflexivity. }
  destruct (data_len <? 3); [discriminate |].
  destruct (Z.leb_spec len 0xffff); [| lia].
  injection H as <-.
  rewrite !land_0xff, Z.shiftr_div_pow2 by lia. change (2 ^ 8) with 256.
  rewrite (Z.mod_small (len / 256))
    by (split; [apply Z.div_pos | apply Z.div_lt_upper_bound]; lia).
  reflexivity.
Qed.

Lemma encode_tlv_exact (cap : Z) (l : list Z) (tag : Z) (string : list Z)
      (len : Z) (l' : list Z) :
  encode_tlv cap (Ptr l) tag string len = Ptr l' ->
  0 <= len <= 0xffff ->
  exists s, slice string 0 len = Some s /\ l' = l ++ tag :: der_len len ++ s.
Proof.
  unfold encode_tlv. intros H Hlen.
  destruct (cap - Z.of_nat (length l) <? 2); [discriminate |].
  destruct (asn1_encode_length (cap - Z.of_nat (length l) - 1) len)
    as [e | lb] eqn:Elb; [discriminate |].
  apply asn1_encode_length_exact in Elb; [| exact Hlen]. subst lb.
  destruct (_ <? len); [discriminate |].
  destruct (slice string 0 len) as [s |]; [| discriminate].
  injection H as <-. exists s. split; reflexivity.
Qed.

Lemma asn1_encode_sequence_exact (seq out stored : list Z) :
  asn1_encode_sequence MAX_BLOB_SIZE seq (Z.of_nat (length seq))
  = (Ptr out, stored) ->
  out = der_element 0x30 seq /\ stored = out.
Proof.
  unfold asn1_encode_sequence. intros H.
  destruct (MAX_BLOB_SIZE <? 2); [discriminate |].
  destruct (asn1_encode_length (MAX_BLOB_SIZE - 1) (Z.of_nat (length seq)))
    as [e | lb] eqn:Elb; [discriminate |].
  destruct (Z.ltb_spec (MAX_BLOB_SIZE - 1 - Z.of_nat (length lb))
                       (Z.of_nat (length seq))) as [Hroom | Hroom];
    [discriminate |].
  rewrite slice_all in H. injection H as <- <-.
  apply asn1_encode_length_exact in Elb;
    [| unfold MAX_BLOB_SIZE in Hroom; lia].
  subst lb. split; reflexivity.
Qed.

Lemma encode_integer_loop_skip (i : nat) (I dl : Z) :
  0 <= I < 2 ^ (8 * Z.of_nat i) ->
  encode_integer_loop (S i) I false dl []
  = encode_integer_loop i I false dl [].
Proof.
  intros HI. cbn [encode_integer_loop negb andb].
  rewrite Z.shiftr_div_pow2, Z.div_small by lia.
  reflexivity.
Qed.

Lemma encode_integer_loop_take (i : nat) (I dl : Z) :
  2 ^ (8 * Z.of_nat i) <= I < 2 ^ (8 * Z.of_nat (S i)) ->
  Z.of_nat i + 2 <= dl ->
  encode_integer_loop (S i) I false dl []
  = inr ((if I / 2 ^ (8 * Z.of_nat i) <? 0x80 then [] else [0])
         ++ [I / 2 ^ (8 * Z.of_nat i)] ++ low_bytes i I).
Proof.
  intros HI Hdl. cbn [encode_integer_loop negb andb].
  pose proof (pow256_pos i) as HP.
  rewrite pow256_succ in HI.
  rewrite Z.shiftr_div_pow2 by lia.
  set (P := 2 ^ (8 * Z.of_nat i)) in *.
  assert (Hx : 1 <= I / P < 256).
  { split; [apply Z.div_le_lower_bound; lia
           | apply Z.div_lt_upper_bound; lia]. }
  rewrite (int32_small (I / P)) by lia.
  destruct (Z.eqb_spec (I / P) 0); [lia |].
  rewrite land_0x80 by lia.
  assert (Hu : u8 (I / P) = I / P).
  { unfold u8. apply Z.mod_small. change (2 ^ 8) with 256. lia. }
  rewrite Hu.
  destruct (I / P <? 128); cbn [negb].
  - destruct (Z.eqb_spec dl 0); [lia |].
    rewrite encode_integer_loop_found by lia. reflexivity.
  - destruct (Z.eqb_spec (dl - 1) 0); [lia |].
    rewrite encode_integer_loop_found by lia. reflexivity.
Qed.

Ltac divlia := Z.to_euclidean_division_equations; lia.

Lemma encode_integer_loop_u32 (I dl : Z) :
  0 < I < 2 ^ 32 -> 5 <= dl ->
  encode_integer_loop 8 I false dl [] = inr (der_u32 I).
Proof.
  intros HI Hdl.
  assert (P0 : 2 ^ (8 * Z.of_nat 0) = 1) by reflexivity.
  assert (P1 : 2 ^ (8 * Z.of_nat 1) = 0x100) by reflexivity.
  assert (P2 : 2 ^ (8 * Z.of_nat 2) = 0x10000) by reflexivity.
  assert (P3 : 2 ^ (8 * Z.of_nat 3) = 0x1000000) by reflexivity.
  assert (P4 : 2 ^ (8 * Z.of_nat 4) = 0x100000000) by reflexivity.
  assert (P5 : 2 ^ (8 * Z.of_nat 5) = 0x10000000000) by reflexivity.
  assert (P6 : 2 ^ (8 * Z.of_nat 6) = 0x1000000000000) by reflexivity.
  assert (P7 : 2 ^ (8 * Z.of_nat 7) = 0x100000000000000) by reflexivity.
  change (2 ^ 32) with 0x100000000 in HI.
  rewrite (encode_integer_loop_skip 7) by (rewrite P7; lia).
  rewrite (encode_integer_loop_skip 6) by (rewrite P6; lia).
  rewrite (encode_integer_loop_skip 5) by (rewrite P5; lia).
  rewrite (encode_integer_loop_skip 4) by (rewrite P4; lia).
  destruct (Z.lt_ge_cases I 0x1000000) as [H3 | H3].
  2: { rewrite (encode_integer_loop_take 3) by (rewrite ?P3, ?P4; cbn; lia).
       cbn [low_bytes]. rewrite !u8_int32, !Z.shiftr_div_pow2 by lia.
       rewrite P0, P1, P2, P3. unfold der_u32.
       repeat match goal with
              | |- context [?a <? ?b] => destruct (Z.ltb_spec a b)
              end; try (exfalso; divlia);
         cbn [app]; repeat f_equal; divlia. }
  rewrite (encode_integer_loop_skip 3) by (rewrite P3; lia).
  destruct (Z.lt_ge_cases I 0x10000) as [H2 | H2].
  2: { rewrite (encode_integer_loop_take 2) by (rewrite ?P2, ?P3; cbn; lia).
       cbn [low_bytes]. rewrite !u8_int32, !Z.shiftr_div_pow2 by lia.
       rewrite P0, P1, P2. unfold der_u32.
       repeat match goal with
              | |- context [?a <? ?b] => destruct (Z.ltb_spec a b)
              end; try (exfalso; divlia);
         cbn [app]; repeat f_equal; divlia. }
  rewrite (encode_integer_loop_skip 2) by (rewrite P2; lia).
  destruct (Z.lt_ge_cases I 0x100) as [H1 | H1].
  2: { rewrite (encode_integer_loop_take 1) by (rewrite ?P1, ?P2; cbn; lia).
       cbn [low_bytes]. rewrite !u8_int32, !Z.shiftr_div_pow2 by lia.
       rewrite P0, P1. unfold der_u32.
       repeat match goal with
              | |- context [?a <? ?b] => destruct (Z.ltb_spec a b)
              end; try (exfalso; divlia);
         cbn [app]; repeat f_equal; divlia. }
  rewrite (encode_integer_loop_skip 1) by (rewrite P1; lia).
  rewrite (encode_integer_loop_take 0) by (rewrite ?P0, ?P1; cbn; lia).
  cbn [low_bytes]. rewrite P0. unfold der_u32.
  repeat match goal with
         | |- context [?a <? ?b] => destruct (Z.ltb_spec a b)
         end; try (exfalso; divlia);
    cbn [app]; repeat f_equal; divlia.
Qed.

Lemma der_u32_length (I : Z) : (1 <= length (der_u32 I) <= 5)%nat.
Proof.
  unfold der_u32.
  repeat match goal with
         | |- context [if ?c then _ else _] => destruct c
         end; cbn; lia.
Qed.

Lemma der_len_short (n : Z) : n <= 0x7f -> der_len n = [n].
Proof.
  intros H. unfold der_len. destruct (Z.leb_spec n 0x7f); [reflexivity | lia].
Qed.

Lemma asn1_encode_integer_exact (cap : Z) (l : list Z) (I : Z) :
  is_u32 I -> 7 <= cap - Z.of_nat (length l) ->
  asn1_encode_integer cap (Ptr l) I = Ptr (l ++ der_element 0x02 (der_u32 I)).
Proof.
  intros [HI0 HI1] Hroom. unfold asn1_encode_integer.
  destruct (Z.ltb_spec I 0); [lia |].
  destruct (Z.ltb_spec (cap - Z.of_nat (length l)) 3); [lia |].
  destruct (Z.eqb_spec I 0) as [-> | Hnz]; [reflexivity |].
  rewrite encode_integer_loop_u32 by lia.
  pose proof (der_u32_length I) as Hd.
  unfold der_element. rewrite der_len_short by lia. reflexivity.
Qed.

Lemma encode_scratch_exact (o : trusted_key_options) (A B tail seq : list Z) :
  is_u32 (keyhandle o) ->
  Z.of_nat (length A) <= 0xffff -> Z.of_nat (length B) <= 0xffff ->
  encode_scratch o (A ++ B ++ tail) (Z.of_nat (length A))
                 (Z.of_nat (length B)) = inr (Ptr seq) ->
  seq = oid_tlv ++ (if blobauth_len o =? 0 then empty_auth_tlv else [])
        ++ der_element 0x02 (der_u32 (keyhandle o))
        ++ der_element 0x04 B ++ der_element 0x04 A.
Proof.
  intros Hkh HA HB. unfold encode_scratch.
  assert (Hoid : asn1_encode_oid SCRATCH_SIZE (Ptr []) tpm2key_oid
                 = Ptr oid_tlv) by reflexivity.
  assert (Hbool : asn1_encode_boolean 3 (Ptr []) true = Ptr [0x01; 1; 1])
    by reflexivity.
  assert (Htag : asn1_encode_tag SCRATCH_SIZE (Ptr oid_tlv) 0 [0x01; 1; 1]
                                 (Z.of_nat (length [0x01; 1; 1]))
                 = Ptr (oid_tlv ++ empty_auth_tlv)) by reflexivity.
  rewrite Hoid, Hbool, Htag. cbv zeta.
  set (hdr := oid_tlv ++ (if blobauth_len o =? 0 then empty_auth_tlv else [])).
  assert (Hhdr : (8 <= length hdr <= 13)%nat).
  { unfold hdr. destruct (blobauth_len o =? 0); cbn; lia. }
  assert (Htagged :
            (if blobauth_len o =? 0
             then @inr Z errptr (Ptr (oid_tlv ++ empty_auth_tlv))
             else inr (Ptr oid_tlv)) = inr (Ptr hdr)).
  { unfold hdr. destruct (blobauth_len o =? 0);
      [reflexivity | rewrite app_nil_r; reflexivity]. }
  rewrite Htagged. clear Htagged Hoid Hbool Htag.
  destruct (Z.gtb_spec (Z.of_nat (length hdr) + Z.of_nat (length B)
                        + Z.of_nat (length A) + 14) SCRATCH_SIZE)
    as [Hbig | Hfit]; [discriminate |].
  rewrite asn1_encode_integer_exact by (assumption || lia).
  unfold asn1_encode_octet_string.
  rewrite Nat2Z.id, drop_app_length.
  destruct (encode_tlv SCRATCH_SIZE
              (Ptr (hdr ++ der_element 2 (der_u32 (keyhandle o)))) 4
              (B ++ tail) (Z.of_nat (length B))) as [l1 | e |] eqn:E1;
    [| discriminate | discriminate].
  destruct (encode_tlv_exact _ _ _ _ _ _ E1 ltac:(lia)) as (s1 & Hs1 & ->).
  rewrite slice_head in Hs1. injection Hs1 as <-.
  intros H.
  remember (encode_tlv SCRATCH_SIZE _ 4 (A ++ B ++ tail)
                       (Z.of_nat (length A))) as r eqn:E2.
  injection H as ->. symmetry in E2.
  destruct (encode_tlv_exact _ _ _ _ _ _ E2 ltac:(lia)) as (s2 & Hs2 & ->).
  rewrite slice_head in Hs2. injection Hs2 as <-.
  unfold hdr, der_element. rewrite <- !app_assoc. reflexivity.
Qed.

(** a return of a length: what was read, and what the blob receives *)
Lemma tpm2_key_encode_length
      (K : collaborators) (src : list Z) (len n : Z) (w w1 : world) :
  tpm2_key_encode K src len w = Done n w1 -> 0 <= n ->
  exists v0 v1 seq,
    get_unaligned_be16 src 0 = Some v0 /\
    get_unaligned_be16 src (u16 (v0 + 2)) = Some v1 /\
    encode_scratch (options w) src (u16 (v0 + 2)) (u16 (v1 + 2))
    = inr (Ptr seq) /\
    n = Z.of_nat (length (der_element 0x30 seq)) /\
    blob (payload w1)
    = der_element 0x30 seq
        ++ skipn (length (der_element 0x30 seq)) (blob (payload w)).
Proof.
  unfold tpm2_key_encode, kmalloc, kfree. mopen.
  repeat mcase; try discriminate; intros [= <- <-] Hn;
    cbn [heap set_heap log set_payload options payload trace blob set_blob]
      in *.
  all: try (exfalso; unfold ENOMEM in Hn; lia).
  all: try match goal with
           | H : encode_scratch _ _ _ _ = inl _ |- _ =>
               exfalso; apply encode_scratch_err in H; subst;
               unfold EINVAL in Hn; lia
           | H : asn1_encode_sequence _ _ _ = (ErrPtr _, _) |- _ =>
               exfalso; apply asn1_encode_sequence_err in H; subst;
               unfold EINVAL in Hn; lia
           end.
  all: match goal with
       | H : asn1_encode_sequence _ _ _ = (Ptr _, _) |- _ =>
           destruct (asn1_encode_sequence_exact _ _ _ H) as [-> ->]
       end.
  all: eexists _, _, _; repeat split; try eassumption; reflexivity.
Qed.

(** X3.  For a private and a public area at the start of [src] and a
    32-bit parent handle, a length returned by tpm2_key_encode is the
    length of the following bytes, which are what the blob then starts
    with: tag 0x30 and the definite length of the rest; the OBJECT
    IDENTIFIER 2.23.133.10.1.5; exactly when [options->blobauth_len] is
    0, the element [0] around a BOOLEAN of value byte 1; the INTEGER
    whose content is the parent handle in as few big-endian bytes as it
    needs, a zero byte in front when the first has its top bit set; the
    OCTET STRING of the public area; the OCTET STRING of the private
    area.  The public area comes first although [src] has the private
    area first, and each area keeps its two-byte length prefix. *)
Theorem tpm2_key_encode_wire_format
        (K : collaborators) (w w1 : world) (privc pubc tail : list Z)
        (len n : Z) :
  is_u32 (keyhandle (options w)) ->
  Z.of_nat (length privc) <= 0xfffd -> Z.of_nat (length pubc) <= 0xfffd ->
  tpm2_key_encode K (tpm2b privc ++ tpm2b pubc ++ tail) len w = Done n w1 ->
  0 <= n ->
  n = Z.of_nat (length (tpm2key_der (keyhandle (options w))
                                    (blobauth_len (options w) =? 0)
                                    (tpm2b pubc) (tpm2b privc))) /\
  blob (payload w1)
  = tpm2key_der (keyhandle (options w)) (blobauth_len (options w) =? 0)
                (tpm2b pubc) (tpm2b privc)
      ++ skipn (length (tpm2key_der (keyhandle (options w))
                                    (blobauth_len (options w) =? 0)
                                    (tpm2b pubc) (tpm2b privc)))
               (blob (payload w)).
Proof.
  intros Hkh Hpriv Hpub Hrun Hn.
  destruct (tpm2_key_encode_length _ _ _ _ _ _ Hrun Hn)
    as (v0 & v1 & seq & H0 & H1 & Hscr & Hlen & Hblob).
  set (A := tpm2b privc) in *. set (B := tpm2b pubc) in *.
  assert (HA : Z.of_nat (length A) = Z.of_nat (length privc) + 2)
    by (unfold A; rewrite tpm2b_length; lia).
  assert (HB : Z.of_nat (length B) = Z.of_nat (length pubc) + 2)
    by (unfold B; rewrite tpm2b_length; lia).
  unfold A in H0 at 1.
  rewrite get_unaligned_be16_tpm2b in H0 by lia. injection H0 as <-.
  replace (u16 (Z.of_nat (length privc) + 2)) with (Z.of_nat (length A))
    in H1, Hscr by (unfold u16; rewrite Z.mod_small; lia).
  rewrite get_unaligned_be16_app in H1. unfold B in H1 at 1.
  rewrite get_unaligned_be16_tpm2b in H1 by lia. injection H1 as <-.
  replace (u16 (Z.of_nat (length pubc) + 2)) with (Z.of_nat (length B))
    in Hscr by (unfold u16; rewrite Z.mod_small; lia).
  apply encode_scratch_exact in Hscr; [| assumption | lia | lia].
  subst seq. split; [exact Hlen | exact Hblob].
Qed.

Lemma tpm2_key_encode_wire_format_witness :
  firstn 40 (blob (payload
                     (final (tpm2_key_encode (Examples.platform 0 0 [])
                               RoundtripExamples.small_src 14
                               RoundtripExamples.sealing_world))))
  = [0x30; 38;
     0x06; 6; 0x67; 0x81; 0x05; 0x0a; 0x01; 0x05;
     0xa0; 3; 0x01; 1; 1;
     0x02; 5; 0; 0x81; 0; 0; 1;
     0x04; 10; 0; 8; 0; 8; 0; 0xb; 0; 0; 0; 0x12;
     0x04; 4; 0; 2; 0xde; 0xad].
Proof.
  destruct (tpm2_key_encode_wire_format
              (Examples.platform 0 0 []) RoundtripExamples.sealing_world
              (final (tpm2_key_encode (Examples.platform 0 0 [])
                                      RoundtripExamples.small_src 14
                                      RoundtripExamples.sealing_world))
              [0xde; 0xad] [0; 8; 0; 0xb; 0; 0; 0; 0x12] [0xff; 0xff] 14 40)
    as [_ Hblob].
  - unfold is_u32. cbn. lia.
  - cbn. lia.
  - cbn. lia.
  - vm_compute. reflexivity.
  - lia.
  - rewrite Hblob. reflexivity.
Defined.

(** ** Decode: safety and the outcomes *)

Lemma der_length_rest (l r : list Z) (n : Z) :
  der_length l = Some (n, r) -> (length r < length l)%nat.
Proof.
  unfold der_length. destruct l as [| b l]; [discriminate |].
  destruct (b <=? 0x7f); [intros [= <- <-]; cbn; lia |].
  destruct (b =? 0x81).
  { destruct l as [| x l]; [discriminate |]. intros [= <- <-]. cbn. lia. }
  destruct (b =? 0x82); [| discriminate].
  destruct l as [| x [| y l]]; try discriminate.
  intros [= <- <-]. cbn. lia.
Qed.

Lemma der_tlv_parts (l v r : list Z) (t h : Z) :
  der_tlv l = Some (t, h, v, r) -> (length v + length r < length l)%nat.
Proof.
  unfold der_tlv. destruct l as [| tag l]; [discriminate |].
  destruct (Z.land tag 0x1f =? 0x1f); [discriminate |].
  destruct (der_length l) as [[n r'] |] eqn:E; [| discriminate].
  apply der_length_rest in E.
  destruct (Z.leb_spec n (Z.of_nat (length r'))); [| discriminate].
  intros [= <- <- <- <-].
  rewrite length_take, length_drop. cbn [length]. lia.
Qed.

Lemma field_views (tag : Z) (act : callback) (ctx ctx' : tpm2_key_context)
      (l l' : list Z) (rc : Z) :
  (forall c h t v, ctx_views c -> Z.of_nat (length v) <= 65535 ->
                   ctx_views (snd (act c h t v))) ->
  field tag act ctx l = (rc, ctx', l') ->
  ctx_views ctx -> Z.of_nat (length l) <= 65535 ->
  ctx_views ctx' /\ Z.of_nat (length l') <= 65535.
Proof.
  intros Hact. unfold field.
  destruct (der_tlv l) as [[[[t h] v] r] |] eqn:E.
  - apply der_tlv_parts in E.
    destruct (t =? tag).
    + destruct (act ctx h t v) as [rc0 c0] eqn:Ea.
      intros [= <- <- <-] Hctx Hl. split; [| lia].
      specialize (Hact ctx h t v Hctx ltac:(lia)). rewrite Ea in Hact.
      exact Hact.
    + intros [= <- <- <-] Hctx Hl. split; assumption.
  - intros [= <- <- <-] Hctx Hl. split; assumption.
Qed.

Lemma emptyAuth_rest (l l' : list Z) (rc : Z) :
  emptyAuth l = (rc, l') -> (length l' <= length l)%nat.
Proof.
  unfold emptyAuth.
  destruct (der_tlv l) as [[[[t h] v] r] |] eqn:E.
  - apply der_tlv_parts in E.
    destruct (t =? 0xa0); [| intros [= <- <-]; lia].
    repeat match goal with
           | |- context [match ?x with _ => _ end] => destruct x
           end; intros [= <- <-]; lia.
  - intros [= <- <-]. lia.
Qed.

Lemma ctx_zero_views : ctx_views ctx_zero.
Proof. repeat split; cbn; lia. Qed.

Lemma callbacks_views :
  (forall c h t v, ctx_views c -> Z.of_nat (length v) <= 65535 ->
                   ctx_views (snd (tpm2_key_type c h t v))) /\
  (forall c h t v, ctx_views c -> Z.of_nat (length v) <= 65535 ->
                   ctx_views (snd (tpm2_key_parent c h t v))) /\
  (forall c h t v, ctx_views c -> Z.of_nat (length v) <= 65535 ->
                   ctx_views (snd (tpm2_key_pub c h t v))) /\
  (forall c h t v, ctx_views c -> Z.of_nat (length v) <= 65535 ->
                   ctx_views (snd (tpm2_key_priv c h t v))).
Proof.
  unfold ctx_views, tpm2_key_type, tpm2_key_parent, tpm2_key_pub,
    tpm2_key_priv, u32.
  split; [| split; [| split]]; intros c h t v (H1 & H2 & H3 & H4) Hv;
    try destruct (negb _); cbn [snd pub pub_len priv priv_len];
    repeat split; try assumption; try lia;
    apply Z.mod_small; lia.
Qed.

(** the decoder hands the callbacks views of the blob: what it leaves in
    the context is consistent *)
Lemma asn1_ber_decoder_views (data : list Z) (datalen rc : Z)
      (ctx : tpm2_key_context) :
  asn1_ber_decoder ctx_zero data datalen = Some (rc, ctx) -> ctx_views ctx.
Proof.
  destruct callbacks_views as (Ht & Hpa & Hpu & Hpr).
  unfold asn1_ber_decoder.
  destruct (Z.gtb_spec datalen 65535);
    [intros [= <- <-]; exact ctx_zero_views |].
  destruct (slice data 0 datalen) as [d |] eqn:Ed; [| discriminate].
  apply slice_Some_length in Ed. destruct Ed as [Ed _].
  destruct (der_tlv d) as [[[[t h] body] r] |] eqn:E;
    [| intros [= <- <-]; exact ctx_zero_views].
  apply der_tlv_parts in E.
  assert (Hbody : Z.of_nat (length body) <= 65535) by lia.
  intros Hd. injection Hd as Hd.
  destruct (Z.eq_dec t 0x30) as [-> | Ht0].
  2: { assert (rc = - EBADMSG /\ ctx = ctx_zero) as [_ ->];
         [| exact ctx_zero_views].
       destruct t as [| p | p]; try (injection Hd as <- <-; now split).
       do 6 (destruct p as [p | p |];
             try (injection Hd as <- <-; now split)).
       congruence. }
  cbv iota in Hd.
  destruct (field 0x06 tpm2_key_type ctx_zero body) as [[rc1 c1] l1] eqn:F1.
  destruct (field_views _ _ _ _ _ _ _ Ht F1 ctx_zero_views Hbody)
    as [V1 L1].
  destruct (rc1 <? 0); [injection Hd as <- <-; exact V1 |].
  destruct (emptyAuth l1) as [rc2 l2] eqn:F2.
  apply emptyAuth_rest in F2.
  destruct (rc2 <? 0); [injection Hd as <- <-; exact V1 |].
  destruct (field 0x02 tpm2_key_parent c1 l2) as [[rc3 c3] l3] eqn:F3.
  destruct (field_views _ _ _ _ _ _ _ Hpa F3 V1 ltac:(lia)) as [V3 L3].
  destruct (rc3 <? 0); [injection Hd as <- <-; exact V3 |].
  destruct (field 0x04 tpm2_key_pub c3 l3) as [[rc4 c4] l4] eqn:F4.
  destruct (field_views _ _ _ _ _ _ _ Hpu F4 V3 L3) as [V4 L4].
  destruct (rc4 <? 0); [injection Hd as <- <-; exact V4 |].
  destruct (field 0x04 tpm2_key_priv c4 l4) as [[rc5 c5] l5] eqn:F5.
  destruct (field_views _ _ _ _ _ _ _ Hpr F5 V4 L4) as [V5 L5].
  destruct (rc5 <? 0); [injection Hd as <- <-; exact V5 |].
  destruct l5; injection Hd as <- <-; exact V5.
Qed.

(** X4. tpm2_key_decode on a payload whose blob_len lies within the blob
    array never reads out of bounds, and returns in one of two ways.  With
    a negative status it stores no buffer and leaves the options and the
    heap as they were.  With status 0 it stores a buffer that was not live
    before, holding the private part, then the public part, then four more
    bytes; the two parts are those the decoder found, their lengths add
    up to at most MAX_BLOB_SIZE, and the key handle of the options is the
    parent the decoder found.  The payload is never written. *)
Theorem tpm2_key_decode_outcomes (K : collaborators) (w : world) :
  0 <= blob_len (payload w) <= Z.of_nat (length (blob (payload w))) ->
  exists rc buf w1,
    tpm2_key_decode K w = Done (rc, buf) w1 /\
    payload w1 = payload w /\
    match buf with
    | None => rc < 0 /\ options w1 = options w /\ heap w1 = heap w
    | Some id =>
        rc = 0 /\ heap w !! id = None /\
        exists rc0 ctx margin,
          asn1_ber_decoder ctx_zero (blob (payload w)) (blob_len (payload w))
          = Some (rc0, ctx) /\
          Z.of_nat (length (priv ctx)) + Z.of_nat (length (pub ctx))
          <= MAX_BLOB_SIZE /\
          options w1 = set_keyhandle (parent ctx) (options w) /\
          heap w1 = <[id := priv ctx ++ pub ctx ++ margin]> (heap w) /\
          length margin = 4%nat
    end.
Proof.
  intros Hlen.
  destruct (asn1_ber_decoder ctx_zero (blob (payload w))
                             (blob_len (payload w)))
    as [[rc0 ctx] |] eqn:Hdec.
  2: { exfalso. revert Hdec. unfold asn1_ber_decoder, slice.
       destruct (blob_len (payload w) >? 65535); [discriminate |].
       destruct (Z.leb_spec 0 (blob_len (payload w))); [| lia].
       destruct (Z.leb_spec (0 + blob_len (payload w))
                            (Z.of_nat (length (blob (payload w))))); [| lia].
       discriminate. }
  pose proof (asn1_ber_decoder_views _ _ _ _ Hdec) as (Vpub & Vpriv & Bpub & Bpriv).
  unfold tpm2_key_decode. mopen. rewrite Hdec. cbv beta iota.
  destruct (Z.ltb_spec rc0 0) as [Hneg | Hpos].
  { exists rc0, None, w. repeat split; [assumption]. }
  assert (Hsum : u32 (priv_len ctx + pub_len ctx) = priv_len ctx + pub_len ctx)
    by (unfold u32; apply Z.mod_small; lia).
  rewrite Hsum.
  destruct (Z.gtb_spec (priv_len ctx + pub_len ctx) MAX_BLOB_SIZE) as [Hbig | Hfit].
  { exists (- EINVAL), None, w. repeat split. }
  assert (Hsz : u32 (priv_len ctx + pub_len ctx + 4)
                = priv_len ctx + pub_len ctx + 4)
    by (unfold u32; apply Z.mod_small; lia).
  rewrite Hsz. unfold kmalloc.
  destruct (k_kmalloc K (trace w) (priv_len ctx + pub_len ctx + 4))
    as [stale |].
  2: { eexists (- ENOMEM), None, _. split; [reflexivity |].
       repeat split. }
  cbv beta iota zeta.
  assert (Spriv : slice (priv ctx) 0 (priv_len ctx) = Some (priv ctx))
    by (rewrite Vpriv; apply slice_all).
  assert (Spub : slice (pub ctx) 0 (pub_len ctx) = Some (pub ctx))
    by (rewrite Vpub; apply slice_all).
  rewrite Spriv. cbv beta iota. rewrite Spub. cbv beta iota.
  cbn [heap set_heap set_options log options payload trace].
  rewrite lookup_insert_eq. cbv beta iota.
  set (id := fresh (dom (heap w))).
  set (obj := firstn _ (stale ++ repeat 0 _)).
  assert (Hobj : length obj
                 = Z.to_nat (priv_len ctx + pub_len ctx + 4)).
  { subst obj. rewrite length_take, length_app, repeat_length. lia. }
  eexists 0, (Some id), _. split; [reflexivity |].
  split; [reflexivity |]. split; [reflexivity |].
  split; [apply not_elem_of_dom, is_fresh |].
  exists rc0, ctx, (skipn (length (priv ctx) + length (pub ctx)) obj).
  split; [reflexivity |]. split; [lia |].
  split; [reflexivity |].
  split.
  - cbn [heap set_heap]. rewrite insert_insert_eq.
    rewrite Vpriv, Nat2Z.id, memcpy_two by lia. reflexivity.
  - rewrite length_drop. lia.
Qed.

Lemma tpm2_key_decode_outcomes_witness :
  exists rc buf w1,
    tpm2_key_decode (Examples.platform 0 0 []) DecodeExamples.world40
    = Done (rc, buf) w1 /\
    payload w1 = payload DecodeExamples.world40.
Proof.
  destruct (tpm2_key_decode_outcomes (Examples.platform 0 0 [])
                                     DecodeExamples.world40)
    as (rc & buf & w1 & Hrun & Hp & _).
  - cbn. lia.
  - exists rc, buf, w1. split; assumption.
Defined.

(** ** Rules for the ledger of a resource *)

Section LedgerRules.

Context (R : resource).

Lemma ledger_app (pre a b : list event) (h : nat) :
  ledger R pre (a ++ b) h
  = match ledger R pre a h with
    | Some h1 => ledger R (pre ++ a) b h1
    | None => None
    end.
Proof.
  revert pre h. induction a as [| e a IH]; intros pre h; cbn [app ledger].
  - rewrite app_nil_r. reflexivity.
  - destruct (ledger_step R pre e h) as [h1 |]; [| reflexivity].
    rewrite IH, <- app_assoc. reflexivity.
Qed.

Lemma ledger_run_refl (h : nat) (w : world) : ledger_run R h h w w.
Proof. exists []. split; [symmetry; apply app_nil_r | reflexivity]. Qed.

Lemma ledger_run_trans (h h1 h2 : nat) (a b c : world) :
  ledger_run R h h1 a b -> ledger_run R h1 h2 b c -> ledger_run R h h2 a c.
Proof.
  intros (e1 & T1 & L1) (e2 & T2 & L2). exists (e1 ++ e2). split.
  - rewrite T2, T1, app_assoc. reflexivity.
  - rewrite ledger_app, L1, <- T1. exact L2.
Qed.

Lemma ledger_run_quiet (h : nat) (w w' : world) :
  trace w' = trace w -> ledger_run R h h w w'.
Proof.
  intros H. exists []. split; [rewrite app_nil_r; exact H | reflexivity].
Qed.

Lemma ledger_run_log (h h' : nat) (e : event) (w : world) :
  ledger_step R (trace w) e h = Some h' -> ledger_run R h h' w (log e w).
Proof.
  intros H. exists [e]. split; [reflexivity |]. cbn [ledger]. rewrite H.
  reflexivity.
Qed.

Lemma ledger_steady (pre evs : list event) (h : nat) :
  Forall (steady R) evs -> ledger R pre evs (S h) = Some (S h).
Proof.
  intros H. revert pre. induction H as [| e evs [Hr Hg] _ IH]; intros pre;
    [reflexivity |].
  cbn [ledger]. unfold ledger_step. rewrite Hr, Hg.
  change (Nat.eqb (S h) 0) with false. rewrite andb_false_r. apply IH.
Qed.

Lemma ledger_neutral (pre evs : list event) (h : nat) :
  Forall (neutral R) evs -> ledger R pre evs h = Some h.
Proof.
  intros H. revert pre. induction H as [| e evs [Hu [Hr Hg]] _ IH];
    intros pre; [reflexivity |].
  cbn [ledger]. unfold ledger_step. rewrite Hu, Hr, Hg. cbn [andb].
  apply IH.
Qed.

Lemma emits_Forall (P : event -> bool) (Q : event -> Prop)
      (evs : list event) :
  (forall e, P e = true -> Q e) -> forallb P evs = true -> Forall Q evs.
Proof.
  intros HPQ. induction evs as [| e evs IH]; cbn [forallb]; intros H;
    [constructor |].
  apply andb_prop in H. destruct H as [He Hr].
  constructor; [apply HPQ, He | apply IH, Hr].
Qed.

Lemma keeps_ret {A} (h : nat) (a : A) (Q : A -> nat) :
  Q a = h -> keeps R h (ret a) Q.
Proof. intros <- w a' w' [= <- <-]. apply ledger_run_refl. Qed.

Lemma keeps_ret_same {A} (h : nat) (a : A) : keeps R h (ret a) (fun _ => h).
Proof. apply keeps_ret. reflexivity. Qed.

Lemma keeps_crash {A} (h : nat) (f : fault) (Q : A -> nat) :
  keeps R h (crash f) Q.
Proof. intros w a w' H. discriminate H. Qed.

Lemma keeps_get (h : nat) : keeps R h get (fun _ => h).
Proof. intros w a w' [= <- <-]. apply ledger_run_refl. Qed.

Lemma keeps_must {A} (h : nat) (o : option A) :
  keeps R h (must o) (fun _ => h).
Proof.
  destruct o; intros w a' w' H; [| discriminate H].
  injection H as <- <-. apply ledger_run_refl.
Qed.

Lemma keeps_bind {A B} (h : nat) (m : M A) (k : A -> M B)
      (Q : A -> nat) (Q' : B -> nat) :
  keeps R h m Q -> (forall a, keeps R (Q a) (k a) Q') ->
  keeps R h (bind m k) Q'.
Proof.
  intros Hm Hk w b w2. unfold bind.
  destruct (m w) as [a w1 | f w1] eqn:E; [| discriminate].
  intros H. eapply ledger_run_trans; [eapply Hm, E | eapply Hk, H].
Qed.

Lemma keeps_assoc {A B C} (h : nat) (m : M A) (k1 : A -> M B)
      (k2 : B -> M C) (Q : C -> nat) :
  keeps R h (bind m (fun a => bind (k1 a) k2)) Q ->
  keeps R h (bind (bind m k1) k2) Q.
Proof.
  intros H w c w'. specialize (H w c w'). unfold bind in *.
  destruct (m w); exact H.
Qed.

Lemma keeps_modify_quiet (h : nat) (f : world -> world) :
  (forall w, trace (f w) = trace w) -> keeps R h (modify f) (fun _ => h).
Proof. intros Hf w a w' [= <- <-]. apply ledger_run_quiet, Hf. Qed.

Lemma keeps_modify_log (h h' : nat) (e : event) :
  (forall pre, ledger_step R pre e h = Some h') ->
  keeps R h (modify (log e)) (fun _ => h').
Proof. intros H w a w' [= <- <-]. apply ledger_run_log, H. Qed.

(** a call that emits only events which leave the ledger as it is *)
Lemma keeps_neutral {A} (P : event -> bool) (h : nat) (m : M A) :
  preserves (emits P) m -> (forall e, P e = true -> neutral R e) ->
  keeps R h m (fun _ => h).
Proof.
  intros Hm HP w a w' E. specialize (Hm w). rewrite E in Hm.
  destruct Hm as (evs & T & F). exists evs. split; [exact T |].
  apply ledger_neutral. eapply emits_Forall; eassumption.
Qed.

Lemma keeps_steady {A} (P : event -> bool) (h : nat) (m : M A) :
  preserves (emits P) m -> (forall e, P e = true -> steady R e) ->
  keeps R (S h) m (fun _ => S h).
Proof.
  intros Hm HP w a w' E. specialize (Hm w). rewrite E in Hm.
  destruct Hm as (evs & T & F). exists evs. split; [exact T |].
  apply ledger_steady. eapply emits_Forall; eassumption.
Qed.

Section LedgerCalls.

Context (K : collaborators).

Lemma tpm_try_get_ops_keeps (h h0 h1 : nat) :
  (forall pre, ledger_step R pre EvTryGetOps h
               = Some (if k_try_get_ops K pre =? 0 then h1 else h0)) ->
  keeps R h (tpm_try_get_ops K) (fun rc => if rc =? 0 then h1 else h0).
Proof. intros H w a w' [= <- <-]. apply ledger_run_log, H. Qed.

Lemma tpm2_start_auth_session_keeps (h h0 h1 : nat) :
  (forall pre, ledger_step R pre EvStartAuthSession h
               = Some (if k_start_auth_session K pre =? 0 then h1 else h0)) ->
  keeps R h (tpm2_start_auth_session K)
        (fun rc => if rc =? 0 then h1 else h0).
Proof. intros H w a w' [= <- <-]. apply ledger_run_log, H. Qed.

Lemma tpm_buf_init_keeps (tag ordinal : Z) (h h0 h1 : nat) :
  (forall pre, ledger_step R pre (EvBufInit ordinal) h
               = Some (match k_get_free_page K pre with
                       | Some _ => h1
                       | None => h0
                       end)) ->
  keeps R h (tpm_buf_init K tag ordinal)
        (fun b => match b with inl _ => h0 | inr _ => h1 end).
Proof.
  intros H w a w' [= <- <-]. apply ledger_run_log. rewrite H.
  destruct (k_get_free_page K (trace w)); reflexivity.
Qed.

Lemma tpm_buf_init_sized_keeps (h h0 h1 : nat) :
  (forall pre, ledger_step R pre EvBufInitSized h
               = Some (match k_get_free_page K pre with
                       | Some _ => h1
                       | None => h0
                       end)) ->
  keeps R h (tpm_buf_init_sized K)
        (fun b => match b with inl _ => h0 | inr _ => h1 end).
Proof.
  intros H w a w' [= <- <-]. apply ledger_run_log. rewrite H.
  destruct (k_get_free_page K (trace w)); reflexivity.
Qed.

Lemma tpm_buf_append_name_keeps (buf : tpm_buf) (handle : Z) (h h' : nat) :
  (forall pre, ledger_step R pre (EvAppendName handle) h = Some h') ->
  keeps R h (tpm_buf_append_name K buf handle) (fun _ => h').
Proof. intros H w a w' [= <- <-]. apply ledger_run_log, H. Qed.

Lemma tpm_buf_append_hmac_session_keeps buf attributes passphrase len
      (h h' : nat) :
  (forall pre, ledger_step R pre (EvAppendHmacSession attributes) h
               = Some h') ->
  keeps R h (tpm_buf_append_hmac_session K buf attributes passphrase len)
        (fun _ => h').
Proof. intros H w a w' [= <- <-]. apply ledger_run_log, H. Qed.

Lemma tpm_buf_append_hmac_session_opt_keeps buf attributes passphrase len
      (h h' : nat) :
  (forall pre, ledger_step R pre (EvAppendHmacSession attributes) h
               = Some h') ->
  keeps R h (tpm_buf_append_hmac_session_opt K buf attributes passphrase len)
        (fun _ => h').
Proof. intros H w a w' [= <- <-]. apply ledger_run_log, H. Qed.

Lemma tpm_buf_fill_hmac_session_keeps (buf : tpm_buf) (h h' : nat) :
  (forall pre, ledger_step R pre EvFillHmacSession h = Some h') ->
  keeps R h (tpm_buf_fill_hmac_session K buf) (fun _ => h').
Proof. intros H w a w' [= <- <-]. apply ledger_run_log, H. Qed.

Lemma tpm_transmit_cmd_keeps (buf : tpm_buf) (n : Z) (h h' : nat) :
  (forall pre cmd, ledger_step R pre (EvTransmit cmd) h = Some h') ->
  keeps R h (tpm_transmit_cmd K buf n) (fun _ => h').
Proof. intros H w a w' [= <- <-]. apply ledger_run_log, H. Qed.

Lemma tpm_buf_check_hmac_response_keeps (buf : tpm_buf) (rc : Z)
      (h h' : nat) :
  (forall pre, ledger_step R pre EvCheckHmacResponse h = Some h') ->
  keeps R h (tpm_buf_check_hmac_response K buf rc) (fun _ => h').
Proof. intros H w a w' [= <- <-]. apply ledger_run_log, H. Qed.

End LedgerCalls.

End LedgerRules.

Lemma alloc_events_neutral (K : collaborators) (e : event) :
  is_alloc_event e = true ->
  neutral (chip_ops K) e /\ neutral (auth_session K) e /\
  neutral (command_buffers K) e.
Proof.
  destruct e; try discriminate; intros _; repeat split.
Qed.

Lemma tracked_ops (K : collaborators) : tracked K (chip_ops K).
Proof. left. reflexivity. Qed.
Lemma tracked_session (K : collaborators) : tracked K (auth_session K).
Proof. right. left. reflexivity. Qed.
Lemma tracked_buffers (K : collaborators) : tracked K (command_buffers K).
Proof. right. right. reflexivity. Qed.

(** the allocator is none of the three resources: a call that only
    allocates and frees leaves the three ledgers as they are *)
Lemma alloc_only_keeps {A} (K : collaborators) (R : resource) (h : nat)
      (m : M A) :
  tracked K R -> preserves (emits is_alloc_event) m ->
  keeps R h m (fun _ => h).
Proof.
  intros HR Hm. eapply keeps_neutral; [exact Hm |].
  intros e He. destruct (alloc_events_neutral K e He) as (H1 & H2 & H3).
  destruct HR as [-> | [-> | ->]]; assumption.
Qed.

Lemma tpm2_key_encode_allocs (K : collaborators) src len :
  preserves (emits is_alloc_event) (tpm2_key_encode K src len).
Proof. apply tpm2_key_encode_emits. auto. Qed.

Lemma load_validate_allocs (K : collaborators) :
  preserves (emits is_alloc_event) (load_validate K).
Proof. apply load_validate_emits. auto. Qed.

Lemma kfree_allocs (id : nat) :
  preserves (emits is_alloc_event) (kfree id).
Proof. apply kfree_emits. reflexivity. Qed.

Create HintDb ledger.

#[export] Hint Resolve tracked_ops tracked_session tracked_buffers
  alloc_only_keeps tpm2_key_encode_allocs load_validate_allocs kfree_allocs
  : ledger.

(** a side condition on one step of a ledger: evaluate the resource on
    the event, and split on the answer of the platform *)
Ltac ledger_side :=
  intros; unfold ledger_step; cbn;
  try reflexivity;
  repeat (match goal with
          | |- context [match ?x with _ => _ end] =>
              lazymatch x with
              | context [match _ with _ => _ end] => fail
              | _ => destruct x
              end
          end; cbv beta iota);
  reflexivity.

Ltac ledger_call :=
  first
    [ apply keeps_get
    | apply keeps_ret_same
    | apply keeps_must
    | apply keeps_modify_quiet; intros ?; reflexivity
    | eapply keeps_modify_log; ledger_side
    | eapply tpm_try_get_ops_keeps; ledger_side
    | eapply tpm2_start_auth_session_keeps; ledger_side
    | eapply tpm_buf_init_keeps; ledger_side
    | eapply tpm_buf_init_sized_keeps; ledger_side
    | eapply tpm_buf_append_name_keeps; ledger_side
    | eapply tpm_buf_append_hmac_session_keeps; ledger_side
    | eapply tpm_buf_append_hmac_session_opt_keeps; ledger_side
    | eapply tpm_buf_fill_hmac_session_keeps; ledger_side
    | eapply tpm_transmit_cmd_keeps; ledger_side
    | eapply tpm_buf_check_hmac_response_keeps; ledger_side
    | solve [eauto with ledger] ].

Ltac ledger_walk :=
  repeat first
    [ progress cbv beta iota zeta
    | progress cbn [negb]
    | apply keeps_ret; reflexivity
    | apply keeps_crash
    | solve [eauto with ledger]
    | eapply keeps_bind; [ledger_call | intros ?]
    | apply keeps_assoc
    | match goal with
      | |- keeps _ _ (bind (if ?c then _ else _) _) _ => destruct c
      | |- keeps _ _ (bind (match ?x with _ => _ end) _) _ => destruct x
      | |- keeps _ _ (if negb ?c then _ else _) _ => destruct c
      | |- keeps _ _ (if ?c then _ else _) _ => destruct c
      | |- keeps _ _ (match ?x with _ => _ end) _ => destruct x
      end ].

Lemma append_steps_steady (K : collaborators) (e : event) :
  is_append_step e = true ->
  steady (chip_ops K) e /\ steady (auth_session K) e /\
  steady (command_buffers K) e.
Proof.
  destruct e; try discriminate; intros _; repeat split.
Qed.

(** ** Seal: the chip, the session and the two buffers *)

Section SealLedger.

Context (K : collaborators).

Lemma seal_build_emits (buf sized : tpm_buf) (hash : Z) :
  preserves (emits is_append_step) (seal_build K buf sized hash).
Proof. unfold seal_build. emits_walk. Qed.

Lemma seal_build_ops (h : nat) (buf sized : tpm_buf) (hash : Z) :
  keeps (chip_ops K) (S h) (seal_build K buf sized hash) (fun _ => S h).
Proof.
  eapply keeps_steady; [apply seal_build_emits |].
  intros e He. apply (append_steps_steady K e He).
Qed.

Lemma seal_build_session (h : nat) (buf sized : tpm_buf) (hash : Z) :
  keeps (auth_session K) (S h) (seal_build K buf sized hash) (fun _ => S h).
Proof.
  eapply keeps_steady; [apply seal_build_emits |].
  intros e He. apply (append_steps_steady K e He).
Qed.

Lemma seal_build_buffers (h : nat) (buf sized : tpm_buf) (hash : Z) :
  keeps (command_buffers K) (S h) (seal_build K buf sized hash)
        (fun _ => S h).
Proof.
  eapply keeps_steady; [apply seal_build_emits |].
  intros e He. apply (append_steps_steady K e He).
Qed.

#[local] Hint Resolve seal_build_ops seal_build_session seal_build_buffers : ledger.

Lemma seal_exchange_ops (h : nat) (hash : Z) :
  keeps (chip_ops K) (S h) (seal_exchange K hash) (fun _ => S h).
Proof. unfold seal_exchange. ledger_walk. Qed.

Lemma seal_exchange_session (hash : Z) :
  keeps (auth_session K) 0 (seal_exchange K hash) (fun _ => 0%nat).
Proof. unfold seal_exchange. ledger_walk. Qed.

(** both buffers are live when the function goes on to label out, none
    when it goes to out_put *)
Lemma seal_exchange_buffers (hash : Z) :
  keeps (command_buffers K) 0 (seal_exchange K hash)
        (fun x => match x with inl _ => 0 | inr _ => 2 end%nat).
Proof. unfold seal_exchange. ledger_walk. Qed.

#[local] Hint Resolve seal_exchange_ops seal_exchange_session seal_exchange_buffers
  : ledger.

Lemma seal_out_put_ops (h : nat) (rc : Z) :
  keeps (chip_ops K) (S h) (seal_out_put rc) (fun _ => h).
Proof. unfold seal_out_put, tpm_put_ops. ledger_walk. Qed.

Lemma seal_out_put_session (h : nat) (rc : Z) :
  keeps (auth_session K) h (seal_out_put rc) (fun _ => h).
Proof. unfold seal_out_put, tpm_put_ops. ledger_walk. Qed.

Lemma seal_out_put_buffers (h : nat) (rc : Z) :
  keeps (command_buffers K) h (seal_out_put rc) (fun _ => h).
Proof. unfold seal_out_put, tpm_put_ops. ledger_walk. Qed.

#[local] Hint Resolve seal_out_put_ops seal_out_put_session seal_out_put_buffers
  : ledger.

Lemma seal_out_ops (h : nat) (rc blob_len : Z) :
  keeps (chip_ops K) (S h) (seal_out K rc blob_len) (fun _ => h).
Proof. unfold seal_out, tpm_buf_destroy. ledger_walk. Qed.

Lemma seal_out_session (h : nat) (rc blob_len : Z) :
  keeps (auth_session K) h (seal_out K rc blob_len) (fun _ => h).
Proof. unfold seal_out, tpm_buf_destroy. ledger_walk. Qed.

Lemma seal_out_buffers (h : nat) (rc blob_len : Z) :
  keeps (command_buffers K) (S (S h)) (seal_out K rc blob_len) (fun _ => h).
Proof. unfold seal_out, tpm_buf_destroy. ledger_walk. Qed.

#[local] Hint Resolve seal_out_ops seal_out_session seal_out_buffers : ledger.

Lemma tpm2_seal_trusted_ops :
  keeps (chip_ops K) 0 (tpm2_seal_trusted K) (fun _ => 0%nat).
Proof. unfold tpm2_seal_trusted. ledger_walk. Qed.

Lemma tpm2_seal_trusted_session :
  keeps (auth_session K) 0 (tpm2_seal_trusted K) (fun _ => 0%nat).
Proof. unfold tpm2_seal_trusted. ledger_walk. Qed.

Lemma tpm2_seal_trusted_buffers :
  keeps (command_buffers K) 0 (tpm2_seal_trusted K) (fun _ => 0%nat).
Proof. unfold tpm2_seal_trusted. ledger_walk. Qed.

End SealLedger.

Lemma ledger_run_events (R : resource) (h h' : nat) (w w' : world)
      (evs : list event) :
  ledger_run R h h' w w' -> trace w' = trace w ++ evs ->
  ledger R (trace w) evs h = Some h'.
Proof.
  intros (evs' & T & L) T'. rewrite T in T'. apply app_inv_head in T'.
  subst evs'. exact L.
Qed.

(** X5. Whatever the platform answers, a call of tpm2_seal_trusted that
    returns has kept three disciplines over the calls it made.  The chip:
    every call that takes the chip is made after a tpm_try_get_ops that
    returned 0 and before the one tpm_put_ops that answers it.  The
    session: the command is built and exchanged after a
    tpm2_start_auth_session that returned 0, which is answered by exactly
    one of tpm2_end_auth_session and tpm_buf_check_hmac_response.  The
    buffers: tpm_buf_destroy is called once for each buffer that obtained
    its page and never without one, and no step of the command is made
    once they are destroyed.  Nothing is held at the return. *)
Theorem tpm2_seal_trusted_discipline
        (K : collaborators) (w w1 : world) (rc : Z) :
  tpm2_seal_trusted K w = Done rc w1 ->
  exists evs,
    trace w1 = trace w ++ evs /\
    ledger (chip_ops K) (trace w) evs 0 = Some 0%nat /\
    ledger (auth_session K) (trace w) evs 0 = Some 0%nat /\
    ledger (command_buffers K) (trace w) evs 0 = Some 0%nat.
Proof.
  intros Hrun.
  destruct (tpm2_seal_trusted_ops K w rc w1 Hrun) as (evs & T & L).
  exists evs. split; [exact T |]. split; [exact L |]. split.
  - exact (ledger_run_events _ _ _ _ _ _
             (tpm2_seal_trusted_session K w rc w1 Hrun) T).
  - exact (ledger_run_events _ _ _ _ _ _
             (tpm2_seal_trusted_buffers K w rc w1 Hrun) T).
Qed.

Lemma tpm2_seal_trusted_discipline_witness :
  exists evs,
    trace (final (tpm2_seal_trusted (Examples.platform 0x2c3 10 [])
                                    RoundtripExamples.sealing_world))
    = trace RoundtripExamples.sealing_world ++ evs /\
    ledger (chip_ops (Examples.platform 0x2c3 10 []))
           (trace RoundtripExamples.sealing_world) evs 0 = Some 0%nat /\
    ledger (auth_session (Examples.platform 0x2c3 10 []))
           (trace RoundtripExamples.sealing_world) evs 0 = Some 0%nat /\
    ledger (command_buffers (Examples.platform 0x2c3 10 []))
           (trace RoundtripExamples.sealing_world) evs 0 = Some 0%nat.
Proof.
  apply (tpm2_seal_trusted_discipline
           (Examples.platform 0x2c3 10 []) RoundtripExamples.sealing_world
           _ (- EINVAL)).
  vm_compute. reflexivity.
Defined.

(** ** Load and unseal: the chip, the session and the buffer *)

Section UnsealLedger.

Context (K : collaborators).

Lemma load_out_ops (h : nat) blob rc handle :
  keeps (chip_ops K) h (load_out blob rc handle) (fun _ => h).
Proof. unfold load_out, tpm_buf_destroy. ledger_walk. Qed.

Lemma load_out_session (h : nat) blob rc handle :
  keeps (auth_session K) h (load_out blob rc handle) (fun _ => h).
Proof. unfold load_out, tpm_buf_destroy. ledger_walk. Qed.

Lemma load_out_buffers (h : nat) blob rc handle :
  keeps (command_buffers K) (S h) (load_out blob rc handle) (fun _ => h).
Proof. unfold load_out, tpm_buf_destroy. ledger_walk. Qed.

#[local] Hint Resolve load_out_ops load_out_session load_out_buffers : ledger.

Lemma load_exchange_ops (h : nat) blob blob_len :
  keeps (chip_ops K) (S h) (load_exchange K blob blob_len) (fun _ => S h).
Proof. unfold load_exchange, tpm2_end_auth_session. ledger_walk. Qed.

Lemma load_exchange_session blob blob_len :
  keeps (auth_session K) 0 (load_exchange K blob blob_len) (fun _ => 0%nat).
Proof. unfold load_exchange, tpm2_end_auth_session. ledger_walk. Qed.

Lemma load_exchange_buffers blob blob_len :
  keeps (command_buffers K) 0 (load_exchange K blob blob_len)
        (fun _ => 0%nat).
Proof. unfold load_exchange, tpm2_end_auth_session. ledger_walk. Qed.

#[local] Hint Resolve load_exchange_ops load_exchange_session load_exchange_buffers
  : ledger.

Lemma tpm2_load_cmd_ops (h : nat) :
  keeps (chip_ops K) (S h) (tpm2_load_cmd K) (fun _ => S h).
Proof. unfold tpm2_load_cmd. ledger_walk. Qed.

Lemma tpm2_load_cmd_session :
  keeps (auth_session K) 0 (tpm2_load_cmd K) (fun _ => 0%nat).
Proof. unfold tpm2_load_cmd. ledger_walk. Qed.

Lemma tpm2_load_cmd_buffers :
  keeps (command_buffers K) 0 (tpm2_load_cmd K) (fun _ => 0%nat).
Proof. unfold tpm2_load_cmd. ledger_walk. Qed.

Lemma unseal_exchange_ops (h : nat) blob_handle :
  keeps (chip_ops K) (S h) (unseal_exchange K blob_handle) (fun _ => S h).
Proof. unfold unseal_exchange, tpm2_end_auth_session. ledger_walk. Qed.

Lemma unseal_exchange_session blob_handle :
  keeps (auth_session K) 0 (unseal_exchange K blob_handle) (fun _ => 0%nat).
Proof. unfold unseal_exchange, tpm2_end_auth_session. ledger_walk. Qed.

(** the buffer is live when the function goes on to read the response *)
Lemma unseal_exchange_buffers blob_handle :
  keeps (command_buffers K) 0 (unseal_exchange K blob_handle)
        (fun x => match x with inl _ => 0 | inr _ => 1 end%nat).
Proof. unfold unseal_exchange, tpm2_end_auth_session. ledger_walk. Qed.

Lemma unseal_extract_quiet (R : resource) (h : nat) rc buf :
  keeps R h (unseal_extract rc buf) (fun _ => h).
Proof. unfold unseal_extract. ledger_walk. Qed.

#[local] Hint Resolve unseal_exchange_ops unseal_exchange_session
  unseal_exchange_buffers unseal_extract_quiet : ledger.

Lemma tpm2_unseal_cmd_ops (h : nat) blob_handle :
  keeps (chip_ops K) (S h) (tpm2_unseal_cmd K blob_handle) (fun _ => S h).
Proof. unfold tpm2_unseal_cmd, tpm_buf_destroy. ledger_walk. Qed.

Lemma tpm2_unseal_cmd_session blob_handle :
  keeps (auth_session K) 0 (tpm2_unseal_cmd K blob_handle) (fun _ => 0%nat).
Proof. unfold tpm2_unseal_cmd, tpm_buf_destroy. ledger_walk. Qed.

Lemma tpm2_unseal_cmd_buffers blob_handle :
  keeps (command_buffers K) 0 (tpm2_unseal_cmd K blob_handle)
        (fun _ => 0%nat).
Proof. unfold tpm2_unseal_cmd, tpm_buf_destroy. ledger_walk. Qed.

#[local] Hint Resolve tpm2_load_cmd_ops tpm2_load_cmd_session tpm2_load_cmd_buffers
  tpm2_unseal_cmd_ops tpm2_unseal_cmd_session tpm2_unseal_cmd_buffers
  : ledger.

Lemma tpm2_unseal_trusted_ops :
  keeps (chip_ops K) 0 (tpm2_unseal_trusted K) (fun _ => 0%nat).
Proof.
  unfold tpm2_unseal_trusted, tpm2_flush_context, tpm_put_ops. ledger_walk.
Qed.

Lemma tpm2_unseal_trusted_session :
  keeps (auth_session K) 0 (tpm2_unseal_trusted K) (fun _ => 0%nat).
Proof.
  unfold tpm2_unseal_trusted, tpm2_flush_context, tpm_put_ops. ledger_walk.
Qed.

Lemma tpm2_unseal_trusted_buffers :
  keeps (command_buffers K) 0 (tpm2_unseal_trusted K) (fun _ => 0%nat).
Proof.
  unfold tpm2_unseal_trusted, tpm2_flush_context, tpm_put_ops. ledger_walk.
Qed.

End UnsealLedger.

(** X6. Whatever the platform answers, a call of tpm2_unseal_trusted that
    returns has kept the same three disciplines across tpm2_load_cmd and
    tpm2_unseal_cmd.  The chip: the load, the unseal and the flush of the
    loaded object are made after a tpm_try_get_ops that returned 0 and
    before the one tpm_put_ops that answers it.  The session: each of the
    two commands is built and exchanged after its own
    tpm2_start_auth_session that returned 0, which is answered by exactly
    one of tpm2_end_auth_session and tpm_buf_check_hmac_response.  The
    buffer: tpm_buf_destroy is called once for each buffer that obtained
    its page and never without one, and no step of a command is made
    without a buffer.  Nothing is held at the return. *)
Theorem tpm2_unseal_trusted_discipline
        (K : collaborators) (w w1 : world) (rc : Z) :
  tpm2_unseal_trusted K w = Done rc w1 ->
  exists evs,
    trace w1 = trace w ++ evs /\
    ledger (chip_ops K) (trace w) evs 0 = Some 0%nat /\
    ledger (auth_session K) (trace w) evs 0 = Some 0%nat /\
    ledger (command_buffers K) (trace w) evs 0 = Some 0%nat.
Proof.
  intros Hrun.
  destruct (tpm2_unseal_trusted_ops K w rc w1 Hrun) as (evs & T & L).
  exists evs. split; [exact T |]. split; [exact L |]. split.
  - exact (ledger_run_events _ _ _ _ _ _
             (tpm2_unseal_trusted_session K w rc w1 Hrun) T).
  - exact (ledger_run_events _ _ _ _ _ _
             (tpm2_unseal_trusted_buffers K w rc w1 Hrun) T).
Qed.

Lemma tpm2_unseal_trusted_discipline_witness :
  exists evs,
    trace (final (tpm2_unseal_trusted
                    (Examples.platform 0 48 Examples.unseal_response)
                    DecodeExamples.world40))
    = trace DecodeExamples.world40 ++ evs /\
    ledger (chip_ops (Examples.platform 0 48 Examples.unseal_response))
           (trace DecodeExamples.world40) evs 0 = Some 0%nat /\
    ledger (auth_session (Examples.platform 0 48 Examples.unseal_response))
           (trace DecodeExamples.world40) evs 0 = Some 0%nat /\
    ledger (command_buffers (Examples.platform 0 48 Examples.unseal_response))
           (trace DecodeExamples.world40) evs 0 = Some 0%nat.
Proof.
  apply (tpm2_unseal_trusted_discipline
           (Examples.platform 0 48 Examples.unseal_response)
           DecodeExamples.world40 _ 0).
  vm_compute. reflexivity.
Defined.

(** ** Seal: what the payload receives *)

Lemma seal_exchange_early (K : collaborators) (hash rc : Z) (w w1 : world) :
  seal_exchange K hash w = Done (inl rc) w1 -> rc <> 0.
Proof.
  unfold seal_exchange, tpm2_start_auth_session, tpm_buf_init,
    tpm_buf_init_sized, tpm2_end_auth_session, tpm_buf_destroy,
    tpm_buf_fill_hmac_session, tpm_transmit_cmd, tpm_buf_check_hmac_response.
  mopen.
  repeat mcase; try discriminate; intros [= <- <-];
    [| unfold ENOMEM; lia ..].
  apply negb_true_iff, Z.eqb_neq in Heqb. exact Heqb.
Qed.

Lemma seal_exchange_payload (K : collaborators) (hash : Z) (w : world) :
  payload (final (seal_exchange K hash w)) = payload w.
Proof. apply (seal_exchange_frame K same_payload). Qed.

(** facts about the calls met on a path, and the status tests turned
    into equations *)
Ltac seal_path_facts K :=
  repeat match goal with
         | H : negb (_ =? _) = true |- _ =>
             apply negb_true_iff, Z.eqb_neq in H
         | H : negb (_ =? _) = false |- _ =>
             apply negb_false_iff, Z.eqb_eq in H
         | H : seal_exchange K ?h ?w = Done (inl ?rc) ?w0 |- _ =>
             lazymatch goal with
             | _ : rc <> 0 |- _ => fail
             | _ => pose proof (seal_exchange_early K h rc w w0 H)
             end
         | H : seal_exchange K ?h ?w = Done _ ?w0 |- _ =>
             lazymatch goal with
             | _ : payload w0 = _ |- _ => fail
             | _ =>
                 let Hp := fresh "Hp" in
                 pose proof (seal_exchange_payload K h w) as Hp;
                 rewrite H in Hp; cbn [final payload log] in Hp
             end
         | H : tpm2_key_encode K _ _ _ = Done _ _ |- _ =>
             apply tpm2_key_encode_cases in H
         end.

(** X7. A call of tpm2_seal_trusted that returns has written no member
    of the payload but [blob] and [blob_len]: the key, its length and the
    two flags are those before the call.  When it returns 0, [blob_len] is
    the number of bytes the encoder has stored at the start of [blob], a
    SEQUENCE tag first, it lies between 2 and MAX_BLOB_SIZE, and the
    bytes of [blob] after them are kept. *)
Theorem tpm2_seal_trusted_payload
        (K : collaborators) (w w1 : world) (rc : Z) :
  tpm2_seal_trusted K w = Done rc w1 ->
  key (payload w1) = key (payload w) /\
  key_len (payload w1) = key_len (payload w) /\
  migratable (payload w1) = migratable (payload w) /\
  old_format (payload w1) = old_format (payload w) /\
  (rc = 0 ->
   2 <= blob_len (payload w1) <= MAX_BLOB_SIZE /\
   exists out,
     blob_len (payload w1) = Z.of_nat (length (0x30 :: out)) /\
     blob (payload w1)
     = (0x30 :: out) ++ skipn (length (0x30 :: out)) (blob (payload w))).
Proof.
  unfold tpm2_seal_trusted, seal_out, seal_out_put, tpm_put_ops,
    tpm_buf_destroy, tpm_try_get_ops.
  mopen.
  repeat mcase; try discriminate; intros [= <- <-];
    seal_path_facts K;
    cbn [payload log set_payload set_blob_len key key_len migratable
         old_format blob blob_len].
  all: try match goal with
            | H : payload _ = set_blob _ _ /\ _ |- _ =>
                destruct H as [Hpay Hcases]; rewrite Hpay;
                cbn [set_blob key key_len migratable old_format blob
                     blob_len]
            end.
  all: try match goal with
            | Hp : payload _ = payload _ |- _ => rewrite ?Hp in *
            end.
  all: do 4 (split; [reflexivity |]); intros Hz.
  all: try discriminate Hz; try contradiction.
  all: try subst.
  all: try match goal with H : (0 >? 0) = true |- _ => discriminate H end.
  all: try match goal with
            | H : (_ <? 0) = true |- _ => apply Z.ltb_lt in H; lia
            end.
  apply Z.ltb_ge in Heqb4.
  destruct Hcases as [[-> _] | [-> | H]];
    [unfold ENOMEM in Heqb4; lia | unfold EINVAL in Heqb4; lia | exact H].
Qed.

Lemma tpm2_seal_trusted_payload_witness :
  2 <= blob_len (payload (final (tpm2_seal_trusted
                                   (Examples.platform 0 30
                                      SealExamples.create_response)
                                   RoundtripExamples.sealing_world)))
  <= MAX_BLOB_SIZE.
Proof.
  refine (proj1 (proj2 (proj2 (proj2 (proj2
            (tpm2_seal_trusted_payload
               (Examples.platform 0 30 SealExamples.create_response)
               RoundtripExamples.sealing_world _ 0 _))))
            eq_refl)).
  vm_compute. reflexivity.
Defined.

(** ** Unseal: what the payload receives *)

Lemma unseal_exchange_early (K : collaborators) (h rc : Z) (w w1 : world) :
  unseal_exchange K h w = Done (inl rc) w1 -> rc <> 0.
Proof.
  unfold unseal_exchange, tpm2_start_auth_session, tpm_buf_init,
    tpm2_end_auth_session, tpm_buf_append_name,
    tpm_buf_append_hmac_session, tpm_buf_append_hmac_session_opt,
    tpm_buf_fill_hmac_session, tpm_transmit_cmd, tpm_buf_check_hmac_response.
  mopen.
  repeat mcase; try discriminate; intros [= <- <-];
    [| unfold ENOMEM; lia ..].
  apply negb_true_iff, Z.eqb_neq in Heqb. exact Heqb.
Qed.

Lemma memcpy_length (dst src : list Z) :
  (length src <= length dst)%nat ->
  length (memcpy dst 0 src) = length dst.
Proof.
  intros H. unfold memcpy. change (firstn 0 dst) with (@nil Z).
  cbn [app Nat.add]. rewrite length_app, length_drop. lia.
Qed.

(** X8. A call of tpm2_unseal_cmd that returns never writes [blob],
    [blob_len] or [old_format], and with a status other than 0 it leaves
    the whole payload as it was.  With status 0, the copy has stayed
    inside the key array (of at least MAX_KEY_SIZE bytes) and [key_len]
    lies between MIN_KEY_SIZE - 1 and MAX_KEY_SIZE; for a payload that is
    not in the old format it is at least MIN_KEY_SIZE and [migratable] is
    untouched. *)
Theorem tpm2_unseal_cmd_payload
        (K : collaborators) (blob_handle rc : Z) (w w1 : world) :
  tpm2_unseal_cmd K blob_handle w = Done rc w1 ->
  MAX_KEY_SIZE <= Z.of_nat (length (key (payload w))) ->
  blob (payload w1) = blob (payload w) /\
  blob_len (payload w1) = blob_len (payload w) /\
  old_format (payload w1) = old_format (payload w) /\
  (rc <> 0 -> payload w1 = payload w) /\
  (rc = 0 ->
   MIN_KEY_SIZE - 1 <= key_len (payload w1) <= MAX_KEY_SIZE /\
   length (key (payload w1)) = length (key (payload w)) /\
   (old_format (payload w) = 0 ->
    MIN_KEY_SIZE <= key_len (payload w1) /\
    migratable (payload w1) = migratable (payload w))).
Proof.
  unfold tpm2_unseal_cmd, unseal_extract, tpm_buf_destroy.
  mopen.
  repeat mcase; try discriminate; intros [= <- <-] Hkey.
  all: match goal with
       | H : unseal_exchange ?K0 ?h ?w = Done _ ?w0 |- _ =>
           pose proof (unseal_exchange_payload K0 h w) as Hp;
           rewrite H in Hp; cbn [final] in Hp
       end.
  all: try match goal with
           | H : unseal_exchange _ _ _ = Done (inl _) _ |- _ =>
               apply unseal_exchange_early in H
           end.
  all: repeat match goal with
              | H : (_ =? 0) = true |- _ => apply Z.eqb_eq in H
              | H : (_ =? 0) = false |- _ => apply Z.eqb_neq in H
              | H : negb (_ =? 0) = true |- _ =>
                  apply negb_true_iff, Z.eqb_neq in H
              | H : negb (_ =? 0) = false |- _ =>
                  apply negb_false_iff, Z.eqb_eq in H
              | H : _ || _ = false |- _ =>
                  apply orb_false_elim in H; destruct H
              | H : (_ <? _) = false |- _ => apply Z.ltb_ge in H
              | H : (_ >? _) = false |- _ =>
                  rewrite Z.gtb_ltb in H; apply Z.ltb_ge in H
              end.
  all: cbn [payload log set_payload set_key set_migratable key key_len
            migratable old_format blob blob_len];
    rewrite ?Hp in *.
  all: do 3 (split; [reflexivity |]).
  all: (split; [intros Hnz; try reflexivity; try contradiction
               | intros Hz; try discriminate Hz; try contradiction]).
  all: unfold MIN_KEY_SIZE, MAX_KEY_SIZE in *.
  all: (split; [lia |]);
    (split; [apply memcpy_length; rewrite page_read_length; lia |]);
    intros Ho; first [contradiction | split; [lia | reflexivity]].
Qed.

Lemma tpm2_unseal_cmd_payload_witness :
  MIN_KEY_SIZE - 1
  <= key_len (payload (final (tpm2_unseal_cmd
                                (Examples.platform 0 48
                                   Examples.unseal_response)
                                0x80000001 (LoadExamples.legacy_world 0x12))))
  <= MAX_KEY_SIZE.
Proof.
  refine (proj1 (proj2 (proj2 (proj2 (proj2
            (tpm2_unseal_cmd_payload
               (Examples.platform 0 48 Examples.unseal_response)
               0x80000001 0 (LoadExamples.legacy_world 0x12) _ _ _))))
            eq_refl)).
  - vm_compute. reflexivity.
  - vm_compute. discriminate.
Defined.

(** ** Load: the status, the handle and the payload *)

(** the tests met on a path, as equations and inequalities *)
Ltac path_tests :=
  repeat match goal with
         | H : (_ =? _) = true |- _ => apply Z.eqb_eq in H
         | H : (_ =? _) = false |- _ => apply Z.eqb_neq in H
         | H : negb (_ =? _) = true |- _ =>
             apply negb_true_iff, Z.eqb_neq in H
         | H : negb (_ =? _) = false |- _ =>
             apply negb_false_iff, Z.eqb_eq in H
         | H : (_ <? _) = true |- _ => apply Z.ltb_lt in H
         | H : (_ <? _) = false |- _ => apply Z.ltb_ge in H
         | H : (_ >? _) = true |- _ =>
             rewrite Z.gtb_ltb in H; apply Z.ltb_lt in H
         | H : (_ >? _) = false |- _ =>
             rewrite Z.gtb_ltb in H; apply Z.ltb_ge in H
         end.

Lemma load_exchange_result (K : collaborators) (blob : blobref)
      (blob_len rc : Z) (h : option Z) (w w1 : world) :
  load_exchange K blob blob_len w = Done (rc, h) w1 ->
  rc = 0 <-> h <> None.
Proof.
  unfold load_exchange, load_out, kfree, tpm_buf_destroy,
    tpm2_start_auth_session, tpm_buf_init, tpm2_end_auth_session,
    tpm_buf_append_name, tpm_buf_append_hmac_session,
    tpm_buf_fill_hmac_session, tpm_transmit_cmd, tpm_buf_check_hmac_response.
  mopen.
  repeat mcase; try discriminate; intros [= <- <-]; path_tests.
  all: unfold E2BIG, EPERM, ENOMEM in *.
  all: split; intros E; try congruence; try discriminate; try lia;
    try assumption; try solve [exfalso; auto].
Qed.

(** the effects of a load, given what the decode has returned *)
Lemma tpm2_load_cmd_effects
        (K : collaborators) (w w0 w1 : world) (drc rc : Z)
        (dbuf : option nat) (h : option Z) :
  tpm2_key_decode K w = Done (drc, dbuf) w0 ->
  tpm2_load_cmd K w = Done (rc, h) w1 ->
  (rc = 0 <-> h <> None) /\
  key (payload w1) = key (payload w) /\
  key_len (payload w1) = key_len (payload w) /\
  blob (payload w1) = blob (payload w) /\
  blob_len (payload w1) = blob_len (payload w) /\
  old_format (payload w1) = (if drc =? 0 then old_format (payload w) else 1).
Proof.
  intros Hdec.
  pose proof (tpm2_key_decode_payload K w) as Hp0.
  rewrite Hdec in Hp0. cbn [final] in Hp0.
  unfold tpm2_load_cmd, load_validate, load_decode, load_checks.
  mopen. rewrite Hdec. cbv beta iota.
  repeat mcase; try discriminate; intros Hrun;
    try (injection Hrun as <- <- <-); path_tests.
  all: try match type of Hrun with
           | load_exchange ?K0 ?b ?n ?w' = _ =>
               pose proof (load_exchange_payload K0 b n w') as Hp1;
               rewrite Hrun in Hp1; cbn [final] in Hp1;
               apply load_exchange_result in Hrun
           end.
  all: cbn [payload log set_payload set_old_format set_migratable key
            key_len migratable old_format blob blob_len] in *.
  all: rewrite ?Hp1;
    cbn [payload log set_payload set_old_format set_migratable key
         key_len migratable old_format blob blob_len];
    rewrite ?Hp0.
  all: split; [| repeat split].
  all: try assumption.
  all: unfold EINVAL, E2BIG; split; intros E; [lia | congruence].
Qed.

Lemma tpm2_load_cmd_pairing (K : collaborators) (w w1 : world) (rc : Z)
      (h : option Z) :
  tpm2_load_cmd K w = Done (rc, h) w1 -> rc = 0 <-> h <> None.
Proof.
  intros Hrun.
  destruct (tpm2_key_decode K w) as [[drc dbuf] w0 | f w0] eqn:Hdec.
  - exact (proj1 (tpm2_load_cmd_effects K w w0 w1 drc rc dbuf h Hdec Hrun)).
  - exfalso. revert Hrun.
    unfold tpm2_load_cmd, load_validate, load_decode.
    unfold bind at 1. unfold bind at 1. unfold bind at 1.
    rewrite Hdec. discriminate.
Qed.

(** X9. A call of tpm2_load_cmd that returns has stored a handle through
    [blob_handle] exactly when its status is 0, so a caller that tests the
    status never reads a handle that was not written.  It has written no
    member of the payload but [migratable] and [old_format]: the key and
    the blob, with their lengths, are those before the call.
    [old_format] is set to 1 whenever tpm2_key_decode has returned a
    status other than 0, whatever the reason (a blob that does not parse,
    or a lack of memory), and is left as it was otherwise: it is never
    cleared. *)
Theorem tpm2_load_cmd_result
        (K : collaborators) (w w0 w1 : world) (drc rc : Z)
        (dbuf : option nat) (h : option Z) :
  tpm2_key_decode K w = Done (drc, dbuf) w0 ->
  tpm2_load_cmd K w = Done (rc, h) w1 ->
  (rc = 0 <-> h <> None) /\
  key (payload w1) = key (payload w) /\
  key_len (payload w1) = key_len (payload w) /\
  blob (payload w1) = blob (payload w) /\
  blob_len (payload w1) = blob_len (payload w) /\
  old_format (payload w1) = (if drc =? 0 then old_format (payload w) else 1).
Proof.
  intros Hdec Hrun.
  exact (tpm2_load_cmd_effects K w w0 w1 drc rc dbuf h Hdec Hrun).
Qed.

Lemma tpm2_load_cmd_result_witness :
  old_format (payload (final (tpm2_load_cmd (Examples.platform 0 14 [])
                                            (LoadExamples.legacy_world 0x12))))
  = 1.
Proof.
  refine (proj2 (proj2 (proj2 (proj2 (proj2
            (tpm2_load_cmd_result
               (Examples.platform 0 14 []) (LoadExamples.legacy_world 0x12)
               (LoadExamples.legacy_world 0x12) _ (- EBADMSG) 0 None
               (Some 0) _ _)))))).
  - vm_compute. reflexivity.
  - vm_compute. reflexivity.
Defined.

(** ** Load: the read of the attributes *)

Lemma get_unaligned_be32_outside (m : list Z) (off : Z) :
  Z.of_nat (length m) < off + 4 -> get_unaligned_be32 m off = None.
Proof.
  intros H. unfold get_unaligned_be32.
  assert (Hlast : rd m (off + 3) = None).
  { unfold rd. destruct (off + 3 <? 0); [reflexivity |].
    apply nth_error_None. lia. }
  rewrite Hlast.
  destruct (rd m off), (rd m (off + 1)), (rd m (off + 2)); reflexivity.
Qed.

(** X10. The checks of tpm2_load_cmd bound the two declared lengths by
    [payload->blob_len], but not the read of the attributes, four bytes
    at offset 4 of the public area, that is at offset private_len + 8 of
    the blob: the declared public length is not compared with 8.  When
    the blob that has passed the checks is shorter than private_len + 12
    bytes, tpm2_load_cmd reads the attributes past its end. *)
Theorem tpm2_load_cmd_attrs_read_unchecked
        (K : collaborators) (w w1 : world) (blob : blobref)
        (private_len public_len : Z) (mem : list Z) :
  load_validate K w = Done (inr (blob, private_len, public_len)) w1 ->
  blob_bytes blob w1 = Some mem ->
  Z.of_nat (length mem) < private_len + 12 ->
  tpm2_load_cmd K w = Crash OutOfBoundsRead w1.
Proof.
  intros Hval Hmem Hshort. unfold tpm2_load_cmd.
  unfold bind at 1. rewrite Hval. cbv beta iota.
  unfold bind at 1, get. unfold bind at 1. rewrite Hmem. cbn [must ret].
  unfold bind at 1.
  rewrite get_unaligned_be32_outside by lia. reflexivity.
Qed.

Lemma tpm2_load_cmd_attrs_read_unchecked_witness :
  blob_len (payload LegacyExamples.full_world) = MAX_BLOB_SIZE /\
  length (blob (payload LegacyExamples.full_world)) = 512%nat /\
  exists w1,
    tpm2_load_cmd (Examples.platform 0 14 []) LegacyExamples.full_world
    = Crash OutOfBoundsRead w1.
Proof.
  split; [reflexivity |]. split; [reflexivity |].
  exists (final (load_validate (Examples.platform 0 14 [])
                               LegacyExamples.full_world)).
  apply (tpm2_load_cmd_attrs_read_unchecked
           (Examples.platform 0 14 []) LegacyExamples.full_world _
           InPayload 504 0 LegacyExamples.full_blob).
  - vm_compute. reflexivity.
  - reflexivity.
  - vm_compute. reflexivity.
Defined.

(** ** Unseal: the load, the unseal and the flush *)

(** X11. tpm2_unseal_trusted composes its steps as follows.  When
    tpm_try_get_ops fails, its status is returned and nothing else is
    called.  When tpm2_load_cmd returns without a handle, its status is
    returned after tpm_put_ops, and no unseal is attempted.  When it
    returns a handle, the object is unsealed, then flushed whatever the
    status of the unseal, then tpm_put_ops is called, and the status of
    the unseal is returned. *)
Theorem tpm2_unseal_trusted_steps (K : collaborators) (w : world) :
  (k_try_get_ops K (trace w) <> 0 ->
   tpm2_unseal_trusted K w
   = Done (k_try_get_ops K (trace w)) (log EvTryGetOps w)) /\
  (k_try_get_ops K (trace w) = 0 ->
   forall lrc h w1,
     tpm2_load_cmd K (log EvTryGetOps w) = Done (lrc, h) w1 ->
     match h with
     | None => tpm2_unseal_trusted K w = Done lrc (log EvPutOps w1)
     | Some blob_handle =>
         forall rc w2,
           tpm2_unseal_cmd K blob_handle w1 = Done rc w2 ->
           tpm2_unseal_trusted K w
           = Done rc (log EvPutOps (log (EvFlushContext blob_handle) w2))
     end).
Proof.
  unfold tpm2_unseal_trusted, tpm_try_get_ops, tpm2_flush_context,
    tpm_put_ops.
  split.
  - intros Hops. unfold bind at 1.
    apply Z.eqb_neq in Hops. rewrite Hops. reflexivity.
  - intros Hops lrc h w1 Hload.
    pose proof (tpm2_load_cmd_pairing _ _ _ _ _ Hload) as Hpair.
    destruct h as [blob_handle |].
    + assert (lrc = 0) as -> by (apply Hpair; discriminate).
      intros rc w2 Hun. mopen. rewrite Hops. cbn [Z.eqb negb].
      rewrite Hload. cbv beta iota. rewrite Hun. reflexivity.
    + assert (Hl : lrc <> 0) by (intros E; apply Hpair in E; congruence).
      mopen. rewrite Hops. cbn [Z.eqb negb]. rewrite Hload.
      destruct lrc; [contradiction | reflexivity | reflexivity].
Qed.

Lemma tpm2_unseal_trusted_steps_witness :
  exists w2,
    tpm2_unseal_trusted (Examples.platform 0 48 Examples.unseal_response)
                        DecodeExamples.world40
    = Done 0 (log EvPutOps (log (EvFlushContext 0) w2)).
Proof.
  pose proof (proj2 (tpm2_unseal_trusted_steps
                       (Examples.platform 0 48 Examples.unseal_response)
                       DecodeExamples.world40)
                eq_refl 0 (Some 0)
                (final (tpm2_load_cmd
                          (Examples.platform 0 48 Examples.unseal_response)
                          (log EvTryGetOps DecodeExamples.world40)))) as H.
  cbv beta iota in H. eexists. apply H.
  - vm_compute. reflexivity.
  - instantiate (1 := final (tpm2_unseal_cmd
                       (Examples.platform 0 48 Examples.unseal_response) 0
                       (final (tpm2_load_cmd
                          (Examples.platform 0 48 Examples.unseal_response)
                          (log EvTryGetOps DecodeExamples.world40))))).
    vm_compute. reflexivity.
Defined.

(** ** The authorisation area *)

Lemma nth_page_read (p : Z -> Z) (off : Z) (n k : nat) :
  (k < n)%nat -> nth k (page_read p off n) 0 = p (off + Z.of_nat k).
Proof.
  intros H. unfold page_read.
  rewrite (nth_indep _ 0 (p (off + Z.of_nat 0)))
    by (rewrite length_map, length_seq; exact H).
  rewrite (map_nth (fun k => p (off + Z.of_nat k))), seq_nth by exact H.
  reflexivity.
Qed.

Lemma page_read_eq (p : Z -> Z) (off : Z) (bs : list Z) :
  (forall k, (k < length bs)%nat -> p (off + Z.of_nat k) = nth k bs 0) ->
  page_read p off (length bs) = bs.
Proof.
  intros H. apply (nth_ext _ _ 0 0); [apply page_read_length |].
  intros k Hk. rewrite page_read_length in Hk.
  rewrite nth_page_read by exact Hk. apply H, Hk.
Qed.

Lemma page_read_ext (p q : Z -> Z) (off : Z) (n : nat) :
  (forall i, off <= i < off + Z.of_nat n -> p i = q i) ->
  page_read p off n = page_read q off n.
Proof.
  intros H. unfold page_read. apply map_ext_in. intros k Hk.
  apply in_seq in Hk. apply H. lia.
Qed.

Lemma page_read_app (p : Z -> Z) (off : Z) (n m : nat) :
  page_read p off (n + m)
  = page_read p off n ++ page_read p (off + Z.of_nat n) m.
Proof.
  apply (nth_ext _ _ 0 0).
  { rewrite length_app, !page_read_length. reflexivity. }
  intros k Hk. rewrite page_read_length in Hk.
  rewrite nth_page_read by exact Hk.
  destruct (lt_dec k n) as [Hlt | Hge].
  - rewrite app_nth1 by (rewrite page_read_length; exact Hlt).
    rewrite nth_page_read by exact Hlt. reflexivity.
  - rewrite app_nth2 by (rewrite page_read_length; lia).
    rewrite page_read_length, nth_page_read by lia. f_equal. lia.
Qed.

Lemma page_write_inside (p : Z -> Z) (off i : Z) (bs : list Z) :
  off <= i < off + Z.of_nat (length bs) ->
  page_write p off bs i = nth (Z.to_nat (i - off)) bs 0.
Proof.
  intros H. unfold page_write.
  destruct (Z.leb_spec off i); [| lia].
  destruct (Z.ltb_spec i (off + Z.of_nat (length bs))); [| lia].
  reflexivity.
Qed.

Lemma page_write_outside (p : Z -> Z) (off i : Z) (bs : list Z) :
  i < off \/ off + Z.of_nat (length bs) <= i ->
  page_write p off bs i = p i.
Proof.
  intros H. unfold page_write.
  destruct (Z.leb_spec off i); [| reflexivity].
  destruct (Z.ltb_spec i (off + Z.of_nat (length bs))); [lia |].
  reflexivity.
Qed.

Lemma appended_nil (buf : tpm_buf) : appended buf buf [].
Proof.
  repeat split. cbn [length]. lia.
Qed.

Lemma appended_app (a b c : tpm_buf) (x y : list Z) :
  6 <= b_length a ->
  appended a b x -> appended b c y -> appended a c (x ++ y).
Proof.
  intros Ha (F1 & L1 & R1 & P1) (F2 & L2 & R2 & P2).
  split; [congruence |]. split; [rewrite length_app; lia |]. split.
  - rewrite length_app, page_read_app. f_equal.
    + rewrite <- R1 at 2. apply page_read_ext. intros i Hi. apply P2. lia.
    + rewrite <- L1. exact R2.
  - intros i Hi. rewrite P2 by lia. apply P1, Hi.
Qed.

(** an append that fits the page, on a command buffer that has not
    overflowed *)
Lemma tpm_buf_append_appended (buf : tpm_buf) (data : list Z) (len : Z) :
  flag_set (b_flags buf) TPM_BUF_OVERFLOW = false ->
  flag_set (b_flags buf) TPM_BUF_TPM2B = false ->
  6 <= b_length buf ->
  0 <= len < 65536 -> len <= Z.of_nat (length data) ->
  b_length buf + len <= PAGE_SIZE ->
  exists buf',
    tpm_buf_append buf data len = Some buf' /\
    appended buf buf' (firstn (Z.to_nat len) data).
Proof.
  intros Hov H2b Hhdr Hlen Hdata Hfit. unfold tpm_buf_append.
  assert (Hu : u16 len = len) by (unfold u16; apply Z.mod_small; lia).
  rewrite Hu, Hov, H2b.
  destruct (Z.gtb_spec (b_length buf + len) PAGE_SIZE); [lia |].
  unfold slice.
  destruct (Z.leb_spec 0 len); [| lia].
  destruct (Z.leb_spec (0 + len) (Z.of_nat (length data))); [| lia].
  change (0 <=? 0) with true. cbn [andb].
  change (Z.to_nat 0) with 0%nat. rewrite drop_0.
  eexists. split; [reflexivity |].
  assert (Hbs : Z.of_nat (length (firstn (Z.to_nat len) data)) = len)
    by (rewrite length_take; lia).
  split; [reflexivity |]. split; [cbn [b_length]; lia |]. split.
  - cbn [b_data]. apply page_read_eq. intros k Hk.
    rewrite page_write_outside
      by (change (length (be32_bytes _)) with 4%nat; lia).
    rewrite page_write_inside by lia. f_equal. lia.
  - intros i Hi. cbn [b_data].
    rewrite page_write_outside
      by (change (length (be32_bytes _)) with 4%nat; lia).
    apply page_write_outside. lia.
Qed.


Lemma appended_area (a b : tpm_buf) (x data : list Z) (len : Z) :
  flag_set (b_flags a) TPM_BUF_OVERFLOW = false ->
  flag_set (b_flags a) TPM_BUF_TPM2B = false ->
  6 <= b_length a ->
  appended a b x ->
  0 <= len < 65536 -> len <= Z.of_nat (length data) ->
  b_length a + Z.of_nat (length x) + len <= PAGE_SIZE ->
  exists b',
    tpm_buf_append b data len = Some b' /\
    appended a b' (x ++ firstn (Z.to_nat len) data).
Proof.
  intros Hov H2b Hhdr Hab Hlen Hdata Hfit.
  pose proof Hab as (F & L & _ & _).
  destruct (tpm_buf_append_appended b data len) as (b' & Hb' & Happ);
    try rewrite F; try assumption; try lia.
  exists b'. split; [exact Hb' |].
  eapply appended_app; eassumption.
Qed.

Lemma appended_bytes (a b : tpm_buf) (x bs : list Z) :
  flag_set (b_flags a) TPM_BUF_OVERFLOW = false ->
  flag_set (b_flags a) TPM_BUF_TPM2B = false ->
  6 <= b_length a ->
  appended a b x ->
  Z.of_nat (length bs) < 65536 ->
  b_length a + Z.of_nat (length x) + Z.of_nat (length bs) <= PAGE_SIZE ->
  appended a (append_bytes b bs) (x ++ bs).
Proof.
  intros Hov H2b Hhdr Hab Hlen Hfit.
  destruct (appended_area a b x bs (Z.of_nat (length bs)))
    as (b' & Hb' & Happ); try assumption; try lia.
  unfold append_bytes. rewrite Hb'.
  rewrite Nat2Z.id, firstn_all in Happ. exact Happ.
Qed.

(** X12. On a command buffer that has room, tpm2_buf_append_auth adds, in
    this order, the size of the area in four bytes, the session handle in
    four, the nonce length in two, the nonce, the attributes in one byte,
    the HMAC length in two and the HMAC, and touches nothing else of the
    command.  The size it announces, 9 + nonce_len + hmac_len, is the
    number of bytes that follow it exactly when no length other than 0
    comes with a NULL pointer: a NULL nonce or HMAC is skipped, whatever
    its length says. *)
Theorem tpm2_buf_append_auth_layout
        (buf : tpm_buf) (session_handle nonce_len attributes hmac_len : Z)
        (nonce hmac : option (list Z)) :
  flag_set (b_flags buf) TPM_BUF_OVERFLOW = false ->
  flag_set (b_flags buf) TPM_BUF_TPM2B = false ->
  6 <= b_length buf ->
  0 <= nonce_len < 65536 -> 0 <= hmac_len < 65536 ->
  (forall n, nonce = Some n -> nonce_len <= Z.of_nat (length n)) ->
  (forall h, hmac = Some h -> hmac_len <= Z.of_nat (length h)) ->
  b_length buf + 13 + nonce_len + hmac_len <= PAGE_SIZE ->
  exists buf',
    tpm2_buf_append_auth buf session_handle nonce nonce_len attributes
                         hmac hmac_len = Some buf' /\
    appended buf buf'
      (be32_bytes (9 + nonce_len + hmac_len)
       ++ be32_bytes (u32 session_handle) ++ be16_bytes nonce_len
       ++ area_bytes nonce nonce_len
       ++ [u8 attributes] ++ be16_bytes hmac_len
       ++ area_bytes hmac hmac_len) /\
    (Z.of_nat (length (be32_bytes (u32 session_handle)
                       ++ be16_bytes nonce_len
                       ++ area_bytes nonce nonce_len
                       ++ [u8 attributes] ++ be16_bytes hmac_len
                       ++ area_bytes hmac hmac_len))
     = 9 + nonce_len + hmac_len
     <-> (nonce = None -> nonce_len = 0) /\ (hmac = None -> hmac_len = 0)).
Proof.
  intros Hov H2b Hhdr Hn Hh Hnonce Hhmac Hfit.
  assert (Hnl : Z.of_nat (length (area_bytes nonce nonce_len))
                = match nonce with Some _ => nonce_len | None => 0 end).
  { destruct nonce as [n |]; [| reflexivity]. cbn [area_bytes].
    rewrite length_take. specialize (Hnonce n eq_refl). lia. }
  assert (Hhl : Z.of_nat (length (area_bytes hmac hmac_len))
                = match hmac with Some _ => hmac_len | None => 0 end).
  { destruct hmac as [h |]; [| reflexivity]. cbn [area_bytes].
    rewrite length_take. specialize (Hhmac h eq_refl). lia. }
  assert (Hnle : Z.of_nat (length (area_bytes nonce nonce_len)) <= nonce_len)
    by (rewrite Hnl; destruct nonce; lia).
  assert (Hhle : Z.of_nat (length (area_bytes hmac hmac_len)) <= hmac_len)
    by (rewrite Hhl; destruct hmac; lia).
  unfold tpm2_buf_append_auth.
  assert (Hun : u16 nonce_len = nonce_len)
    by (unfold u16; apply Z.mod_small; lia).
  assert (Huh : u16 hmac_len = hmac_len)
    by (unfold u16; apply Z.mod_small; lia).
  assert (Hus : u32 (9 + nonce_len + hmac_len) = 9 + nonce_len + hmac_len)
    by (unfold u32; apply Z.mod_small; lia).
  rewrite Hun, Huh. cbv zeta.
  unfold tpm_buf_append_u32, tpm_buf_append_u16, tpm_buf_append_u8.
  rewrite Hun, Huh, Hus.
  pose proof (appended_nil buf) as A0.
  pose proof (appended_bytes buf _ _ (be32_bytes (9 + nonce_len + hmac_len))
                Hov H2b Hhdr A0 ltac:(cbn; lia) ltac:(cbn; lia)) as A1.
  pose proof (appended_bytes buf _ _ (be32_bytes (u32 session_handle))
                Hov H2b Hhdr A1 ltac:(cbn; lia) ltac:(cbn; lia)) as A2.
  pose proof (appended_bytes buf _ _ (be16_bytes nonce_len)
                Hov H2b Hhdr A2 ltac:(cbn; lia) ltac:(cbn; lia)) as A3.
  cbn [app] in A1, A2, A3.
  set (b3 := append_bytes _ (be16_bytes nonce_len)) in *.
  assert (A4 : exists b4,
             match nonce with
             | Some n => if nonce_len =? 0 then Some b3
                         else tpm_buf_append b3 n nonce_len
             | None => Some b3
             end = Some b4 /\
             appended buf b4
               ((be32_bytes (9 + nonce_len + hmac_len)
                 ++ be32_bytes (u32 session_handle) ++ be16_bytes nonce_len)
                ++ area_bytes nonce nonce_len)).
  { destruct nonce as [n |].
    - destruct (Z.eqb_spec nonce_len 0) as [-> | Hnz].
      + exists b3. split; [reflexivity |]. cbn [area_bytes].
        change (Z.to_nat 0) with 0%nat. cbn [firstn].
        rewrite app_nil_r. exact A3.
      + apply appended_area; try assumption; try lia;
          try (apply Hnonce; reflexivity); try (cbn; lia).
    - exists b3. split; [reflexivity |]. cbn [area_bytes].
      rewrite app_nil_r. exact A3. }
  destruct A4 as (b4 & -> & A4).
  assert (L4 : Z.of_nat (length ((be32_bytes (9 + nonce_len + hmac_len)
                 ++ be32_bytes (u32 session_handle) ++ be16_bytes nonce_len)
                ++ area_bytes nonce nonce_len))
               = 10 + Z.of_nat (length (area_bytes nonce nonce_len)))
    by (rewrite length_app; cbn; lia).
  pose proof (appended_bytes buf _ _ [u8 attributes]
                Hov H2b Hhdr A4 ltac:(cbn; lia)
                ltac:(rewrite L4; cbn; lia)) as A5.
  assert (L5 : Z.of_nat (length (((be32_bytes (9 + nonce_len + hmac_len)
                 ++ be32_bytes (u32 session_handle) ++ be16_bytes nonce_len)
                ++ area_bytes nonce nonce_len) ++ [u8 attributes]))
               = 11 + Z.of_nat (length (area_bytes nonce nonce_len)))
    by (rewrite length_app, Nat2Z.inj_add, L4; cbn; lia).
  pose proof (appended_bytes buf _ _ (be16_bytes hmac_len)
                Hov H2b Hhdr A5 ltac:(cbn; lia)
                ltac:(rewrite L5; cbn; lia)) as A6.
  set (b6 := append_bytes _ (be16_bytes hmac_len)) in *.
  assert (L6 : Z.of_nat (length ((((be32_bytes (9 + nonce_len + hmac_len)
                 ++ be32_bytes (u32 session_handle) ++ be16_bytes nonce_len)
                ++ area_bytes nonce nonce_len) ++ [u8 attributes])
                ++ be16_bytes hmac_len))
               = 13 + Z.of_nat (length (area_bytes nonce nonce_len)))
    by (rewrite length_app, Nat2Z.inj_add, L5; cbn; lia).
  assert (A7 : exists b7,
             match hmac with
             | Some h => if hmac_len =? 0 then Some b6
                         else tpm_buf_append b6 h hmac_len
             | None => Some b6
             end = Some b7 /\
             appended buf b7
               (((((be32_bytes (9 + nonce_len + hmac_len)
                 ++ be32_bytes (u32 session_handle) ++ be16_bytes nonce_len)
                ++ area_bytes nonce nonce_len) ++ [u8 attributes])
                ++ be16_bytes hmac_len) ++ area_bytes hmac hmac_len)).
  { destruct hmac as [h |].
    - destruct (Z.eqb_spec hmac_len 0) as [-> | Hnz].
      + exists b6. split; [reflexivity |]. cbn [area_bytes].
        change (Z.to_nat 0) with 0%nat. cbn [firstn].
        rewrite app_nil_r. exact A6.
      + apply appended_area; try assumption; try lia;
          try (apply Hhmac; reflexivity); try (rewrite L6; lia).
    - exists b6. split; [reflexivity |]. cbn [area_bytes].
      rewrite app_nil_r. exact A6. }
  destruct A7 as (b7 & -> & A7).
  exists b7. split; [reflexivity |]. split.
  - rewrite <- !app_assoc in A7. exact A7.
  - rewrite !length_app, !Nat2Z.inj_add, Hnl, Hhl.
    change (Z.of_nat (length (be32_bytes (u32 session_handle)))) with 4.
    change (Z.of_nat (length (be16_bytes nonce_len))) with 2.
    change (Z.of_nat (length (be16_bytes hmac_len))) with 2.
    change (Z.of_nat (length [u8 attributes])) with 1.
    destruct nonce, hmac; split.
    all: try (intros _; split; intros; congruence).
    all: try (intros [H1 H2]; try rewrite (H1 eq_refl);
              try rewrite (H2 eq_refl); lia).
    all: intros E; split; intros; try congruence; lia.
Qed.

Lemma tpm2_buf_append_auth_layout_witness :
  exists buf',
    tpm2_buf_append_auth
      (tpm_buf_reset (mk_buf 0 0 (fun _ => 0)) TPM2_ST_SESSIONS
                     TPM2_CC_UNSEAL)
      0x03000000 None 0 0 (Some [1; 2; 3]) 3 = Some buf' /\
    b_length buf' = 26 /\
    page_read (b_data buf') 10 16
    = [0; 0; 0; 12; 3; 0; 0; 0; 0; 0; 0; 0; 3; 1; 2; 3].
Proof.
  destruct (tpm2_buf_append_auth_layout
              (tpm_buf_reset (mk_buf 0 0 (fun _ => 0)) TPM2_ST_SESSIONS
                             TPM2_CC_UNSEAL)
              0x03000000 0 0 3 None (Some [1; 2; 3]))
    as (buf' & Hrun & (_ & Hlen & Hread & _) & _).
  - reflexivity.
  - reflexivity.
  - vm_compute. discriminate.
  - lia.
  - lia.
  - discriminate.
  - intros h [= <-]. cbn. lia.
  - vm_compute. discriminate.
  - exists buf'. split; [exact Hrun |]. split; [exact Hlen | exact Hread].
Defined.

(** ** Seal: the length left by a failed call *)



(** ** Load: the last comparison of the lengths *)

Lemma load_checks_accepted (blob b : blobref) (private_len public_len : Z)
      (w w1 : world) :
  load_checks blob w = Done (inr (b, private_len, public_len)) w1 ->
  w1 = w /\ b = blob /\
  u32 (private_len + 2 + public_len + 2) <= blob_len (payload w).
Proof.
  unfold load_checks. mopen.
  repeat mcase; try discriminate; intros [= <- <- <- <-]; path_tests.
  repeat split. assumption.
Qed.

Lemma load_validate_accepted (K : collaborators) (blob : blobref)
      (private_len public_len : Z) (w w1 : world) :
  load_validate K w = Done (inr (blob, private_len, public_len)) w1 ->
  u32 (private_len + 2 + public_len + 2) <= blob_len (payload w1).
Proof.
  unfold load_validate. unfold bind at 1.
  destruct (load_decode K w) as [b w0 | f w0]; [| discriminate].
  intros H. apply load_checks_accepted in H. destruct H as (-> & _ & H).
  exact H.
Qed.

(** X14. Once the two declared lengths have passed the checks of
    tpm2_load_cmd, nothing but the read of the attributes stands between
    them and the exchange: the later comparison of
    private_len + public_len + 4 with [payload->blob_len] repeats the
    second check, and its return of -E2BIG is never taken. *)
Theorem tpm2_load_cmd_last_check_never_fires
        (K : collaborators) (w w1 : world) (blob : blobref)
        (private_len public_len attrs : Z) (mem : list Z) :
  load_validate K w = Done (inr (blob, private_len, public_len)) w1 ->
  blob_bytes blob w1 = Some mem ->
  get_unaligned_be32 mem (2 + private_len + 2 + 4) = Some attrs ->
  tpm2_load_cmd K w
  = load_exchange K blob (u32 (private_len + public_len + 4))
      (set_payload (set_migratable (migratable_of_attrs attrs) (payload w1))
                   w1).
Proof.
  intros Hval Hmem Hattrs.
  pose proof (load_validate_accepted _ _ _ _ _ _ Hval) as Hle.
  unfold tpm2_load_cmd. unfold bind at 1. rewrite Hval. cbv beta iota.
  unfold bind at 1, get. unfold bind at 1. rewrite Hmem. cbn [must ret].
  unfold bind at 1. rewrite Hattrs. cbn [must ret].
  unfold bind at 1, modify.
  replace (private_len + public_len + 4)
    with (private_len + 2 + public_len + 2) by lia.
  destruct (Z.gtb_spec (u32 (private_len + 2 + public_len + 2))
                       (blob_len (payload w1))); [lia |].
  reflexivity.
Qed.

Lemma tpm2_load_cmd_last_check_never_fires_witness :
  tpm2_load_cmd (Examples.platform 0 14 []) (LoadExamples.legacy_world 0x12)
  = load_exchange (Examples.platform 0 14 []) InPayload 14
      (set_payload
         (set_migratable 0
            (payload (final (load_validate (Examples.platform 0 14 [])
                                           (LoadExamples.legacy_world 0x12)))))
         (final (load_validate (Examples.platform 0 14 [])
                               (LoadExamples.legacy_world 0x12)))).
Proof.
  apply (tpm2_load_cmd_last_check_never_fires
           (Examples.platform 0 14 []) (LoadExamples.legacy_world 0x12)
           _ InPayload 2 8 0x12
           (blob (payload (LoadExamples.legacy_world 0x12)))).
  - vm_compute. reflexivity.
  - reflexivity.
  - vm_compute. reflexivity.
Defined.

(** ** Encode, then load *)

Lemma get_unaligned_be32_app (a r : list Z) (k : Z) :
  0 <= k ->
  get_unaligned_be32 (a ++ r) (Z.of_nat (length a) + k)
  = get_unaligned_be32 r k.
Proof.
  intros Hk. unfold get_unaligned_be32.
  rewrite <- !Z.add_assoc, !rd_app by lia. reflexivity.
Qed.

Lemma get_unaligned_be32_inside (m : list Z) (off : Z) :
  0 <= off -> off + 4 <= Z.of_nat (length m) ->
  exists v, get_unaligned_be32 m off = Some v.
Proof.
  intros H0 H4. unfold get_unaligned_be32.
  assert (Hrd : forall i, 0 <= i < Z.of_nat (length m) ->
                          exists b, rd m i = Some b).
  { intros i Hi. unfold rd. destruct (Z.ltb_spec i 0); [lia |].
    destruct (nth_error m (Z.to_nat i)) as [b |] eqn:E;
      [exists b; reflexivity |].
    apply nth_error_None in E. lia. }
  destruct (Hrd off ltac:(lia)) as [b0 ->].
  destruct (Hrd (off + 1) ltac:(lia)) as [b1 ->].
  destruct (Hrd (off + 2) ltac:(lia)) as [b2 ->].
  destruct (Hrd (off + 3) ltac:(lia)) as [b3 ->].
  eexists. reflexivity.
Qed.

(** X15. A blob that parses as the wire format of tpm2_key_encode, with a
    parent handle other than 0, within MAX_BLOB_SIZE and with a public
    area of at least four bytes, goes through tpm2_load_cmd up to the
    exchange when the allocator has memory.  The checks pass: the payload
    is not marked as old format, [options->keyhandle] is the parent
    handle of the blob, and the two declared lengths are those of the
    private and the public area the encoder was given.  The attributes
    are then read inside the decoded buffer, at offset 4 of the content
    of the public area, and the call continues with the exchange on the decoded buffer
    with a length that covers the two areas exactly, without the four
    bytes of margin. *)
Theorem tpm2_load_cmd_accepts_encoded
        (K : collaborators) (w : world) (kh : Z) (ea : bool)
        (privc pubc enc junk : list Z) :
  blob (payload w) = enc ++ junk ->
  blob_len (payload w) = Z.of_nat (length enc) ->
  Z.of_nat (length enc) <= MAX_BLOB_SIZE ->
  is_tpm2key kh ea (tpm2b pubc) (tpm2b privc) enc ->
  kh <> 0 ->
  (4 <= length pubc)%nat ->
  k_kmalloc K (trace w)
            (Z.of_nat (length (tpm2b privc))
             + Z.of_nat (length (tpm2b pubc)) + 4) <> None ->
  exists id w1 margin attrs,
    load_validate K w
    = Done (inr (InHeap id, Z.of_nat (length privc),
                 Z.of_nat (length pubc))) w1 /\
    heap w1 !! id = Some (tpm2b privc ++ tpm2b pubc ++ margin) /\
    length margin = 4%nat /\
    keyhandle (options w1) = kh /\
    payload w1 = payload w /\
    get_unaligned_be32 (pubc ++ margin) 4 = Some attrs /\
    tpm2_load_cmd K w
    = load_exchange K (InHeap id)
        (Z.of_nat (length (tpm2b privc ++ tpm2b pubc)))
        (set_payload (set_migratable (migratable_of_attrs attrs) (payload w))
                     w1).
Proof.
  intros Hblob Hlen Hmax Henc Hkh Hpub4 Hmem.
  pose proof (is_tpm2key_length _ _ _ _ _ Henc) as Hsz.
  rewrite !tpm2b_length in Hsz. unfold MAX_BLOB_SIZE in Hmax.
  destruct (tpm2_key_decode_wire K w kh ea (tpm2b pubc) (tpm2b privc) enc
              junk Hblob Hlen Hmax Henc Hmem)
    as (id & w2 & margin & Hdec & Hopt & Hpay & Hobj & Hmargin).
  destruct (get_unaligned_be32_inside (pubc ++ margin) 4)
    as [attrs Hattrs]; [lia | rewrite length_app; lia |].
  assert (Hval : load_validate K w
                 = Done (inr (InHeap id, Z.of_nat (length privc),
                              Z.of_nat (length pubc))) w2).
  { unfold load_validate, load_decode. unfold bind at 1. unfold bind at 1.
    rewrite Hdec. cbv beta iota. unfold ret at 1.
    unfold load_checks. unfold bind at 1, get.
    rewrite Hopt. cbn [keyhandle set_keyhandle].
    apply Z.eqb_neq in Hkh. rewrite Hkh.
    rewrite Hpay, Hlen.
    destruct (Z.ltb_spec (Z.of_nat (length enc)) 4); [lia |].
    unfold bind at 1. cbn [blob_bytes]. rewrite Hobj. cbn [must ret].
    unfold bind at 1. rewrite get_unaligned_be16_tpm2b by lia.
    cbn [must ret].
    assert (Hu1 : u32 (Z.of_nat (length privc) + 2 + 2)
                  = Z.of_nat (length privc) + 4)
      by (unfold u32; rewrite Z.mod_small; lia).
    rewrite Hu1.
    destruct (Z.gtb_spec (Z.of_nat (length privc) + 4)
                         (Z.of_nat (length enc))); [lia |].
    unfold bind at 1.
    replace (2 + Z.of_nat (length privc))
      with (Z.of_nat (length (tpm2b privc)))
      by (rewrite tpm2b_length; lia).
    rewrite get_unaligned_be16_app, get_unaligned_be16_tpm2b by lia.
    cbn [must ret].
    assert (Hu2 : u32 (Z.of_nat (length privc) + 2
                       + Z.of_nat (length pubc) + 2)
                  = Z.of_nat (length privc) + Z.of_nat (length pubc) + 4)
      by (unfold u32; rewrite Z.mod_small; lia).
    rewrite Hu2.
    destruct (Z.gtb_spec (Z.of_nat (length privc) + Z.of_nat (length pubc)
                          + 4) (Z.of_nat (length enc))); [lia |].
    reflexivity. }
  exists id, w2, margin, attrs.
  split; [exact Hval |]. split; [exact Hobj |]. split; [exact Hmargin |].
  split; [rewrite Hopt; reflexivity |]. split; [exact Hpay |].
  split; [exact Hattrs |].
  unfold tpm2_load_cmd. unfold bind at 1. rewrite Hval. cbv beta iota.
  unfold bind at 1, get. unfold bind at 1.
  cbn [blob_bytes]. rewrite Hobj. cbn [must ret].
  unfold bind at 1.
  assert (Hmemsplit : tpm2b privc ++ tpm2b pubc ++ margin
                      = (tpm2b privc ++ be16_bytes (Z.of_nat (length pubc)))
                          ++ pubc ++ margin).
  { unfold tpm2b at 2. rewrite <- !app_assoc. reflexivity. }
  rewrite Hmemsplit.
  replace (2 + Z.of_nat (length privc) + 2 + 4)
    with (Z.of_nat (length (tpm2b privc
                            ++ be16_bytes (Z.of_nat (length pubc)))) + 4)
    by (rewrite length_app, tpm2b_length; cbn [length be16_bytes]; lia).
  rewrite get_unaligned_be32_app, Hattrs by lia. cbn [must ret].
  unfold bind at 1, modify. rewrite Hpay, Hlen.
  assert (Hu : u32 (Z.of_nat (length privc) + Z.of_nat (length pubc) + 4)
               = Z.of_nat (length (tpm2b privc ++ tpm2b pubc))).
  { rewrite length_app, !tpm2b_length. unfold u32.
    rewrite Z.mod_small; lia. }
  rewrite Hu.
  destruct (Z.gtb_spec (Z.of_nat (length (tpm2b privc ++ tpm2b pubc)))
                       (Z.of_nat (length enc)));
    [rewrite length_app, !tpm2b_length in *; lia |].
  reflexivity.
Qed.

Lemma tpm2_load_cmd_accepts_encoded_witness :
  exists id w1,
    load_validate (Examples.platform 0 14 []) DecodeExamples.world40
    = Done (inr (InHeap id, 2, 8)) w1 /\
    keyhandle (options w1) = 0x81000001 /\
    tpm2_load_cmd (Examples.platform 0 14 []) DecodeExamples.world40
    = load_exchange (Examples.platform 0 14 []) (InHeap id) 14
        (set_payload (set_migratable 0 (payload DecodeExamples.world40)) w1).
Proof.
  destruct (tpm2_load_cmd_accepts_encoded
              (Examples.platform 0 14 []) DecodeExamples.world40
              0x81000001 true [0xde; 0xad] [0; 8; 0; 0xb; 0; 0; 0; 0x12]
              DecodeExamples.blob40 (repeat 0 472))
    as (id & w1 & margin & attrs & Hrun & _ & _ & Hkh & _ & Hattrs & Hload).
  - reflexivity.
  - reflexivity.
  - vm_compute. discriminate.
  - exists [0; 0x81; 0; 0; 1], [10], [4], [38].
    eexists. split; [reflexivity |]. split; [reflexivity |].
    split; [intros r; reflexivity |].
    split; [intros r; reflexivity |].
    split; [intros r; reflexivity |].
    split; [cbn; lia | reflexivity].
  - discriminate.
  - cbn. lia.
  - discriminate.
  - exists id, w1. split; [exact Hrun |]. split; [exact Hkh |].
    rewrite Hload. injection Hattrs as <-. reflexivity.
Defined.

(** ** Decode: the type of the key *)

(** X16. A blob that is a SEQUENCE whose first element is an OBJECT
    IDENTIFIER other than that of TPM sealed data is refused by
    tpm2_key_decode with -EINVAL, the status of tpm2_key_type, whatever
    follows the identifier: nothing is allocated, and the options and the
    payload are left as they were. *)
Theorem tpm2_key_decode_rejects_foreign_type
        (K : collaborators) (w : world)
        (lb lb1 oid rest junk : list Z) :
  blob (payload w) = (0x30 :: lb ++ 0x06 :: lb1 ++ oid ++ rest) ++ junk ->
  blob_len (payload w)
  = Z.of_nat (length (0x30 :: lb ++ 0x06 :: lb1 ++ oid ++ rest)) ->
  blob_len (payload w) <= 65535 ->
  der_header_of lb (Z.of_nat (length (0x06 :: lb1 ++ oid ++ rest))) ->
  der_header_of lb1 (Z.of_nat (length oid)) ->
  oid <> OID_TPMSealedData_bytes ->
  tpm2_key_decode K w = Done (- EINVAL, None) w.
Proof.
  intros Hblob Hlen Hmax Hlb Hlb1 Hoid.
  unfold tpm2_key_decode. unfold bind at 1, get. unfold bind at 1.
  assert (Hdec : asn1_ber_decoder ctx_zero (blob (payload w))
                                  (blob_len (payload w))
                 = Some (- EINVAL, ctx_zero)).
  { unfold asn1_ber_decoder.
    destruct (Z.gtb_spec (blob_len (payload w)) 65535); [lia |].
    rewrite Hblob, Hlen, slice_head. f_equal.
    destruct (der_tlv_element 0x30 lb (0x06 :: lb1 ++ oid ++ rest) []
                ltac:(discriminate) Hlb) as [h0 H0].
    rewrite app_nil_r in H0. rewrite H0. cbv beta iota.
    destruct (field_element 0x06 tpm2_key_type ctx_zero lb1 oid rest
                ltac:(discriminate) Hlb1) as [h1 H1].
    rewrite H1. unfold tpm2_key_type, is_OID_TPMSealedData.
    rewrite bool_decide_eq_false_2 by exact Hoid.
    reflexivity. }
  rewrite Hdec. reflexivity.
Qed.

Lemma tpm2_key_decode_rejects_foreign_type_witness :
  tpm2_key_decode (Examples.platform 0 14 [])
    (Examples.start
       (Examples.some_payload
          [0x30; 8; 0x06; 3; 0x55; 0x04; 0x03; 0x04; 1; 0] 10 0)
       (Examples.some_options 0x81000001 0 HASH_ALGO_SHA256))
  = Done (- EINVAL, None)
      (Examples.start
         (Examples.some_payload
            [0x30; 8; 0x06; 3; 0x55; 0x04; 0x03; 0x04; 1; 0] 10 0)
         (Examples.some_options 0x81000001 0 HASH_ALGO_SHA256)).
Proof.
  apply (tpm2_key_decode_rejects_foreign_type
           (Examples.platform 0 14 []) _ [8] [3] [0x55; 0x04; 0x03]
           [0x04; 1; 0] (repeat 0 502)).
  - reflexivity.
  - reflexivity.
  - cbn. lia.
  - intros r. reflexivity.
  - intros r. reflexivity.
  - discriminate.
Defined.

(** ** Encode: the read of the public length *)

Lemma get_unaligned_be16_outside (m : list Z) (off : Z) :
  Z.of_nat (length m) < off + 2 -> get_unaligned_be16 m off = None.
Proof.
  intros H. unfold get_unaligned_be16.
  assert (Hlast : rd m (off + 1) = None).
  { unfold rd. destruct (off + 1 <? 0); [reflexivity |].
    apply nth_error_None. lia. }
  rewrite Hlast. destruct (rd m off); reflexivity.
Qed.

(** X17. tpm2_key_encode trusts the length that the private area
    announces: it reads the length of the public area at
    [src + priv_len] before any check, the comparison with the scratch
    size coming later.  When the object [src] points into ends before
    these two bytes, the read is outside of it, whatever [len] says. *)
Theorem tpm2_key_encode_public_length_unchecked
        (K : collaborators) (src : list Z) (len v : Z) (w : world) :
  get_unaligned_be16 src 0 = Some v ->
  Z.of_nat (length src) < u16 (v + 2) + 2 ->
  tpm2_key_encode K src len w
  = Crash OutOfBoundsRead (final (kmalloc K SCRATCH_SIZE w)).
Proof.
  intros Hv Hshort. unfold tpm2_key_encode. unfold bind at 1.
  destruct (kmalloc K SCRATCH_SIZE w) as [scratch w1 | f w1] eqn:Ek.
  - cbn [final]. unfold bind at 1. rewrite Hv. cbn [must ret].
    unfold bind at 1.
    rewrite get_unaligned_be16_outside by exact Hshort. reflexivity.
  - exfalso. revert Ek. unfold kmalloc.
    destruct (k_kmalloc K (trace w) SCRATCH_SIZE); discriminate.
Qed.

Lemma tpm2_key_encode_public_length_unchecked_witness :
  exists w1,
    tpm2_key_encode (Examples.platform 0 0 [])
      (page_read (Examples.page_of (repeat 0 14 ++ [0xff; 0xf0]))
                 (TPM_HEADER_SIZE + 4) 4082) 0
      RoundtripExamples.sealing_world
    = Crash OutOfBoundsRead w1.
Proof.
  eexists.
  apply (tpm2_key_encode_public_length_unchecked
           (Examples.platform 0 0 []) _ 0 0xfff0
           RoundtripExamples.sealing_world).
  - vm_compute. reflexivity.
  - rewrite page_read_length. vm_compute. reflexivity.
Defined.
